(** * database-multi-connection: a shallow embedding and its verified properties

    The development follows the layout of the Python package:

    - [Codec]       app/utils/hash_verifier.py  (simple_encrypt, simple_decrypt)
    - [Py]          the Python values the program passes around
    - [Runtime]     the state-and-exception monad the connectors run in
    - [Connectors]  app/db/*.py  (BaseConnector, ODBCConnector,
                    PostgresConnector, get_db_connector)
    - [Cache]       app/cache/redis_cache.py  (redis_cache)
    - [Service]     app/services/db_service.py
    - [HashApi]     app/routes/hash_api.py  (the three views)

    Library code the program calls (hashlib, base64, the str codecs, json,
    redis, pyodbc, psycopg2) is modelled next to its caller and is marked as
    such. *)

From Stdlib Require Import ZArith List String Ascii Bool Lia DecimalString.
From stdpp Require Import gmap strings.
Import ListNotations.
Local Open Scope Z_scope.

(** [lia] extended with the equations of division and modulo by constants. *)
Ltac zlia := Z.div_mod_to_equations; lia.

(* ===================================================================== *)
(** * app/utils/hash_verifier.py                                          *)
(* ===================================================================== *)

Module Codec.

(** A Python [str] is a sequence of code points, a [bytes] object a sequence
    of integers in [0, 256). *)
Definition text := list Z.
Definition bytes := list Z.

Definition is_byte (b : Z) : Prop := 0 <= b < 256.
Definition is_ascii (c : Z) : Prop := 0 <= c < 128.

(** The code points [str.encode()] accepts: every Unicode scalar value.  A
    lone surrogate (U+D800..U+DFFF) makes [encode] raise; surrogates are not
    printable, so every printable string is [encodable]. *)
Definition scalar_value (c : Z) : Prop :=
  0 <= c < 0x110000 /\ ~ (0xD800 <= c <= 0xDFFF).
Definition encodable (s : text) : Prop := Forall scalar_value s.

#[global] Instance scalar_value_dec c : Decision (scalar_value c).
Proof. unfold scalar_value. apply _. Defined.
#[global] Instance encodable_dec s : Decision (encodable s).
Proof. unfold encodable. apply _. Defined.

(** An ASCII literal as a Python string. *)
Fixpoint text_of_string (s : string) : text :=
  match s with
  | EmptyString => []
  | String a r => Z.of_N (N_of_ascii a) :: text_of_string r
  end.

(** Sequencing of steps each of which may raise: inside the [try] blocks of
    this file every exception ends in [return None]. *)
Definition obind {A B} (m : option A) (k : A -> option B) : option B :=
  match m with Some a => k a | None => None end.
Notation "x <-? m ;; k" := (obind m (fun x => k))
  (at level 100, m at next level, right associativity).

(** ** str.encode() and bytes.decode(): strict UTF-8 *)

Definition utf8_encode_char (c : Z) : option bytes :=
  if c <? 0 then None
  else if c <? 0x80 then Some [c]
  else if c <? 0x800 then Some [0xC0 + c / 64; 0x80 + c mod 64]
  else if c <? 0x10000 then
    if (0xD800 <=? c) && (c <=? 0xDFFF) then None
    else Some [0xE0 + c / 4096; 0x80 + (c / 64) mod 64; 0x80 + c mod 64]
  else if c <? 0x110000 then
    Some [0xF0 + c / 262144; 0x80 + (c / 4096) mod 64;
          0x80 + (c / 64) mod 64; 0x80 + c mod 64]
  else None.

Fixpoint utf8_encode (s : text) : option bytes :=
  match s with
  | [] => Some []
  | c :: r =>
      e <-? utf8_encode_char c ;;
      er <-? utf8_encode r ;;
      Some (e ++ er)
  end.

Definition is_continuation (b : Z) : bool := (0x80 <=? b) && (b <? 0xC0).

Fixpoint utf8_decode (bs : bytes) : option text :=
  match bs with
  | [] => Some []
  | b0 :: r0 =>
      if b0 <? 0 then None
      else if b0 <? 0x80 then
        r <-? utf8_decode r0 ;; Some (b0 :: r)
      else if b0 <? 0xC2 then None
      else if b0 <? 0xE0 then
        match r0 with
        | b1 :: r1 =>
            if is_continuation b1 then
              r <-? utf8_decode r1 ;;
              Some ((b0 - 0xC0) * 64 + (b1 - 0x80) :: r)
            else None
        | _ => None
        end
      else if b0 <? 0xF0 then
        match r0 with
        | b1 :: b2 :: r2 =>
            let c := (b0 - 0xE0) * 4096 + (b1 - 0x80) * 64 + (b2 - 0x80) in
            if is_continuation b1 && is_continuation b2
               && (0x800 <=? c) && negb ((0xD800 <=? c) && (c <=? 0xDFFF))
            then r <-? utf8_decode r2 ;; Some (c :: r)
            else None
        | _ => None
        end
      else if b0 <? 0xF5 then
        match r0 with
        | b1 :: b2 :: b3 :: r3 =>
            let c := (b0 - 0xF0) * 262144 + (b1 - 0x80) * 4096
                     + (b2 - 0x80) * 64 + (b3 - 0x80) in
            if is_continuation b1 && is_continuation b2 && is_continuation b3
               && (0x10000 <=? c) && (c <? 0x110000)
            then r <-? utf8_decode r3 ;; Some (c :: r)
            else None
        | _ => None
        end
      else None
  end.

(** ** base64.b64encode / base64.b64decode (binascii) *)

Definition BASE64_PAD : Z := 61.   (* '=' *)

(** The alphabet A-Z a-z 0-9 + / as a function of the sextet. *)
Definition table_b2a_base64 (i : Z) : Z :=
  if i <? 26 then 65 + i
  else if i <? 52 then 97 + (i - 26)
  else if i <? 62 then 48 + (i - 52)
  else if i =? 62 then 43
  else 47.

(** The inverse table; [None] for a character outside the alphabet. *)
Definition table_a2b_base64 (c : Z) : option Z :=
  if (65 <=? c) && (c <=? 90) then Some (c - 65)
  else if (97 <=? c) && (c <=? 122) then Some (c - 97 + 26)
  else if (48 <=? c) && (c <=? 57) then Some (c - 48 + 52)
  else if c =? 43 then Some 62
  else if c =? 47 then Some 63
  else None.

Fixpoint b64encode (bs : bytes) : bytes :=
  match bs with
  | [] => []
  | [a] =>
      [table_b2a_base64 (a / 4); table_b2a_base64 ((a mod 4) * 16);
       BASE64_PAD; BASE64_PAD]
  | [a; b] =>
      [table_b2a_base64 (a / 4); table_b2a_base64 ((a mod 4) * 16 + b / 16);
       table_b2a_base64 ((b mod 16) * 4); BASE64_PAD]
  | a :: b :: c :: r =>
      table_b2a_base64 (a / 4)
      :: table_b2a_base64 ((a mod 4) * 16 + b / 16)
      :: table_b2a_base64 ((b mod 16) * 4 + c / 64)
      :: table_b2a_base64 (c mod 64)
      :: b64encode r
  end.

(** The loop of [binascii.a2b_base64] in its default, non-strict mode:
    characters outside the alphabet are skipped, a pad sequence that completes
    a quad stops the scan, and leftover sextets are an error. *)
Fixpoint a2b_base64_loop (inp : bytes) (quad_pos : nat) (leftchar : Z)
         (pads : nat) : option bytes :=
  match inp with
  | [] => match quad_pos with O => Some [] | _ => None end
  | this_ch :: rest =>
      if this_ch =? BASE64_PAD then
        if (2 <=? quad_pos)%nat then
          if (4 <=? quad_pos + S pads)%nat then Some []
          else a2b_base64_loop rest quad_pos leftchar (S pads)
        else a2b_base64_loop rest quad_pos leftchar pads
      else
        match table_a2b_base64 this_ch with
        | None => a2b_base64_loop rest quad_pos leftchar pads
        | Some v =>
            match quad_pos with
            | 0%nat => a2b_base64_loop rest 1 v 0
            | 1%nat =>
                r <-? a2b_base64_loop rest 2 (v mod 16) 0 ;;
                Some ((leftchar * 4 + v / 16) mod 256 :: r)
            | 2%nat =>
                r <-? a2b_base64_loop rest 3 (v mod 4) 0 ;;
                Some ((leftchar * 16 + v / 4) mod 256 :: r)
            | _ =>
                r <-? a2b_base64_loop rest 0 0 0 ;;
                Some ((leftchar * 64 + v) mod 256 :: r)
            end
        end
  end.

Definition a2b_base64 (inp : bytes) : option bytes := a2b_base64_loop inp 0 0 0.

(** [base64.b64decode] applied to a [str]: the argument is first encoded as
    ASCII, which raises on any code point above 127. *)
Definition str_encode_ascii (s : text) : option bytes :=
  if forallb (fun c => (0 <=? c) && (c <? 128)) s then Some s else None.

Definition b64decode (s : text) : option bytes :=
  b <-? str_encode_ascii s ;; a2b_base64 b.

(** ** hashlib.sha256 (FIPS 180-4) on 32-bit words held in [Z] *)

Definition w32 (x : Z) : Z := Z.land x 0xFFFFFFFF.
Definition add32 (x y : Z) : Z := w32 (x + y).
Definition rotr (n x : Z) : Z := Z.lor (Z.shiftr x n) (w32 (Z.shiftl x (32 - n))).
Definition Ch (x y z : Z) : Z :=
  Z.lxor (Z.land x y) (Z.land (Z.lxor x 0xFFFFFFFF) z).
Definition Maj (x y z : Z) : Z :=
  Z.lxor (Z.lxor (Z.land x y) (Z.land x z)) (Z.land y z).
Definition bsig0 (x : Z) : Z := Z.lxor (Z.lxor (rotr 2 x) (rotr 13 x)) (rotr 22 x).
Definition bsig1 (x : Z) : Z := Z.lxor (Z.lxor (rotr 6 x) (rotr 11 x)) (rotr 25 x).
Definition ssig0 (x : Z) : Z := Z.lxor (Z.lxor (rotr 7 x) (rotr 18 x)) (Z.shiftr x 3).
Definition ssig1 (x : Z) : Z := Z.lxor (Z.lxor (rotr 17 x) (rotr 19 x)) (Z.shiftr x 10).

(** The round constants are the first 32 bits of the fractional parts of the
    cube roots of the first 64 primes, the initial hash value those of the
    square roots of the first 8 primes. *)
Definition is_prime (n : nat) : bool :=
  forallb (fun d => negb (Nat.eqb (n mod d) 0)) (seq 2 (n - 2)).

Definition first_primes (count : nat) : list Z :=
  map Z.of_nat (firstn count (List.filter is_prime (seq 2 320))).

(** The integer cube root, found bit by bit from [2^bits] downwards. *)
Fixpoint cube_root_bits (bits : nat) (n r : Z) : Z :=
  match bits with
  | O => r
  | S b =>
      let r' := r + 2 ^ Z.of_nat b in
      cube_root_bits b n (if r' * r' * r' <=? n then r' else r)
  end.

Definition frac_cube_root (p : Z) : Z := cube_root_bits 40 (p * 2 ^ 96) 0 mod 2 ^ 32.
Definition frac_square_root (p : Z) : Z := Z.sqrt (p * 2 ^ 64) mod 2 ^ 32.

Definition K256 : list Z := Eval vm_compute in map frac_cube_root (first_primes 64).

Record hstate := HState
  { ha : Z; hb : Z; hc : Z; hd : Z; he : Z; hf : Z; hg : Z; hh : Z }.

Definition H256_init : hstate :=
  Eval vm_compute in
    match map frac_square_root (first_primes 8) with
    | [a; b; c; d; e; f; g; h] => HState a b c d e f g h
    | _ => HState 0 0 0 0 0 0 0 0
    end.

(** Message padding: 0x80, zeros up to 56 mod 64, the bit length on 8 bytes. *)
Definition be_bytes (n : nat) (x : Z) : bytes :=
  map (fun i => Z.shiftr x (8 * Z.of_nat i) mod 256) (rev (seq 0 n)).

Definition sha_pad (msg : bytes) : bytes :=
  let l := Z.of_nat (List.length msg) in
  let zeros := Z.to_nat ((55 - l) mod 64) in
  msg ++ [0x80] ++ repeat 0 zeros ++ be_bytes 8 (8 * l).

Fixpoint be_words (bs : bytes) : list Z :=
  match bs with
  | a :: b :: c :: d :: r => (((a * 256 + b) * 256 + c) * 256 + d) :: be_words r
  | _ => []
  end.

Fixpoint schedule (n : nat) (w : list Z) : list Z :=
  match n with
  | O => w
  | S n' =>
      let t := List.length w in
      let x i := nth (t - i) w 0 in
      schedule n'
        (w ++ [add32 (add32 (add32 (ssig1 (x 2%nat)) (x 7%nat)) (ssig0 (x 15%nat)))
                     (x 16%nat)])
  end.

Definition sha_round (s : hstate) (kw : Z * Z) : hstate :=
  let t1 := add32 (add32 (add32 (add32 (hh s) (bsig1 (he s)))
                                (Ch (he s) (hf s) (hg s))) (fst kw)) (snd kw) in
  let t2 := add32 (bsig0 (ha s)) (Maj (ha s) (hb s) (hc s)) in
  HState (add32 t1 t2) (ha s) (hb s) (hc s) (add32 (hd s) t1) (he s) (hf s) (hg s).

Definition sha_block (s : hstate) (block : list Z) : hstate :=
  let w := schedule 48 block in
  let r := fold_left sha_round (combine K256 w) s in
  HState (add32 (ha s) (ha r)) (add32 (hb s) (hb r)) (add32 (hc s) (hc r))
         (add32 (hd s) (hd r)) (add32 (he s) (he r)) (add32 (hf s) (hf r))
         (add32 (hg s) (hg r)) (add32 (hh s) (hh r)).

Fixpoint sha_blocks (n : nat) (s : hstate) (ws : list Z) : hstate :=
  match n with
  | O => s
  | S n' =>
      match ws with
      | [] => s
      | _ => sha_blocks n' (sha_block s (firstn 16 ws)) (skipn 16 ws)
      end
  end.

Definition digest_bytes (s : hstate) : bytes :=
  be_bytes 4 (ha s) ++ be_bytes 4 (hb s) ++ be_bytes 4 (hc s) ++ be_bytes 4 (hd s)
  ++ be_bytes 4 (he s) ++ be_bytes 4 (hf s) ++ be_bytes 4 (hg s) ++ be_bytes 4 (hh s).

Definition sha256 (msg : bytes) : bytes :=
  let ws := be_words (sha_pad msg) in
  digest_bytes (sha_blocks (List.length ws) H256_init ws).

(** ** The module itself *)

(** The fallback of [os.environ.get('HASH_SECRET', ...)]. *)
Definition DEFAULT_HASH_SECRET : text := text_of_string "default_secret_key_change_me".

Definition bytes_eqb (x y : bytes) : bool := bool_decide (x = y).

(** [simple_encrypt]: [None] is the value returned from the [except] branch.
    [HASH_SECRET] is the module-level setting read from the environment. *)
Definition simple_encrypt (HASH_SECRET : text) (connection_string : text)
  : option text :=
  signed <-? utf8_encode (connection_string ++ HASH_SECRET) ;;
  let signature := sha256 signed in
  raw <-? utf8_encode connection_string ;;
  encoded_conn <-? utf8_decode (b64encode raw) ;;
  encoded_bytes <-? utf8_encode encoded_conn ;;
  utf8_decode (b64encode (signature ++ encoded_bytes)).

(** [simple_decrypt]: [None] both for a signature mismatch and for any
    exception raised while decoding. *)
Definition simple_decrypt (HASH_SECRET : text) (hash_value : text)
  : option text :=
  decoded <-? b64decode hash_value ;;
  let signature := firstn 32 decoded in
  encoded_conn <-? utf8_decode (skipn 32 decoded) ;;
  raw <-? b64decode encoded_conn ;;
  connection_string <-? utf8_decode raw ;;
  signed <-? utf8_encode (connection_string ++ HASH_SECRET) ;;
  let expected_signature := sha256 signed in
  if negb (bytes_eqb signature expected_signature) then None
  else Some connection_string.

(** [simple_decrypt] applied to whatever [simple_encrypt] returned: passing
    [None] on makes [base64.b64decode] raise, which again returns [None]. *)
Definition decrypt_of_encrypt (HASH_SECRET D : text) : option text :=
  match simple_encrypt HASH_SECRET D with
  | Some token => simple_decrypt HASH_SECRET token
  | None => None
  end.

End Codec.

(* ===================================================================== *)
(** * Python values                                                        *)
(* ===================================================================== *)

Module Py.

(** The newline character of the f-strings of the source. *)
Definition nl : string := String (ascii_of_nat 10) EmptyString.

(** ** Strings (the ASCII fragment of [str])

    A character stands for the code point of its number.  [lower], [is_space]
    and what is built on them ([strip], [split_ws]) are Python's on the
    characters below 128; beyond them [str.lower()] also lowers the capital
    letters of other alphabets and [str.split()] also splits at the other
    blanks of Unicode, which these functions leave alone.  A statement whose
    content depends on the difference is made of [ascii_only] texts. *)

Definition lower_ascii (a : ascii) : ascii :=
  let n := nat_of_ascii a in
  if ((65 <=? n) && (n <=? 90))%nat then ascii_of_nat (n + 32) else a.

(** [str.lower()], on ASCII text: the letters A to Z are lowered. *)
Fixpoint lower (s : string) : string :=
  match s with
  | EmptyString => EmptyString
  | String a r => String (lower_ascii a) (lower r)
  end.

Fixpoint is_prefix (p s : string) : bool :=
  match p, s with
  | EmptyString, _ => true
  | String a p', String b s' => Ascii.eqb a b && is_prefix p' s'
  | String _ _, EmptyString => false
  end.

(** [needle in s] *)
Fixpoint contains (needle s : string) : bool :=
  is_prefix needle s
  || match s with
     | EmptyString => false
     | String _ r => contains needle r
     end.

Fixpoint rev_string (s acc : string) : string :=
  match s with
  | EmptyString => acc
  | String a r => rev_string r (String a acc)
  end.

(** [s.endswith(p)] *)
Definition is_suffix (p s : string) : bool :=
  is_prefix (rev_string p EmptyString) (rev_string s EmptyString).

(** [s.split(sep, 1)] for a one-character separator: the text before the
    first separator and the text after it, if there is one. *)
Fixpoint split_once (sep : ascii) (s : string) : string * option string :=
  match s with
  | EmptyString => (EmptyString, None)
  | String a r =>
      if Ascii.eqb a sep then (EmptyString, Some r)
      else let (h, t) := split_once sep r in (String a h, t)
  end.

(** The characters [str.isspace()] accepts, within ASCII. *)
Definition is_space (a : ascii) : bool :=
  let n := nat_of_ascii a in
  ((9 <=? n) && (n <=? 13) || (28 <=? n) && (n <=? 32))%nat.

Fixpoint lstrip (s : string) : string :=
  match s with
  | EmptyString => EmptyString
  | String a r => if is_space a then lstrip r else s
  end.

(** [s.rstrip()]: a trailing run of spaces is dropped. *)
Fixpoint rstrip (s : string) : string :=
  match s with
  | EmptyString => EmptyString
  | String a r =>
      match rstrip r with
      | EmptyString => if is_space a then EmptyString else String a EmptyString
      | r' => String a r'
      end
  end.

(** [s.strip()] *)
Definition strip (s : string) : string := lstrip (rstrip s).

(** [s.split()]: the maximal runs of non-space characters. *)
Fixpoint split_ws_aux (s cur : string) : list string :=
  let flush := match cur with
               | EmptyString => []
               | _ => [rev_string cur EmptyString]
               end in
  match s with
  | EmptyString => flush
  | String a r =>
      if is_space a then flush ++ split_ws_aux r EmptyString
      else split_ws_aux r (String a cur)
  end.
Definition split_ws (s : string) : list string := split_ws_aux s EmptyString.

(** [s.isascii()] *)
Fixpoint ascii_only (s : string) : bool :=
  match s with
  | EmptyString => true
  | String a r => (nat_of_ascii a <? 128)%nat && ascii_only r
  end.

(** [s.split("\n")]: the lines of a text. *)
Fixpoint lines_aux (s cur : string) : list string :=
  match s with
  | EmptyString => [rev_string cur EmptyString]
  | String a r =>
      if Ascii.eqb a (ascii_of_nat 10)
      then rev_string cur EmptyString :: lines_aux r EmptyString
      else lines_aux r (String a cur)
  end.
Definition lines (s : string) : list string := lines_aux s EmptyString.

(** [sep.join(parts)] *)
Definition join (sep : string) (parts : list string) : string :=
  String.concat sep parts.

(** [str(n)] for an [int]. *)
Definition str_of_int (z : Z) : string :=
  DecimalString.NilZero.string_of_int (Z.to_int z).

(** [x in (a, b, ...)] for strings *)
Definition str_in (x : string) (l : list string) : bool :=
  existsb (String.eqb x) l.

(** ** Cell values

    What a driver hands back for one column of one row.  [CObj] stands for
    an object json cannot write and hands to [default=str] ([Decimal],
    [datetime], [UUID], [memoryview], ...), through its type name, its
    [str()] and its truth value.  A float, and the list or dictionary of an
    array or json column, which json writes as they are, are not among the
    cells. *)
Inductive cell :=
| CNone
| CBool (b : bool)
| CInt (z : Z)
| CStr (s : string)
| CObj (type_name str_form : string) (truth : bool).


(** [str(v)], as the f-strings of the source apply it. *)
Definition py_str (v : cell) : string :=
  match v with
  | CNone => "None"
  | CBool true => "True"
  | CBool false => "False"
  | CInt z => str_of_int z
  | CStr s => s
  | CObj _ r _ => r
  end.

(** [bool(v)] *)
Definition truthy (v : cell) : bool :=
  match v with
  | CNone => false
  | CBool b => b
  | CInt z => negb (z =? 0)
  | CStr s => negb (String.eqb s "")
  | CObj _ _ t => t
  end.

Definition type_name_of (v : cell) : string :=
  match v with
  | CNone => "NoneType"
  | CBool _ => "bool"
  | CInt _ => "int"
  | CStr _ => "str"
  | CObj t _ _ => t
  end.

(** [v == 'text'] *)
Definition eq_str (v : cell) (s : string) : bool :=
  match v with CStr t => String.eqb t s | _ => false end.

(** [v != n] for an integer literal [n]; [True == 1] in Python.  An object
    outside the JSON scalars is taken to differ from every integer, which
    leaves out a [Decimal] equal to [n]; the value compared in the source is
    [max_length], an integer column of the catalog. *)
Definition ne_int (v : cell) (n : Z) : bool :=
  match v with
  | CInt z => negb (z =? n)
  | CBool b => negb ((if b then 1 else 0) =? n)
  | _ => true
  end.

(** [a == b] between two cell values, as a dictionary compares its keys:
    [True == 1] and [False == 0]; two objects outside the JSON scalars are
    taken to be equal when their types and their texts are. *)
Definition as_int (v : cell) : option Z :=
  match v with
  | CBool b => Some (if b then 1 else 0)
  | CInt z => Some z
  | _ => None
  end.

Definition cell_eqb (a b : cell) : bool :=
  match as_int a, as_int b with
  | Some x, Some y => x =? y
  | None, None =>
      match a, b with
      | CNone, CNone => true
      | CStr s, CStr t => String.eqb s t
      | CObj ta sa _, CObj tb sb _ => String.eqb ta tb && String.eqb sa sb
      | _, _ => false
      end
  | _, _ => false
  end.

(** ** Dictionaries with string keys, in insertion order *)

Section Dict.
Context {V : Type}.

Fixpoint dict_get (k : string) (d : list (string * V)) : option V :=
  match d with
  | [] => None
  | (k', v) :: r => if String.eqb k' k then Some v else dict_get k r
  end.

(** [d[k] = v]: an existing key keeps its place, a new one goes last. *)
Fixpoint dict_set (k : string) (v : V) (d : list (string * V))
  : list (string * V) :=
  match d with
  | [] => [(k, v)]
  | (k', v') :: r =>
      if String.eqb k' k then (k, v) :: r else (k', v') :: dict_set k v r
  end.

(** The dictionary without key [k]. *)
Definition dict_without (k : string) (d : list (string * V))
  : list (string * V) :=
  List.filter (fun kv => negb (String.eqb (fst kv) k)) d.

(** [dict(zip(keys, values))] *)
Definition dict_zip (keys : list string) (values : list V)
  : list (string * V) :=
  fold_left (fun d kv => dict_set (fst kv) (snd kv) d) (combine keys values) [].
End Dict.

(** One row of a result set. *)
Definition row := list (string * cell).

(** The dictionary built by [execute_query]. *)
Record QueryResult := mkQueryResult
  { columns : list string;
    data : list row;
    row_count : Z;
    affected_rows : Z }.

(** ** Nested values: what the service functions return and what is cached *)
#[local] Set Warnings "-register-all".
Inductive pyval :=
| PCell (c : cell)
| PList (l : list pyval)
| PDict (d : list (string * pyval)).

Definition PStr (s : string) : pyval := PCell (CStr s).
Definition PBool (b : bool) : pyval := PCell (CBool b).

Definition pv_truthy (v : pyval) : bool :=
  match v with
  | PCell c => truthy c
  | PList l => match l with [] => false | _ => true end
  | PDict d => match d with [] => false | _ => true end
  end.

Definition pv_of_row (r : row) : pyval :=
  PDict (map (fun kv => (fst kv, PCell (snd kv))) r).

Definition pv_of_result (r : QueryResult) : pyval :=
  PDict [("columns", PList (map PStr (columns r)));
         ("data", PList (map pv_of_row (data r)));
         ("row_count", PCell (CInt (row_count r)));
         ("affected_rows", PCell (CInt (affected_rows r)))].

(** ** json

    A JSON text is represented by the document it denotes; [json.loads] of
    the text [json.dumps] wrote yields that document again. *)
Inductive json :=
| JNull
| JBool (b : bool)
| JInt (z : Z)
| JStr (s : string)
| JArr (l : list json)
| JObj (d : list (string * json)).

(** [json.dumps(v, default=str)]: an object json does not know is replaced
    by [str(object)]. *)
Fixpoint to_json (v : pyval) : json :=
  match v with
  | PCell CNone => JNull
  | PCell (CBool b) => JBool b
  | PCell (CInt z) => JInt z
  | PCell (CStr s) => JStr s
  | PCell (CObj _ r _) => JStr r
  | PList l => JArr (map to_json l)
  | PDict d => JObj (map (fun kv => (fst kv, to_json (snd kv))) d)
  end.

Fixpoint of_json (j : json) : pyval :=
  match j with
  | JNull => PCell CNone
  | JBool b => PCell (CBool b)
  | JInt z => PCell (CInt z)
  | JStr s => PCell (CStr s)
  | JArr l => PList (map of_json l)
  | JObj d => PDict (map (fun kv => (fst kv, of_json (snd kv))) d)
  end.

(** What a value looks like after [json.loads(json.dumps(v, default=str))]. *)
Definition jsonify (v : pyval) : pyval := of_json (to_json v).

(** Values json represents as they are. *)
Fixpoint json_native (v : pyval) : bool :=
  match v with
  | PCell (CObj _ _ _) => false
  | PCell _ => true
  | PList l => forallb json_native l
  | PDict d => forallb (fun kv => json_native (snd kv)) d
  end.

(** A string value held by the cache store: a JSON text, or any other text. *)
Inductive wire :=
| WJson (j : json)
| WText (s : string).

Definition wire_truthy (w : wire) : bool :=
  match w with
  | WJson _ => true
  | WText s => negb (String.eqb s "")
  end.

Definition json_dumps (v : pyval) : wire := WJson (to_json v).

(** [json.loads]; [None] when it raises. *)
Definition json_loads (w : wire) : option pyval :=
  match w with
  | WJson j => Some (of_json j)
  | WText _ => None
  end.

End Py.

(* ===================================================================== *)
(** * The world the program runs in                                        *)
(* ===================================================================== *)

Module Runtime.
Import Py.

(** ** Exceptions *)
Inductive exn_kind :=
| ConnectionError | ValueError | KeyError | AttributeError | TypeError
| RecursionError
| DriverError      (* pyodbc.Error, psycopg2.Error *)
| RedisError.

Record exn := Exn { kind : exn_kind; message : string }.

(** [str(e)] *)
Definition exn_str (e : exn) : string := message e.

(** ** Drivers and their events *)

Definition handle := nat.

Inductive connect_request :=
| OdbcConnect (connection_string : string)           (* pyodbc.connect(s) *)
| PgConnect (params : list (string * string)).        (* psycopg2.connect, keyword arguments *)

(** What a cursor shows after [execute]: the column names of
    [cursor.description] ([None] when the statement has no result set), the
    rows [fetchall] would return, and [cursor.rowcount]. *)
Record cursor_result := mkCursor
  { description : option (list string);
    rows : list (list cell);
    rowcount : Z }.

Inductive event :=
| EvConnect (req : connect_request) (res : option handle)
| EvExecute (h : handle) (query : string) (ok : bool)
| EvClose (h : handle).

(** Everything outside the program: the database servers behind the two
    drivers, answering as a function of what has happened so far, and the
    library functions the model does not spell out. *)
Class Env := {
  (** [None]: the connection is established; [Some msg]: the driver raises. *)
  drv_connect : list event -> connect_request -> option string;
  (** [connection.cursor()], [cursor.execute(query)] and [cursor.fetchall()]
      on handle [h]: a driver error, or what the cursor shows. *)
  drv_execute : list event -> handle -> string -> string + cursor_result;
  (** [connection.close()]: [Some msg] when it raises. *)
  drv_close : list event -> handle -> option string;
  (** [re.match] with the URI pattern of [_parse_connection_string]: the
      groups user, password, host, port, dbname. *)
  re_match_uri : string ->
    option (option string * option string * option string * option string
            * option string);
  (** [hashlib.md5(s.encode()).hexdigest()] *)
  md5_hexdigest : string -> string;
  (** [str(args)] for the tuple of positional arguments. *)
  str_of_args : list string -> string;
  (** How many nested activations of [get_ddl] the interpreter allows before
      it raises [RecursionError]. *)
  recursion_limit : nat;
}.

(** The methods of a connector. *)
Inductive method := M_connect | M_disconnect | M_execute_query | M_get_ddl.

#[global] Instance method_eq_dec : EqDecision method.
Proof. solve_decision. Defined.

(** ** State *)

Record world := mkWorld
  { (** what the drivers have been asked, oldest first *)
    driver_log : list event;
    (** the connector methods invoked, oldest first *)
    calls : list method;
    (** the attribute [connection] of the connector object of the running
        call ([None] in Python) *)
    self_connection : option handle;
    (** the cache store: key to (expiry time, value) *)
    redis_data : gmap string (Z * wire);
    (** which of the coming store operations fail: [true] makes the next
        operation raise; an exhausted list means no more failures *)
    redis_faults : list bool;
    (** seconds *)
    clock : Z }.

Definition set_log (l : list event) (w : world) : world :=
  mkWorld l (calls w) (self_connection w) (redis_data w) (redis_faults w)
          (clock w).
Definition set_calls (c : list method) (w : world) : world :=
  mkWorld (driver_log w) c (self_connection w) (redis_data w) (redis_faults w)
          (clock w).
Definition set_connection (c : option handle) (w : world) : world :=
  mkWorld (driver_log w) (calls w) c (redis_data w) (redis_faults w) (clock w).
Definition set_redis (d : gmap string (Z * wire)) (f : list bool) (w : world)
  : world :=
  mkWorld (driver_log w) (calls w) (self_connection w) d f (clock w).
(** Time passing between two requests. *)
Definition tick (dt : Z) (w : world) : world :=
  mkWorld (driver_log w) (calls w) (self_connection w) (redis_data w)
          (redis_faults w) (clock w + dt).

(** ** The monad: state, and an exception or a value *)
Definition M (A : Type) : Type := world -> (exn + A) * world.

Definition ret {A} (a : A) : M A := fun w => (inr a, w).
Definition raise {A} (e : exn) : M A := fun w => (inl e, w).
Definition bind {A B} (m : M A) (k : A -> M B) : M B :=
  fun w => match m w with
           | (inr a, w') => k a w'
           | (inl e, w') => (inl e, w')
           end.
(** [try: m  except Exception as e: h e] *)
Definition try_except {A} (m : M A) (h : exn -> M A) : M A :=
  fun w => match m w with
           | (inr a, w') => (inr a, w')
           | (inl e, w') => h e w'
           end.
(** Running [m] and looking at how it ended. *)
Definition attempt {A} (m : M A) : M (exn + A) :=
  fun w => let (r, w') := m w in (inr r, w').
(** A step that cannot touch the state (dictionary and string operations). *)
Definition lift {A} (r : exn + A) : M A := fun w => (r, w).

Notation "x <- m ;; k" := (bind m (fun x => k))
  (at level 100, m at next level, right associativity).
Notation "m ;;; k" := (bind m (fun _ => k))
  (at level 100, right associativity).

(** Entering a connector method. *)
Definition called (m : method) : M unit :=
  fun w => (inr tt, set_calls (calls w ++ [m]) w).

(** [d[k]] *)
Definition getitem {V} (d : list (string * V)) (k : string) : exn + V :=
  match dict_get k d with
  | Some v => inr v
  | None => inl (Exn KeyError ("'" +:+ k +:+ "'"))
  end.

(** [v.lower()] *)
Definition cell_lower (v : cell) : exn + string :=
  match v with
  | CStr s => inr (lower s)
  | _ => inl (Exn AttributeError
                ("'" +:+ type_name_of v +:+ "' object has no attribute 'lower'"))
  end.

(** ['.' in v] *)
Definition cell_has_dot (v : cell) : exn + bool :=
  match v with
  | CStr s => inr (contains "." s)
  | _ => inl (Exn TypeError
                ("argument of type '" +:+ type_name_of v +:+ "' is not iterable"))
  end.

(** [for x in xs: acc = step acc x] *)
Fixpoint for_each {A B} (step : B -> A -> M B) (xs : list A) (acc : B) : M B :=
  match xs with
  | [] => ret acc
  | x :: r => acc' <- step acc x ;; for_each step r acc'
  end.

(** ** Reading the log *)

Definition fresh_handle (log : list event) : handle :=
  List.length (List.filter (fun ev => match ev with
                                      | EvConnect _ (Some _) => true
                                      | _ => false end) log).

Definition handle_eqb (a b : handle) : bool := Nat.eqb a b.

(** The handles opened and not closed since, oldest first. *)
Fixpoint open_handles (log : list event) (acc : list handle) : list handle :=
  match log with
  | [] => acc
  | EvConnect _ (Some h) :: r => open_handles r (acc ++ [h])
  | EvClose h :: r =>
      open_handles r (List.filter (fun x => negb (handle_eqb x h)) acc)
  | _ :: r => open_handles r acc
  end.

(** How often the driver was asked to connect, and to execute. *)
Definition connect_calls (log : list event) : nat :=
  List.length (List.filter (fun ev => match ev with
                                      | EvConnect _ _ => true
                                      | _ => false end) log).
Definition execute_calls (log : list event) : nat :=
  List.length (List.filter (fun ev => match ev with
                                      | EvExecute _ _ _ => true
                                      | _ => false end) log).

(** How often a connector method was invoked. *)
Definition method_calls (m : method) (cs : list method) : nat :=
  List.length (List.filter (fun x => bool_decide (x = m)) cs).

End Runtime.

(* ===================================================================== *)
(** * app/db: the connectors                                               *)
(* ===================================================================== *)

(** SQL texts are written on one line: the layout of the triple-quoted
    literals of the source is not reproduced, and the PL/pgSQL body of
    [pg_get_tabledef] is abbreviated.  The [print] calls of the source write
    to the console only and are left out. *)

Module Connectors.
Import Py Runtime.

Section WithEnv.
Context `{Env}.

(** ** Talking to a driver *)

(** [pyodbc.connect(...)] / [psycopg2.connect(...)] *)
Definition driver_connect (req : connect_request) : M handle := fun w =>
  match drv_connect (driver_log w) req with
  | Some msg =>
      (inl (Exn DriverError msg),
       set_log (driver_log w ++ [EvConnect req None]) w)
  | None =>
      let h := fresh_handle (driver_log w) in
      (inr h, set_log (driver_log w ++ [EvConnect req (Some h)]) w)
  end.

(** [cursor = connection.cursor(); cursor.execute(query)] and the fetch *)
Definition driver_execute (h : handle) (query : string) : M cursor_result :=
  fun w =>
    match drv_execute (driver_log w) h query with
    | inl msg =>
        (inl (Exn DriverError msg),
         set_log (driver_log w ++ [EvExecute h query false]) w)
    | inr c => (inr c, set_log (driver_log w ++ [EvExecute h query true]) w)
    end.

(** [connection.close()] *)
Definition driver_close (h : handle) : M unit := fun w =>
  match drv_close (driver_log w) h with
  | Some msg => (inl (Exn DriverError msg), w)
  | None => (inr tt, set_log (driver_log w ++ [EvClose h]) w)
  end.

Definition get_connection : M (option handle) :=
  fun w => (inr (self_connection w), w).
Definition assign_connection (c : option handle) : M unit :=
  fun w => (inr tt, set_connection c w).

(** [bool(cursor.description)]: [None] and the empty sequence are false. *)
Definition has_result_set (c : cursor_result) : bool :=
  match description c with
  | Some (_ :: _) => true
  | _ => false
  end.

Definition column_names (c : cursor_result) : list string :=
  match description c with Some d => d | None => [] end.

(** ** base_connector.py *)

Inductive connector_class := ODBCConnector | PostgresConnector.

(** [BaseConnector.__init__]: a new object, [self.connection = None]. *)
Definition BaseConnector_init : M unit := assign_connection None.

(** [BaseConnector.disconnect], inherited by both connectors. *)
Definition disconnect : M unit :=
  called M_disconnect ;;;
  c <- get_connection ;;
  match c with
  | Some h => driver_close h ;;; assign_connection None
  | None => ret tt
  end.

(** ** odbc_connector.py *)

Definition ODBC_connect (connection_string : string) : M bool :=
  called M_connect ;;;
  try_except
    (h <- driver_connect (OdbcConnect connection_string) ;;
     assign_connection (Some h) ;;;
     ret true)
    (fun e => raise (Exn ConnectionError
                       ("Failed to connect to ODBC database: " +:+ exn_str e))).

Definition ODBC_execute_query (connection_string query : string)
  : M QueryResult :=
  called M_execute_query ;;;
  c <- get_connection ;;
  (match c with
   | None => ODBC_connect connection_string ;;; ret tt
   | Some _ => ret tt
   end) ;;;
  c <- get_connection ;;
  match c with
  | None => raise (Exn AttributeError
                     "'NoneType' object has no attribute 'cursor'")
  | Some h =>
      cursor <- driver_execute h query ;;
      let columns :=
        if has_result_set cursor then column_names cursor else [] in
      let results :=
        if has_result_set cursor
        then map (fun row => dict_zip columns row) (rows cursor) else [] in
      ret {| columns := columns;
             data := results;
             row_count := if has_result_set cursor
                          then Z.of_nat (List.length results)
                          else rowcount cursor;
             affected_rows := if negb (has_result_set cursor)
                              then rowcount cursor else 0 |}
  end.

Definition odbc_tables_query : string :=
  "SELECT name FROM sys.tables ORDER BY name".
Definition odbc_columns_query (object_name : string) : string :=
  "SELECT c.name AS column_name, t.name AS data_type, c.max_length, c.precision, c.scale, c.is_nullable, c.is_identity, c.column_id FROM sys.columns c JOIN sys.types t ON c.user_type_id = t.user_type_id JOIN sys.tables tbl ON c.object_id = tbl.object_id WHERE tbl.name = '"
  +:+ object_name +:+ "' ORDER BY c.column_id".
Definition odbc_pk_query (object_name : string) : string :=
  "SELECT i.name AS index_name, c.name AS column_name FROM sys.indexes i JOIN sys.index_columns ic ON i.object_id = ic.object_id AND i.index_id = ic.index_id JOIN sys.columns c ON ic.object_id = c.object_id AND ic.column_id = c.column_id JOIN sys.tables t ON i.object_id = t.object_id WHERE i.is_primary_key = 1 AND t.name = '"
  +:+ object_name +:+ "' ORDER BY ic.key_ordinal".
Definition odbc_fk_query (object_name : string) : string :=
  "SELECT fk.name AS fk_name, OBJECT_NAME(fk.parent_object_id) AS parent_table, COL_NAME(fkc.parent_object_id, fkc.parent_column_id) AS parent_column, OBJECT_NAME(fk.referenced_object_id) AS referenced_table, COL_NAME(fkc.referenced_object_id, fkc.referenced_column_id) AS referenced_column FROM sys.foreign_keys fk JOIN sys.foreign_key_columns fkc ON fk.object_id = fkc.constraint_object_id WHERE OBJECT_NAME(fk.parent_object_id) = '"
  +:+ object_name +:+ "' ORDER BY fk.name, fkc.constraint_column_id".
Definition odbc_view_query (object_name : string) : string :=
  "SELECT definition FROM sys.sql_modules m JOIN sys.views v ON m.object_id = v.object_id WHERE v.name = '"
  +:+ object_name +:+ "'".
Definition odbc_procedure_query (object_name : string) : string :=
  "SELECT definition FROM sys.sql_modules m JOIN sys.procedures p ON m.object_id = p.object_id WHERE p.name = '"
  +:+ object_name +:+ "'".
Definition odbc_function_query (object_name : string) : string :=
  "SELECT definition FROM sys.sql_modules m JOIN sys.objects o ON m.object_id = o.object_id WHERE o.type_desc LIKE '%FUNCTION%' AND o.name = '"
  +:+ object_name +:+ "'".

(** The text one column contributes to the CREATE TABLE statement; [last]
    says whether it is the last row ([i < len(data) - 1] fails). *)
Definition odbc_column_line (col : row) (last : bool) : exn + string :=
  match getitem col "column_name" with inl e => inl e | inr column_name =>
  match getitem col "data_type" with inl e => inl e | inr data_type =>
  let ddl := "    " +:+ py_str column_name +:+ " " +:+ py_str data_type in
  match
    (if existsb (eq_str data_type) ["varchar"; "nvarchar"; "char"; "nchar"] then
       match getitem col "max_length" with inl e => inl e | inr max_length =>
         inr (ddl +:+ "("
              +:+ (if ne_int max_length (-1) then py_str max_length else "MAX")
              +:+ ")")
       end
     else if existsb (eq_str data_type) ["decimal"; "numeric"] then
       match getitem col "precision" with inl e => inl e | inr precision =>
       match getitem col "scale" with inl e => inl e | inr scale =>
         inr (ddl +:+ "(" +:+ py_str precision +:+ ", " +:+ py_str scale +:+ ")")
       end end
     else inr ddl)
  with inl e => inl e | inr ddl =>
  match getitem col "is_nullable" with inl e => inl e | inr is_nullable =>
  let ddl := ddl +:+ (if negb (truthy is_nullable) then " NOT NULL" else " NULL") in
  match getitem col "is_identity" with inl e => inl e | inr is_identity =>
  let ddl := if truthy is_identity then ddl +:+ " IDENTITY(1,1)" else ddl in
  inr (if last then ddl else ddl +:+ "," +:+ nl)
  end end end end end.

(** The loop over [enumerate(columns_info["data"])]. *)
Fixpoint odbc_column_lines (cols : list row) (ddl : string) : exn + string :=
  match cols with
  | [] => inr ddl
  | col :: r =>
      match odbc_column_line col (match r with [] => true | _ => false end) with
      | inl e => inl e
      | inr line => odbc_column_lines r (ddl +:+ line)
      end
  end.

(** [sep.join(items)]: every item has to be a [str]. *)
Fixpoint join_cells_aux (i : nat) (items : list cell) : exn + list string :=
  match items with
  | [] => inr []
  | CStr s :: r =>
      match join_cells_aux (S i) r with
      | inl e => inl e
      | inr ss => inr (s :: ss)
      end
  | c :: _ =>
      inl (Exn TypeError
             ("sequence item " +:+ str_of_int (Z.of_nat i)
              +:+ ": expected str instance, " +:+ type_name_of c +:+ " found"))
  end.
Definition join_cells (sep : string) (items : list cell) : exn + string :=
  match join_cells_aux 0 items with
  | inl e => inl e
  | inr ss => inr (join sep ss)
  end.

(** [[row[k] for row in rows]] *)
Fixpoint column_of (k : string) (rs : list row) : exn + list cell :=
  match rs with
  | [] => inr []
  | r :: rest =>
      match getitem r k with
      | inl e => inl e
      | inr c => match column_of k rest with
                 | inl e => inl e
                 | inr cs => inr (c :: cs)
                 end
      end
  end.

(** [fk_dict]: constraint name to (parent_table, referenced_table,
    parent_columns, referenced_columns), in order of first appearance. *)
Definition fk_entry : Type := cell * cell * list cell * list cell.

Fixpoint fk_lookup (k : cell) (d : list (cell * fk_entry)) : option fk_entry :=
  match d with
  | [] => None
  | (k', v) :: r => if cell_eqb k' k then Some v else fk_lookup k r
  end.

Fixpoint fk_store (k : cell) (v : fk_entry) (d : list (cell * fk_entry))
  : list (cell * fk_entry) :=
  match d with
  | [] => [(k, v)]
  | (k', v') :: r =>
      if cell_eqb k' k then (k', v) :: r else (k', v') :: fk_store k v r
  end.

Definition odbc_fk_group (fk_dict : list (cell * fk_entry)) (r : row)
  : exn + list (cell * fk_entry) :=
  match getitem r "fk_name" with inl e => inl e | inr fk_name =>
  match
    (match fk_lookup fk_name fk_dict with
     | Some _ => inr fk_dict
     | None =>
         match getitem r "parent_table" with inl e => inl e | inr parent_table =>
         match getitem r "referenced_table" with inl e => inl e | inr referenced_table =>
           inr (fk_store fk_name (parent_table, referenced_table, [], []) fk_dict)
         end end
     end)
  with inl e => inl e | inr fk_dict =>
  match getitem r "parent_column" with inl e => inl e | inr parent_column =>
  match getitem r "referenced_column" with inl e => inl e | inr referenced_column =>
  match fk_lookup fk_name fk_dict with
  | Some (pt, rt, pcs, rcs) =>
      inr (fk_store fk_name
             (pt, rt, pcs ++ [parent_column], rcs ++ [referenced_column]) fk_dict)
  | None => inr fk_dict
  end end end end end.

Fixpoint odbc_fk_groups (rs : list row) (fk_dict : list (cell * fk_entry))
  : exn + list (cell * fk_entry) :=
  match rs with
  | [] => inr fk_dict
  | r :: rest =>
      match odbc_fk_group fk_dict r with
      | inl e => inl e
      | inr d => odbc_fk_groups rest d
      end
  end.

(** One ALTER TABLE ... FOREIGN KEY statement appended to [ddl]. *)
Definition odbc_fk_statement (ddl : string) (kv : cell * fk_entry)
  : exn + string :=
  let '(fk_name, (parent_table, referenced_table, pcs, rcs)) := kv in
  match join_cells ", " pcs with inl e => inl e | inr parent_cols =>
  match join_cells ", " rcs with inl e => inl e | inr ref_cols =>
    inr (ddl +:+ nl +:+ nl +:+ "ALTER TABLE " +:+ py_str parent_table
             +:+ " ADD CONSTRAINT " +:+ py_str fk_name +:+ " "
             +:+ "FOREIGN KEY (" +:+ parent_cols +:+ ") REFERENCES "
             +:+ py_str referenced_table +:+ " (" +:+ ref_cols +:+ ");")
  end end.

Fixpoint odbc_fk_statements (fk_dict : list (cell * fk_entry)) (ddl : string)
  : exn + string :=
  match fk_dict with
  | [] => inr ddl
  | kv :: r =>
      match odbc_fk_statement ddl kv with
      | inl e => inl e
      | inr ddl' => odbc_fk_statements r ddl'
      end
  end.

(** The primary-key statement appended to [ddl], if there is a key. *)
Definition odbc_pk_statement (name : string) (pk_rows : list row) (ddl : string)
  : exn + string :=
  match pk_rows with
  | [] => inr ddl
  | first :: _ =>
      match column_of "column_name" pk_rows with inl e => inl e | inr cs =>
      match join_cells ", " cs with inl e => inl e | inr pk_columns =>
      match getitem first "index_name" with inl e => inl e | inr pk_name =>
        inr (ddl +:+ nl +:+ nl +:+ "ALTER TABLE " +:+ name
                 +:+ " ADD CONSTRAINT " +:+ py_str pk_name
                 +:+ " PRIMARY KEY (" +:+ pk_columns +:+ ");")
      end end end
  end.

(** The foreign-key statements appended to [ddl]. *)
Definition odbc_fk_part (fk_rows : list row) (ddl : string) : exn + string :=
  match fk_rows with
  | [] => inr ddl
  | _ =>
      match odbc_fk_groups fk_rows [] with
      | inl e => inl e
      | inr fk_dict => odbc_fk_statements fk_dict ddl
      end
  end.

(** [get_ddl] for one table: the [else] branch under [object_type == "table"]. *)
Definition ODBC_table_ddl (connection_string : string) (object_name : cell)
  : M cell :=
  let name := py_str object_name in
  columns_info <- ODBC_execute_query connection_string (odbc_columns_query name) ;;
  ddl <- lift (odbc_column_lines (data columns_info)
                 ("CREATE TABLE " +:+ name +:+ " (" +:+ nl)) ;;
  let ddl := ddl +:+ nl +:+ ");" in
  pk_info <- ODBC_execute_query connection_string (odbc_pk_query name) ;;
  ddl <- lift (odbc_pk_statement name (data pk_info) ddl) ;;
  fk_info <- ODBC_execute_query connection_string (odbc_fk_query name) ;;
  ddl <- lift (odbc_fk_part (data fk_info) ddl) ;;
  ret (CStr ddl).

(** A stored definition: the first row's [definition], or a placeholder. *)
Definition ODBC_definition (connection_string query : string)
           (wrap : cell -> cell) (not_found : string) : M cell :=
  info <- ODBC_execute_query connection_string query ;;
  match data info with
  | first :: _ => d <- lift (getitem first "definition") ;; ret (wrap d)
  | [] => ret (CStr not_found)
  end.

(** [ODBCConnector.get_ddl].  [depth] is the number of nested activations of
    [get_ddl] the interpreter still allows; exhausting it is Python's
    [RecursionError]. *)
Fixpoint ODBC_get_ddl (depth : nat) (connection_string : string)
         (object_name : cell) (object_type : string) : M cell :=
  match depth with
  | O => raise (Exn RecursionError "maximum recursion depth exceeded")
  | S depth' =>
      called M_get_ddl ;;;
      let object_type := lower object_type in
      if String.eqb object_type "table" then
        if eq_str object_name "*" then
          tables_result <- ODBC_execute_query connection_string odbc_tables_query ;;
          match data tables_result with
          | [] => ret (CStr "-- No tables found in database")
          | _ =>
              all_ddl <-
                for_each
                  (fun all_ddl table =>
                     table_name <- lift (getitem table "name") ;;
                     table_ddl <- ODBC_get_ddl depth' connection_string
                                    table_name "table" ;;
                     ret (all_ddl +:+ nl +:+ nl +:+ py_str table_ddl))
                  (data tables_result) "" ;;
              ret (CStr (strip all_ddl))
          end
        else ODBC_table_ddl connection_string object_name
      else if String.eqb object_type "view" then
        ODBC_definition connection_string (odbc_view_query (py_str object_name))
          (fun d => CStr ("CREATE VIEW " +:+ py_str object_name +:+ " AS" +:+ nl
                          +:+ py_str d))
          ("-- View " +:+ py_str object_name +:+ " definition not found")
      else if str_in object_type ["procedure"; "stored_procedure"] then
        ODBC_definition connection_string
          (odbc_procedure_query (py_str object_name)) (fun d => d)
          ("-- Stored procedure " +:+ py_str object_name +:+ " definition not found")
      else if String.eqb object_type "function" then
        ODBC_definition connection_string
          (odbc_function_query (py_str object_name)) (fun d => d)
          ("-- Function " +:+ py_str object_name +:+ " definition not found")
      else ret (CStr ("-- DDL generation for " +:+ object_type
                      +:+ " is not supported yet"))
  end.

(** ** postgres_connector.py *)

(** The loop over [connection_string.split()]. *)
Fixpoint pg_keyword_params (parts : list string)
         (params : list (string * string)) : list (string * string) :=
  match parts with
  | [] => params
  | part :: r =>
      match split_once "=" part with
      | (key, Some value) => pg_keyword_params r (dict_set key value params)
      | (_, None) => pg_keyword_params r params
      end
  end.

Definition set_if_present (k : string) (v : option string)
           (params : list (string * string)) : list (string * string) :=
  match v with
  | Some x => if String.eqb x "" then params else dict_set k x params
  | None => params
  end.

Definition _parse_connection_string (connection_string : string)
  : exn + list (string * string) :=
  if contains "=" connection_string then
    inr (pg_keyword_params (split_ws connection_string) [])
  else if contains "://" connection_string then
    match re_match_uri connection_string with
    | Some (user, password, host, port, dbname) =>
        inr (set_if_present "dbname" dbname
            (set_if_present "port" port
            (set_if_present "host" host
            (set_if_present "password" password
            (set_if_present "user" user [])))))
    | None =>
        inl (Exn ValueError ("Invalid PostgreSQL connection string format: "
                             +:+ connection_string))
    end
  else
    inl (Exn ValueError ("Unsupported PostgreSQL connection string format: "
                         +:+ connection_string)).

Definition Postgres_connect (connection_string : string) : M bool :=
  called M_connect ;;;
  try_except
    (params <- lift (_parse_connection_string connection_string) ;;
     h <- driver_connect (PgConnect params) ;;
     assign_connection (Some h) ;;;
     ret true)
    (fun e => raise (Exn ConnectionError
                       ("Failed to connect to PostgreSQL database: "
                        +:+ exn_str e))).

Definition Postgres_execute_query (connection_string query : string)
  : M QueryResult :=
  called M_execute_query ;;;
  c <- get_connection ;;
  (match c with
   | None => Postgres_connect connection_string ;;; ret tt
   | Some _ => ret tt
   end) ;;;
  c <- get_connection ;;
  match c with
  | None => raise (Exn AttributeError
                     "'NoneType' object has no attribute 'cursor'")
  | Some h =>
      cursor <- driver_execute h query ;;
      if has_result_set cursor then
        let columns := column_names cursor in
        let results := map (fun row => dict_zip columns row) (rows cursor) in
        ret {| columns := columns;
               data := results;
               row_count := Z.of_nat (List.length results);
               affected_rows := 0 |}
      else
        ret {| columns := [];
               data := [];
               row_count := 0;
               affected_rows := rowcount cursor |}
  end.

Definition pg_create_function_query : string :=
  "CREATE OR REPLACE FUNCTION pg_get_tabledef(p_table_oid oid) RETURNS text AS $BODY$ ... $BODY$ LANGUAGE plpgsql;".

Definition _create_tabledef_function (connection_string : string) : M unit :=
  try_except
    (Postgres_execute_query connection_string pg_create_function_query ;;; ret tt)
    (fun _ => ret tt).

Definition pg_tables_query : string :=
  "SELECT tablename AS table_name FROM pg_tables WHERE schemaname = 'public' ORDER BY tablename".
Definition pg_exists_query (name : string) : string :=
  "SELECT to_regclass('" +:+ name +:+ "') IS NOT NULL as exists;".
Definition pg_tabledef_query (name : string) : string :=
  "SELECT pg_get_tabledef('" +:+ name +:+ "'::regclass::oid) as ddl;".
Definition pg_case_query_qualified (schema name : string) : string :=
  "SELECT schemaname || '.' || tablename AS full_name FROM pg_tables WHERE LOWER(schemaname) = '"
  +:+ schema +:+ "' AND LOWER(tablename) = '" +:+ name +:+ "'".
Definition pg_case_query (search_name : string) : string :=
  "SELECT schemaname || '.' || tablename AS full_name FROM pg_tables WHERE LOWER(tablename) = '"
  +:+ search_name +:+ "'".
Definition pg_view_query (name : string) : string :=
  "SELECT 'CREATE OR REPLACE VIEW ' || schemaname || '.' || viewname || ' AS"
  +:+ nl +:+ "' || definition as ddl FROM pg_views WHERE viewname = '"
  +:+ name +:+ "'".
Definition pg_view_query_qualified (schema name : string) : string :=
  "SELECT 'CREATE OR REPLACE VIEW ' || schemaname || '.' || viewname || ' AS"
  +:+ nl +:+ "' || definition as ddl FROM pg_views WHERE viewname = '"
  +:+ name +:+ "' AND schemaname = '" +:+ schema +:+ "'".
Definition pg_function_query (name : string) : string :=
  "SELECT pg_get_functiondef(oid) as ddl FROM pg_proc WHERE proname = '"
  +:+ name +:+ "'".
Definition pg_function_query_qualified (schema name : string) : string :=
  "SELECT pg_get_functiondef(p.oid) as ddl FROM pg_proc p JOIN pg_namespace n ON p.pronamespace = n.oid WHERE p.proname = '"
  +:+ name +:+ "' AND n.nspname = '" +:+ schema +:+ "'".
Definition pg_trigger_query (name : string) : string :=
  "SELECT pg_get_triggerdef(t.oid) as ddl FROM pg_trigger t JOIN pg_class c ON t.tgrelid = c.oid WHERE t.tgname = '"
  +:+ name +:+ "'".
Definition pg_sequence_query (name : string) : string :=
  "SELECT 'CREATE SEQUENCE ' || sequence_schema || '.' || sequence_name || ' INCREMENT BY ' || increment || ' MINVALUE ' || minimum_value || ' MAXVALUE ' || maximum_value || ' START WITH ' || start_value || CASE WHEN cycle_option = 'YES' THEN ' CYCLE' ELSE ' NO CYCLE' END || ';' as ddl FROM information_schema.sequences WHERE sequence_name = '"
  +:+ name +:+ "'".

(** [exists_result["data"] and exists_result["data"][0].get("exists", False)] *)
Definition pg_exists (r : QueryResult) : bool :=
  match data r with
  | [] => false
  | first :: _ =>
      match dict_get "exists" first with
      | Some v => truthy v
      | None => false
      end
  end.

(** The four [to_regclass] probes of the [try] block.  The result is the
    value [object_name] holds when the probes are over. *)
Definition pg_resolve (connection_string : string) (object_name : cell)
  : M cell :=
  exists_result <- Postgres_execute_query connection_string
                     (pg_exists_query (py_str object_name)) ;;
  if negb (pg_exists exists_result) then
    lowercase_name <- lift (cell_lower object_name) ;;
    exists_result <- Postgres_execute_query connection_string
                       (pg_exists_query lowercase_name) ;;
    if pg_exists exists_result then ret (CStr lowercase_name)
    else
      exists_result <- Postgres_execute_query connection_string
                         (pg_exists_query ("public." +:+ py_str object_name)) ;;
      if pg_exists exists_result then ret (CStr ("public." +:+ py_str object_name))
      else
        exists_result <- Postgres_execute_query connection_string
                           (pg_exists_query ("public." +:+ lowercase_name)) ;;
        if pg_exists exists_result then ret (CStr ("public." +:+ lowercase_name))
        else ret object_name
  else ret object_name.

(** The rest of the [try] block: the DDL query on the resolved name. *)
Definition pg_fetch_tabledef (connection_string : string) (object_name : cell)
  : M cell :=
  table_ddl <- Postgres_execute_query connection_string
                 (pg_tabledef_query (py_str object_name)) ;;
  match data table_ddl with
  | first :: _ => lift (getitem first "ddl")
  | [] => ret (CStr ("-- Table " +:+ py_str object_name
                     +:+ " definition not found"))
  end.

(** The handler [except Exception as e], with its own [try]. *)
Definition pg_table_fallback (connection_string : string) (object_name : cell)
           (e : exn) : M cell :=
  try_except
    (search_name <- lift (cell_lower object_name) ;;
     let case_query :=
       if contains "." search_name then
         match split_once "." search_name with
         | (schema, Some name) =>
             pg_case_query_qualified (lower schema) (lower name)
         | (schema, None) => pg_case_query search_name
         end
       else pg_case_query search_name in
     case_result <- Postgres_execute_query connection_string case_query ;;
     let not_found :=
       CStr ("-- Table '" +:+ py_str object_name +:+ "' not found. Error: "
             +:+ exn_str e) in
     match data case_result with
     | first :: _ =>
         actual_table_name <- lift (getitem first "full_name") ;;
         table_ddl <- Postgres_execute_query connection_string
                        (pg_tabledef_query (py_str actual_table_name)) ;;
         match data table_ddl with
         | row0 :: _ => lift (getitem row0 "ddl")
         | [] => ret not_found
         end
     | [] => ret not_found
     end)
    (fun e2 => ret (CStr ("-- Error getting table definition: " +:+ exn_str e2))).

(** [get_ddl] for one table.  [object_name] is rebound only after the last
    probe of the chain: an exception raised by a probe reaches the handler
    with the name as passed in, one raised later with the resolved name. *)
Definition Postgres_table_ddl (connection_string : string) (object_name : cell)
  : M cell :=
  resolved <- attempt (pg_resolve connection_string object_name) ;;
  match resolved with
  | inl e => pg_table_fallback connection_string object_name e
  | inr name =>
      try_except (pg_fetch_tabledef connection_string name)
                 (pg_table_fallback connection_string name)
  end.

(** A lookup by name, then by schema and name when the name has a dot. *)
Definition pg_lookup (connection_string : string) (object_name : cell)
           (plain : string -> string) (qualified : string -> string -> string)
           (not_found : string) : M cell :=
  info <- Postgres_execute_query connection_string (plain (py_str object_name)) ;;
  match data info with
  | first :: _ => lift (getitem first "ddl")
  | [] =>
      dotted <- lift (cell_has_dot object_name) ;;
      if dotted then
        match split_once "." (py_str object_name) with
        | (schema, Some name) =>
            info <- Postgres_execute_query connection_string
                      (qualified schema name) ;;
            match data info with
            | first :: _ => lift (getitem first "ddl")
            | [] => ret (CStr not_found)
            end
        | (_, None) => ret (CStr not_found)
        end
      else ret (CStr not_found)
  end.

(** [ddl += trigger["ddl"] + ";\n\n"] *)
Fixpoint pg_trigger_lines (rs : list row) (ddl : string) : exn + string :=
  match rs with
  | [] => inr ddl
  | trigger :: rest =>
      match getitem trigger "ddl" with
      | inl e => inl e
      | inr (CStr t) => pg_trigger_lines rest (ddl +:+ t +:+ ";" +:+ nl +:+ nl)
      | inr v =>
          inl (Exn TypeError ("unsupported operand type(s) for +: '"
                              +:+ type_name_of v +:+ "' and 'str'"))
      end
  end.

(** [PostgresConnector.get_ddl]; [depth] as for the ODBC connector. *)
Fixpoint Postgres_get_ddl (depth : nat) (connection_string : string)
         (object_name : cell) (object_type : string) : M cell :=
  match depth with
  | O => raise (Exn RecursionError "maximum recursion depth exceeded")
  | S depth' =>
      called M_get_ddl ;;;
      let object_type := lower object_type in
      if String.eqb object_type "table" then
        _create_tabledef_function connection_string ;;;
        if eq_str object_name "*" then
          tables_result <- Postgres_execute_query connection_string
                             pg_tables_query ;;
          match data tables_result with
          | [] => ret (CStr "-- No tables found in the public schema")
          | _ =>
              all_ddl <-
                for_each
                  (fun all_ddl table =>
                     table_name <- lift (getitem table "table_name") ;;
                     table_ddl <- Postgres_get_ddl depth' connection_string
                                    table_name "table" ;;
                     ret (all_ddl +:+ nl +:+ nl +:+ py_str table_ddl))
                  (data tables_result) "" ;;
              ret (CStr (strip all_ddl))
          end
        else Postgres_table_ddl connection_string object_name
      else if String.eqb object_type "view" then
        pg_lookup connection_string object_name pg_view_query
          pg_view_query_qualified
          ("-- View " +:+ py_str object_name +:+ " definition not found")
      else if str_in object_type ["function"; "procedure"] then
        pg_lookup connection_string object_name pg_function_query
          pg_function_query_qualified
          ("-- Function/Procedure " +:+ py_str object_name
           +:+ " definition not found")
      else if String.eqb object_type "trigger" then
        trigger_info <- Postgres_execute_query connection_string
                          (pg_trigger_query (py_str object_name)) ;;
        match data trigger_info with
        | [] => ret (CStr ("-- Trigger " +:+ py_str object_name
                           +:+ " definition not found"))
        | _ => ddl <- lift (pg_trigger_lines (data trigger_info) "") ;;
               ret (CStr ddl)
        end
      else if String.eqb object_type "sequence" then
        seq_info <- Postgres_execute_query connection_string
                      (pg_sequence_query (py_str object_name)) ;;
        match data seq_info with
        | first :: _ => lift (getitem first "ddl")
        | [] => ret (CStr ("-- Sequence " +:+ py_str object_name
                           +:+ " definition not found"))
        end
      else ret (CStr ("-- DDL generation for " +:+ object_type
                      +:+ " is not supported yet"))
  end.

(** ** connector.py and method dispatch *)

(** [get_db_connector]: the class chosen; creating the object runs
    [BaseConnector.__init__]. *)
Definition get_db_connector (connection_string db_type : string)
  : M connector_class :=
  if str_in (lower db_type) ["fabric"; "odbc"; "microsoft_fabric"] then
    BaseConnector_init ;;; ret ODBCConnector
  else if str_in (lower db_type) ["postgres"; "postgresql"] then
    BaseConnector_init ;;; ret PostgresConnector
  else raise (Exn ValueError ("Unsupported database type: " +:+ db_type)).

Definition connect (c : connector_class) (connection_string : string) : M bool :=
  match c with
  | ODBCConnector => ODBC_connect connection_string
  | PostgresConnector => Postgres_connect connection_string
  end.

Definition execute_query (c : connector_class) (connection_string query : string)
  : M QueryResult :=
  match c with
  | ODBCConnector => ODBC_execute_query connection_string query
  | PostgresConnector => Postgres_execute_query connection_string query
  end.

Definition get_ddl (c : connector_class) (depth : nat)
           (connection_string : string) (object_name : cell)
           (object_type : string) : M cell :=
  match c with
  | ODBCConnector => ODBC_get_ddl depth connection_string object_name object_type
  | PostgresConnector =>
      Postgres_get_ddl depth connection_string object_name object_type
  end.

End WithEnv.
End Connectors.

(* ===================================================================== *)
(** * app/cache/redis_cache.py                                             *)
(* ===================================================================== *)

Module Cache.
Import Py Runtime.

Section WithEnv.
Context `{Env}.

(** ** The store: [GET] and [SETEX] of the redis client *)

Definition next_fault (w : world) : bool * list bool :=
  match redis_faults w with
  | [] => (false, [])
  | b :: r => (b, r)
  end.

Definition redis_get (key : string) : M (option wire) := fun w =>
  let (fault, rest) := next_fault w in
  let w' := set_redis (redis_data w) rest w in
  if fault then (inl (Exn RedisError "Error connecting to redis"), w')
  else
    (inr match redis_data w !! key with
         | Some (expiry, value) => if clock w <? expiry then Some value else None
         | None => None
         end, w').

Definition redis_setex (key : string) (ttl : Z) (value : wire) : M unit :=
  fun w =>
    let (fault, rest) := next_fault w in
    if fault then
      (inl (Exn RedisError "Error connecting to redis"),
       set_redis (redis_data w) rest w)
    else if ttl <=? 0 then
      (inl (Exn RedisError "invalid expire time in 'setex' command"),
       set_redis (redis_data w) rest w)
    else
      (inr tt, set_redis (<[key := (clock w + ttl, value)]> (redis_data w)) rest w).

(** ** The decorator *)

Definition cache_key (func_name : string) (args : list string) : string :=
  let args_str := str_of_args args in
  let kwargs_str := "[]" in
  let key_data := func_name +:+ ":" +:+ args_str +:+ ":" +:+ kwargs_str in
  "db_api:" +:+ func_name +:+ ":" +:+ md5_hexdigest key_data.

(** The first [try] block: [Some result] stands for [return result], [None]
    for falling through to the call of [func]. *)
Definition cache_lookup (key : string) : M (option pyval) :=
  try_except
    (cached_result <- redis_get key ;;
     match cached_result with
     | Some text =>
         if wire_truthy text then
           match json_loads text with
           | Some (PDict d) => ret (Some (PDict (dict_set "cached" (PBool true) d)))
           | _ => ret None
           end
         else ret None
     | None => ret None
     end)
    (fun _ => ret None).

(** The second [try] block.  [cache_enabled] is true where it is reached.  A
    result that is not a dictionary makes [copy] or the item assignment
    raise, which the [except] swallows like every other error. *)
Definition cache_store (key : string) (cache_ttl : Z) (result : pyval) : M unit :=
  try_except
    (if pv_truthy result then
       match result with
       | PDict d =>
           let cache_result := PDict (dict_set "cached" (PBool false) d) in
           redis_setex key cache_ttl (json_dumps cache_result)
       | _ => raise (Exn TypeError "object does not support item assignment")
       end
     else ret tt)
    (fun _ => ret tt).

(** [redis_cache(func)] called with positional [args] and the keyword
    arguments [cache_enabled] and [cache_ttl]. *)
Definition redis_cache (func_name : string) (func : list string -> M pyval)
           (args : list string) (cache_enabled : bool) (cache_ttl : Z)
  : M pyval :=
  if negb cache_enabled then func args
  else
    let key := cache_key func_name args in
    hit <- cache_lookup key ;;
    match hit with
    | Some result => ret result
    | None =>
        result <- func args ;;
        cache_store key cache_ttl result ;;;
        ret result
    end.

End WithEnv.
End Cache.

(* ===================================================================== *)
(** * app/services/db_service.py                                           *)
(* ===================================================================== *)

Module Service.
Import Py Runtime Connectors Cache.

Section WithEnv.
Context `{Env}.

Definition arity_error {A} : M A :=
  raise (Exn TypeError "wrong number of positional arguments").

(** The function under the decorator. *)
Definition execute_query_body (args : list string) : M pyval :=
  match args with
  | [connection_string; db_type; query] =>
      try_except
        (connector <- get_db_connector connection_string db_type ;;
         connect connector connection_string ;;;
         result <- execute_query connector connection_string query ;;
         disconnect ;;;
         ret (PDict [("status", PStr "success");
                     ("result", pv_of_result result);
                     ("query", PStr query);
                     ("db_type", PStr db_type);
                     ("cached", PBool false)]))
        (fun e =>
           ret (PDict [("status", PStr "error");
                       ("error", PStr (exn_str e));
                       ("query", PStr query);
                       ("db_type", PStr db_type);
                       ("cached", PBool false)]))
  | _ => arity_error
  end.

Definition get_ddl_body (args : list string) : M pyval :=
  match args with
  | [connection_string; db_type; object_name; object_type] =>
      try_except
        (connector <- get_db_connector connection_string db_type ;;
         connect connector connection_string ;;;
         ddl <- get_ddl connector recursion_limit connection_string
                  (CStr object_name) object_type ;;
         disconnect ;;;
         ret (PDict [("status", PStr "success");
                     ("ddl", PCell ddl);
                     ("object_name", PStr object_name);
                     ("object_type", PStr object_type);
                     ("db_type", PStr db_type);
                     ("cached", PBool false)]))
        (fun e =>
           ret (PDict [("status", PStr "error");
                       ("error", PStr (exn_str e));
                       ("object_name", PStr object_name);
                       ("object_type", PStr object_type);
                       ("db_type", PStr db_type);
                       ("cached", PBool false)]))
  | _ => arity_error
  end.

(** [@redis_cache def execute_query_with_cache(...)] *)
Definition execute_query_with_cache (connection_string db_type query : string)
           (cache_enabled : bool) (cache_ttl : Z) : M pyval :=
  redis_cache "execute_query_with_cache" execute_query_body
    [connection_string; db_type; query] cache_enabled cache_ttl.

(** [@redis_cache def get_ddl_with_cache(...)] *)
Definition get_ddl_with_cache
           (connection_string db_type object_name object_type : string)
           (cache_enabled : bool) (cache_ttl : Z) : M pyval :=
  redis_cache "get_ddl_with_cache" get_ddl_body
    [connection_string; db_type; object_name; object_type]
    cache_enabled cache_ttl.

End WithEnv.
End Service.

(* ===================================================================== *)
(** * app/routes/hash_api.py                                              *)
(* ===================================================================== *)

(** The three views of the blueprint [hash_api].  A view is a function of
    what [request.get_json()] does, and returns the Python object handed to
    [jsonify] with the status code.  The functions [encrypt_connection_string]
    and [verify_hash] are the ones of app/utils/hash_verifier.py: the import of
    [hash_verifier_simple], a module the package does not have, fails. *)
Module HashApi.
Import Codec.
#[local] Set Warnings "-register-all".

(** ** Values of a request or response body *)

(** A float is kept by its truth value alone: the views only test it. *)
Inductive value :=
| VNone
| VBool (b : bool)
| VInt (z : Z)
| VFloat (truth : bool)
| VStr (s : text)
| VList (l : list value)
| VDict (d : list (text * value)).

(** [bool(v)] *)
Definition value_truthy (v : value) : bool :=
  match v with
  | VNone => false
  | VBool b => b
  | VInt z => negb (z =? 0)
  | VFloat t => t
  | VStr s => match s with [] => false | _ => true end
  | VList l => match l with [] => false | _ => true end
  | VDict d => match d with [] => false | _ => true end
  end.

(** [type(v).__name__] *)
Definition type_name (v : value) : string :=
  match v with
  | VNone => "NoneType"
  | VBool _ => "bool"
  | VInt _ => "int"
  | VFloat _ => "float"
  | VStr _ => "str"
  | VList _ => "list"
  | VDict _ => "dict"
  end.

Definition text_eqb (a b : text) : bool := bool_decide (a = b).

(** A dictionary is given by its items; a key occurs once. *)
Fixpoint dict_lookup (key : text) (d : list (text * value)) : option value :=
  match d with
  | [] => None
  | (k, v) :: r => if text_eqb k key then Some v else dict_lookup key r
  end.

(** [d.get(key)] *)
Definition get (d : list (text * value)) (key : string) : value :=
  match dict_lookup (text_of_string key) d with
  | Some v => v
  | None => VNone
  end.

(** ** What the interpreter and the console add *)

Class Interpreter := {
  (** [print(f"...{v}...")]: [Some msg] when writing to the console raises
      (an encoding error of [sys.stdout]) *)
  print_error : value -> option text;
  (** [str(e)] for the exception [d[:30]] raises on a dictionary [d]: a
      TypeError up to Python 3.11, a KeyError from 3.12 on *)
  dict_slice_error : text;
}.

(** ** Responses *)

(** [jsonify(body), status_code] *)
Record response := Response
  { body : list (string * value);
    status_code : Z }.

Definition lit (s : string) : value := VStr (text_of_string s).

(** [jsonify({"error": message}), code] *)
Definition error (message : text) (code : Z) : response :=
  Response [("error", VStr message)] code.

(** [str(e)] of the AttributeError of [v.get]. *)
Definition no_attribute_get (v : value) : text :=
  text_of_string ("'" +:+ type_name v +:+ "' object has no attribute 'get'").

(** [str(e)] of the TypeError of [v[:30]]. *)
Definition not_subscriptable (v : value) : text :=
  text_of_string ("'" +:+ type_name v +:+ "' object is not subscriptable").

(** ** The module-level setting and the two imported functions *)

(** [os.environ.get('HASH_SECRET', 'default_secret_key_change_me')] *)
Definition HASH_SECRET (environ_secret : option text) : text :=
  match environ_secret with
  | Some s => s
  | None => DEFAULT_HASH_SECRET
  end.

(** [simple_encrypt] applied to any value: concatenating [HASH_SECRET] to
    anything but a [str] raises inside its [try]. *)
Definition encrypt_connection_string (environ_secret : option text) (v : value)
  : option text :=
  match v with
  | VStr s => simple_encrypt (HASH_SECRET environ_secret) s
  | _ => None
  end.

(** [simple_decrypt] applied to any value: [b64decode] of anything but a
    [str] raises inside its [try]. *)
Definition verify_hash (environ_secret : option text) (v : value) : option text :=
  match v with
  | VStr s => simple_decrypt (HASH_SECRET environ_secret) s
  | _ => None
  end.

Section Views.
Context `{Interpreter}.
Variable environ_secret : option text.

(** ** POST /api/hash/encrypt *)

(** [request_json] is what [request.get_json()] did: [inl msg] when it
    raised, with [msg] the text of the exception. *)
Definition encrypt_connection (request_json : text + value) : response :=
  match request_json with
  | inl msg => error msg 500
  | inr request_data =>
      if negb (value_truthy request_data) then
        error (text_of_string "No request data provided") 400
      else
        match request_data with
        | VDict d =>
            let connection_string := get d "connection_string" in
            if negb (value_truthy connection_string) then
              error (text_of_string "connection_string is required") 400
            else
              match encrypt_connection_string environ_secret connection_string with
              | None | Some [] =>
                  error (text_of_string "Failed to encrypt connection string") 500
              | Some encrypted_hash =>
                  let verification_result :=
                    verify_hash environ_secret (VStr encrypted_hash) in
                  Response
                    [("status", lit "success");
                     ("hash", VStr encrypted_hash);
                     ("test_verification",
                      VBool (match verification_result with
                             | Some _ => true
                             | None => false
                             end));
                     ("hash_length", VInt (Z.of_nat (List.length encrypted_hash)))]
                    200
              end
        | _ => error (no_attribute_get request_data) 500
        end
  end.

(** ** POST /api/hash/verify *)

(** [connection_hash[:30]], printed before the hash is verified. *)
Definition hash_prefix (connection_hash : value) : text + value :=
  match connection_hash with
  | VStr s => inr (VStr (firstn 30 s))
  | VList l => inr (VList (firstn 30 l))
  | VDict _ => inl dict_slice_error
  | _ => inl (not_subscriptable connection_hash)
  end.

Definition verify_connection_hash (request_json : text + value) : response :=
  match request_json with
  | inl msg => error msg 500
  | inr request_data =>
      if negb (value_truthy request_data) then
        error (text_of_string "No request data provided") 400
      else
        match request_data with
        | VDict d =>
            let connection_hash := get d "hash" in
            if negb (value_truthy connection_hash) then
              error (text_of_string "hash is required") 400
            else
              match hash_prefix connection_hash with
              | inl msg => error msg 500
              | inr shown =>
                  match print_error shown with
                  | Some msg => error msg 500
                  | None =>
                      match connection_hash,
                            verify_hash environ_secret connection_hash with
                      | VStr s, Some (c :: cs) =>
                          Response
                            [("status", lit "success");
                             ("connection_string", VStr (c :: cs));
                             ("hash_length", VInt (Z.of_nat (List.length s)))]
                            200
                      | _, _ =>
                          error (text_of_string "Invalid hash or decryption failed")
                                400
                      end
                  end
              end
        | _ => error (no_attribute_get request_data) 500
        end
  end.

(** ** GET /api/hash/test *)

Definition test_string : text :=
  text_of_string
    "host=localhost port=5432 dbname=testdb user=postgres password=test123".

(** [decrypted == test_string] *)
Definition same_text (decrypted : option text) (s : text) : bool :=
  match decrypted with
  | Some t => text_eqb t s
  | None => false
  end.

(** The name 'app.utils.hash_verifier_simple' is never a key of [globals()],
    so [hash_system] is always the second text.  [secret_key_length] reads
    the environment again, with the empty string as fallback. *)
Definition test_hash_functionality : response :=
  match simple_encrypt (HASH_SECRET environ_secret) test_string with
  | None | Some [] =>
      Response [("status", lit "error"); ("message", lit "Encryption failed")] 500
  | Some encrypted =>
      let decrypted := simple_decrypt (HASH_SECRET environ_secret) encrypted in
      Response
        [("status", lit (if same_text decrypted test_string
                         then "success" else "error"));
         ("hash_system", lit "AES Cryptography");
         ("original", VStr test_string);
         ("encrypted_hash", VStr encrypted);
         ("decrypted", match decrypted with Some t => VStr t | None => VNone end);
         ("match", VBool (same_text decrypted test_string));
         ("secret_key_length",
          VInt (Z.of_nat (List.length (match environ_secret with
                                       | Some s => s
                                       | None => []
                                       end))))]
        200
  end.

End Views.
End HashApi.


(* ===================================================================== *)
(** * Concrete databases used in examples                                  *)
(* ===================================================================== *)

Module Scenarios.
Import Py Runtime Connectors Cache Service.

(** A request that has not touched anything yet: no driver event, an empty
    and healthy cache store. *)
Definition fresh_world : world :=
  {| driver_log := []; calls := []; self_connection := None; redis_data := ∅;
     redis_faults := []; clock := 0 |}.

(** An environment around a database that answers each statement by its
    text alone.  The digest and the text of the argument tuple are stand-ins:
    nothing proved depends on them. *)
Definition static_env (answer : string -> string + cursor_result) : Env :=
  {| drv_connect := fun _ _ => None;
     drv_execute := fun _ _ q => answer q;
     drv_close := fun _ _ => None;
     re_match_uri := fun _ => None;
     md5_hexdigest := fun s => s;
     str_of_args := fun l => join "," l;
     recursion_limit := 1000 |}.

Definition one_row (names : list string) (values : list cell) : cursor_result :=
  {| description := Some names; rows := [values]; rowcount := 1 |}.
Definition no_rows (names : list string) : cursor_result :=
  {| description := Some names; rows := []; rowcount := 0 |}.

(** The catalog of the table [orders]: [id] (identity, not nullable) and
    [total] (numeric(10,2), nullable); [id_first] gives the ordinal order,
    [with_pk] says whether there is a primary key on [id]. *)
Definition orders_catalog (id_first with_pk : bool) (q : string)
  : string + cursor_result :=
  let id_row := [CStr "id"; CStr "int"; CInt 4; CInt 10; CInt 0;
                 CBool false; CBool true; CInt (if id_first then 1 else 2)] in
  let total_row := [CStr "total"; CStr "numeric"; CInt 9; CInt 10; CInt 2;
                    CBool true; CBool false; CInt (if id_first then 2 else 1)] in
  if String.eqb q (odbc_columns_query "orders") then
    inr {| description := Some ["column_name"; "data_type"; "max_length";
                                "precision"; "scale"; "is_nullable";
                                "is_identity"; "column_id"];
           rows := if id_first then [id_row; total_row] else [total_row; id_row];
           rowcount := -1 |}
  else if String.eqb q (odbc_pk_query "orders") then
    inr {| description := Some ["index_name"; "column_name"];
           rows := if with_pk then [[CStr "PK_orders"; CStr "id"]] else [];
           rowcount := -1 |}
  else if String.eqb q (odbc_fk_query "orders") then
    inr (no_rows ["fk_name"; "parent_table"; "parent_column";
                  "referenced_table"; "referenced_column"])
  else if String.eqb q odbc_tables_query then
    inr (one_row ["name"] [CStr "orders"])
  else inl "Invalid object name".

(** A server holding one order whose [total] is the decimal 12.50. *)
Definition decimal_env : Env :=
  static_env (fun _ => inr (one_row ["total"] [CObj "Decimal" "12.50" true])).

(** A server that accepts connections and rejects every statement. *)
Definition failing_env : Env :=
  static_env (fun _ => inl "syntax error at or near SELEC").

(** A server that refuses every connection. *)
Definition refusing_env : Env :=
  {| drv_connect := fun _ _ => Some "connection refused";
     drv_execute := fun _ _ _ => inl "not connected";
     drv_close := fun _ _ => None;
     re_match_uri := fun _ => None;
     md5_hexdigest := fun s => s;
     str_of_args := fun l => join "," l;
     recursion_limit := 1000 |}.

(** A PostgreSQL server seen by a read-only account: the table [orders]
    exists, but the helper function [pg_get_tabledef] could not be created,
    so every statement calling it fails. *)
Definition readonly_env : Env :=
  static_env (fun q =>
    if is_prefix "CREATE OR REPLACE FUNCTION" q
    then inl "permission denied for schema public"
    else if is_prefix "SELECT to_regclass(" q
    then inr (one_row ["exists"] [CBool (String.eqb q (pg_exists_query "orders"))])
    else if is_prefix "SELECT pg_get_tabledef(" q
    then inl "function pg_get_tabledef(oid) does not exist"
    else if String.eqb q (pg_case_query "orders")
    then inr (one_row ["full_name"] [CStr "public.orders"])
    else inr (no_rows ["full_name"])).

(** A PostgreSQL server holding the table [public.Orders], created with a
    quoted mixed-case name. *)
Definition mixed_case_env : Env :=
  static_env (fun q =>
    if is_prefix "CREATE OR REPLACE FUNCTION" q
    then inr {| description := None; rows := []; rowcount := -1 |}
    else if is_prefix "SELECT to_regclass(" q
    then inr (one_row ["exists"] [CBool false])
    else if String.eqb q (pg_tabledef_query "public.Orders")
    then inr (one_row ["ddl"] [CStr "CREATE TABLE public.Orders (...);"])
    else if is_prefix "SELECT pg_get_tabledef(" q
    then inl "relation does not exist"
    else if String.eqb q (pg_case_query "orders")
    then inr (one_row ["full_name"] [CStr "public.Orders"])
    else inr (no_rows ["full_name"])).

(** An ODBC catalog with two tables, [customers] and [orders], each with a
    single column [id]. *)
Definition two_tables_catalog (q : string) : string + cursor_result :=
  if String.eqb q odbc_tables_query then
    inr {| description := Some ["name"];
           rows := [[CStr "customers"]; [CStr "orders"]];
           rowcount := -1 |}
  else if is_prefix "SELECT c.name AS column_name" q then
    inr {| description := Some ["column_name"; "data_type"; "max_length";
                                "precision"; "scale"; "is_nullable";
                                "is_identity"; "column_id"];
           rows := [[CStr "id"; CStr "int"; CInt 4; CInt 10; CInt 0;
                     CBool false; CBool true; CInt 1]];
           rowcount := -1 |}
  else inr {| description := Some ["name"]; rows := []; rowcount := -1 |}.

(** An ODBC catalog that lists a single table, named with an asterisk. *)
Definition star_table_catalog (q : string) : string + cursor_result :=
  if String.eqb q odbc_tables_query then inr (one_row ["name"] [CStr "*"])
  else inr (no_rows ["name"]).

(** A cache store whose next two operations fail. *)
Definition store_down_world : world :=
  {| driver_log := []; calls := []; self_connection := None; redis_data := ∅;
     redis_faults := [true; true]; clock := 0 |}.

(** A server on which every statement updates three rows. *)
Definition update_env : Env :=
  static_env (fun _ => inr {| description := None; rows := []; rowcount := 3 |}).

(** The world after [connect()] on a new connector: ODBC with the connection
    string DSN=warehouse, PostgreSQL with host=db dbname=shop. *)
Definition odbc_connected : world :=
  {| driver_log := [EvConnect (OdbcConnect "DSN=warehouse") (Some 0%nat)];
     calls := [M_connect]; self_connection := Some 0%nat; redis_data := ∅;
     redis_faults := []; clock := 0 |}.
Definition pg_connected : world :=
  {| driver_log := [EvConnect (PgConnect [("host", "db"); ("dbname", "shop")])
                              (Some 0%nat)];
     calls := [M_connect]; self_connection := Some 0%nat; redis_data := ∅;
     redis_faults := []; clock := 0 |}.

End Scenarios.

(* ===================================================================== *)
(** * The vocabulary of the statements                                     *)
(* ===================================================================== *)

Module Statements.
Import Py Runtime Connectors Cache Service Scenarios.

(** ** Query results *)

(** The counters as the specification words them: with a result set the
    mutation counter is zero, without one the row counter is zero and the
    mutation counter is the driver's. *)
Definition one_counter_active (c : cursor_result) (r : QueryResult) : Prop :=
  if has_result_set c
  then columns r = column_names c /\
       data r = map (dict_zip (column_names c)) (rows c) /\
       row_count r = Z.of_nat (List.length (rows c)) /\
       affected_rows r = 0
  else row_count r = 0 /\ affected_rows r = rowcount c.

(** What [ODBCConnector.execute_query] does without a result set: both
    counters carry [cursor.rowcount]. *)
Definition odbc_counters (c : cursor_result) (r : QueryResult) : Prop :=
  if has_result_set c
  then columns r = column_names c /\
       data r = map (dict_zip (column_names c)) (rows c) /\
       row_count r = Z.of_nat (List.length (rows c)) /\
       affected_rows r = 0
  else columns r = [] /\ data r = [] /\
       row_count r = rowcount c /\ affected_rows r = rowcount c.

(** ** Service results and the cache *)

(** The cache store and the clock are left as they were. *)
Definition same_store (w w' : world) : Prop :=
  redis_data w' = redis_data w /\ redis_faults w' = redis_faults w /\
  clock w' = clock w.

(** The dialect tags [get_db_connector] accepts. *)
Definition supported (db_type : string) : bool :=
  str_in (lower db_type)
         ["fabric"; "odbc"; "microsoft_fabric"; "postgres"; "postgresql"].

Definition success_result (result : QueryResult) (query db_type : string)
  : list (string * pyval) :=
  [("status", PStr "success"); ("result", pv_of_result result);
   ("query", PStr query); ("db_type", PStr db_type); ("cached", PBool false)].

Definition error_result (error query db_type : string)
  : list (string * pyval) :=
  [("status", PStr "error"); ("error", PStr error);
   ("query", PStr query); ("db_type", PStr db_type); ("cached", PBool false)].

(** The entries of a dictionary after a trip through json. *)
Definition jsonify_items (d : list (string * pyval)) : list (string * pyval) :=
  map (fun kv => (fst kv, jsonify (snd kv))) d.

(** ** DDL texts *)

(** A text that begins with the letter C and ends with a semicolon. *)
Definition statement_shaped (s : string) : Prop :=
  exists mid, s = String "C" (mid +:+ ";").

Definition ends_with_semicolon (s : string) : Prop := exists t, s = t +:+ ";".

(** The blocks, each after a blank line: what the loop of the wildcard branch
    accumulates. *)
Fixpoint after_blank_lines (blocks : list string) : string :=
  match blocks with
  | [] => ""
  | b :: r => nl +:+ nl +:+ b +:+ after_blank_lines r
  end.

(** The row does not name a table '*'. *)
Definition not_wildcard (table : row) : bool :=
  match dict_get "name" table with
  | Some c => negb (eq_str c "*")
  | None => true
  end.

(** The lines of the two columns of [orders]. *)
Definition id_line : string := "    id int NOT NULL IDENTITY(1,1)".
Definition total_line : string := "    total numeric(10, 2) NULL".

(** The text [get_ddl('orders', 'table')] is expected to return. *)
Definition orders_ddl_text (id_first with_pk : bool) : string :=
  "CREATE TABLE orders (" +:+ nl
  +:+ (if id_first then id_line +:+ "," +:+ nl +:+ total_line
       else total_line +:+ "," +:+ nl +:+ id_line)
  +:+ nl +:+ ");"
  +:+ (if with_pk
       then nl +:+ nl
            +:+ "ALTER TABLE orders ADD CONSTRAINT PK_orders PRIMARY KEY (id);"
       else "").

(** A row of the column query for a column of a character type. *)
Definition char_column (name type : string) (max_length : Z)
           (is_nullable is_identity : bool) : row :=
  [("column_name", CStr name); ("data_type", CStr type);
   ("max_length", CInt max_length); ("precision", CInt 0); ("scale", CInt 0);
   ("is_nullable", CBool is_nullable); ("is_identity", CBool is_identity);
   ("column_id", CInt 1)].

Section WithEnv.
Context `{Env}.

(** ** Connecting *)

(** What [connect] asks of the driver: the ODBC connector passes the
    connection string on as it is, the PostgreSQL connector parses it first
    and has nothing to ask when the parsing raises. *)
Definition connect_request_of (k : connector_class) (connection_string : string)
  : exn + connect_request :=
  match k with
  | ODBCConnector => inr (OdbcConnect connection_string)
  | PostgresConnector =>
      match _parse_connection_string connection_string with
      | inl e => inl e
      | inr params => inr (PgConnect params)
      end
  end.

Definition connect_error_prefix (k : connector_class) : string :=
  match k with
  | ODBCConnector => "Failed to connect to ODBC database: "
  | PostgresConnector => "Failed to connect to PostgreSQL database: "
  end.

(** The three ways a call of [connect] ends, whatever handle is held.  The
    request cannot be built: [ConnectionError], the driver is not asked.  The
    driver refuses: [ConnectionError], the refusal is the one new driver
    event.  The driver grants the connection: the new handle takes the place
    of the one held.  No path closes a connection, and a [ConnectionError]
    leaves the handle held in place. *)
Definition connect_result (k : connector_class) (connection_string : string)
           (w : world) : (exn + bool) * world :=
  let entered := set_calls (calls w ++ [M_connect]) w in
  match connect_request_of k connection_string with
  | inl e =>
      (inl (Exn ConnectionError (connect_error_prefix k +:+ exn_str e)),
       entered)
  | inr req =>
      match drv_connect (driver_log w) req with
      | Some msg =>
          (inl (Exn ConnectionError (connect_error_prefix k +:+ msg)),
           set_log (driver_log w ++ [EvConnect req None]) entered)
      | None =>
          let h := fresh_handle (driver_log w) in
          (inr true,
           set_connection (Some h)
             (set_log (driver_log w ++ [EvConnect req (Some h)]) entered))
      end
  end.

(** ** One call of the service without the cache *)

(** The connector methods a call of [execute_query_with_cache] that is not
    served from the store invokes, in their order: none when the dialect tag
    is refused; [connect] alone when connecting raises; [connect] and
    [execute_query] when the query raises; [connect], [execute_query] and
    [disconnect] when the query returns. *)
Definition first_call_methods (connection_string db_type query : string)
           (w : world) : list method :=
  match get_db_connector connection_string db_type w with
  | (inl _, _) => []
  | (inr k, w0) =>
      match connect k connection_string w0 with
      | (inl _, _) => [M_connect]
      | (inr _, w1) =>
          match execute_query k connection_string query w1 with
          | (inl _, _) => [M_connect; M_execute_query]
          | (inr _, _) => [M_connect; M_execute_query; M_disconnect]
          end
      end
  end.

(** ** The PostgreSQL table lookup *)

(** The fallback chain in the words of the specification: the candidate
    names are probed in order and the first match wins; when none matches the
    name stays as it came. *)
Fixpoint first_match (connection_string : string) (candidates : list string)
         (otherwise : cell) : M cell :=
  match candidates with
  | [] => ret otherwise
  | candidate :: rest =>
      probe <- Postgres_execute_query connection_string
                 (pg_exists_query candidate) ;;
      if pg_exists probe then ret (CStr candidate)
      else first_match connection_string rest otherwise
  end.

Definition fallback_chain (connection_string name : string) : M cell :=
  first_match connection_string
    [name; lower name; "public." +:+ name; "public." +:+ lower name]
    (CStr name).

(** Before the lookup the helper function is created; whether that succeeds
    or raises, the lookup goes on. *)
Definition ensure_tabledef_function (connection_string : string) : M unit :=
  fun w =>
    (inr tt, snd (Postgres_execute_query connection_string
                    pg_create_function_query w)).

(** The DDL query on a name: the [ddl] item of the first row, or nothing when
    no row comes back. *)
Definition tabledef_of (connection_string name : string) : M (option cell) :=
  answer <- Postgres_execute_query connection_string (pg_tabledef_query name) ;;
  match data answer with
  | [] => ret None
  | first :: _ => ddl <- lift (getitem first "ddl") ;; ret (Some ddl)
  end.

(** The case-insensitive lookup across pg_tables: the qualified name of the
    first table whose lower-cased name is the lower-cased [name] (schema and
    table, when the name has a dot), or nothing. *)
Definition case_insensitive_lookup (connection_string name : string)
  : M (option string) :=
  let query :=
    match split_once "." (lower name) with
    | (schema, Some table) => pg_case_query_qualified schema table
    | (_, None) => pg_case_query (lower name)
    end in
  answer <- Postgres_execute_query connection_string query ;;
  match data answer with
  | [] => ret None
  | first :: _ =>
      full_name <- lift (getitem first "full_name") ;;
      ret (Some (py_str full_name))
  end.

(** What happens once a probe of the chain or the DDL query has raised [e],
    [name] being the name in use at that point: the case-insensitive lookup,
    and the DDL query again on the name it recovers.  The comment "not found"
    is the result when the lookup or the retry comes back empty, the comment
    "Error getting table definition" when either of them raises. *)
Definition recovered_table_ddl (connection_string name : string) (e : exn)
  : M cell :=
  let not_found :=
    CStr ("-- Table '" +:+ name +:+ "' not found. Error: " +:+ exn_str e) in
  try_except
    (actual <- case_insensitive_lookup connection_string name ;;
     match actual with
     | None => ret not_found
     | Some full_name =>
         ddl <- tabledef_of connection_string full_name ;;
         ret (match ddl with Some text => text | None => not_found end)
     end)
    (fun e2 =>
       ret (CStr ("-- Error getting table definition: " +:+ exn_str e2))).

(** The table lookup in the words of the specification: the chain resolves
    the name, the DDL query is run on the resolved name, and an exception on
    the way is answered by the recovery. *)
Definition table_lookup (connection_string name : string) : M cell :=
  resolved <- attempt (fallback_chain connection_string name) ;;
  match resolved with
  | inl e => recovered_table_ddl connection_string name e
  | inr found =>
      try_except
        (ddl <- tabledef_of connection_string (py_str found) ;;
         ret (match ddl with
              | Some text => text
              | None => CStr ("-- Table " +:+ py_str found
                              +:+ " definition not found")
              end))
        (recovered_table_ddl connection_string (py_str found))
  end.

(** The dictionary [PostgresConnector.execute_query] builds from a cursor. *)
Definition pg_result_of (c : cursor_result) : QueryResult :=
  if has_result_set c
  then {| columns := column_names c;
          data := map (dict_zip (column_names c)) (rows c);
          row_count := Z.of_nat (List.length (rows c));
          affected_rows := 0 |}
  else {| columns := []; data := []; row_count := 0;
          affected_rows := rowcount c |}.

(** How a table lookup can end: with the [ddl] item of the first row the
    driver answered to a [pg_get_tabledef] query, the last thing asked of it,
    or with one of the three comments. *)
Definition table_lookup_outcome (v : cell) (w' : world) : Prop :=
  (exists log h n c first rest,
      drv_execute log h (pg_tabledef_query n) = inr c /\
      driver_log w' = log ++ [EvExecute h (pg_tabledef_query n) true] /\
      data (pg_result_of c) = first :: rest /\
      getitem first "ddl" = inr v)
  \/ (exists n, v = CStr ("-- Table " +:+ n +:+ " definition not found"))
  \/ (exists n e, v = CStr ("-- Table '" +:+ n +:+ "' not found. Error: " +:+ e))
  \/ (exists e, v = CStr ("-- Error getting table definition: " +:+ e)).

(** ** The ODBC wildcard *)

(** Entering [get_ddl] and listing the tables of the catalog. *)
Definition list_tables (connection_string : string) : M QueryResult :=
  called M_get_ddl ;;; ODBC_execute_query connection_string odbc_tables_query.

(** The per-table DDL blocks, in the order of the rows: [get_ddl(name,
    "table")] for each listed name. *)
Fixpoint table_blocks (connection_string : string) (tables : list row)
  : M (list string) :=
  match tables with
  | [] => ret []
  | table :: rest =>
      table_name <- lift (getitem table "name") ;;
      table_ddl <- ODBC_get_ddl 1 connection_string table_name "table" ;;
      blocks <- table_blocks connection_string rest ;;
      ret (py_str table_ddl :: blocks)
  end.

End WithEnv.

(** Running the monad's own steps and the accessors of the state. *)
Ltac mstep :=
  cbv beta iota zeta delta
      [bind ret raise try_except attempt lift called get_connection
       assign_connection driver_connect driver_execute driver_close
       set_log set_calls set_connection set_redis] in *;
  cbn [self_connection driver_log calls redis_data redis_faults clock
       fst snd] in *.

End Statements.

(* ===================================================================== *)
(** * The vocabulary of the further properties                            *)
(* ===================================================================== *)

Module CodecProps.
Import Codec.
(** The characters of the base64 alphabet, and the pad. *)
Definition base64_char (c : Z) : bool :=
  (c =? BASE64_PAD)
  || match table_a2b_base64 c with Some _ => true | None => false end.

(** How many characters base64 needs for [n] bytes. *)
Definition base64_length (n : nat) : nat := (4 * ((n + 2) / 3))%nat.

(** How many bytes the scan of [a2b_base64] has put out within the current
    quad when it stands at [quad_pos]. *)
Definition emitted (quad_pos : nat) : nat :=
  match quad_pos with 0 | 1 => 0 | 2 => 1 | _ => 2 end%nat.

(** A descriptor and the token [simple_encrypt] makes of it under the
    default secret. *)
Definition sample_descriptor : text :=
  text_of_string "host=db.example.org dbname=shop user=app".
Definition sample_token : text :=
  Eval vm_compute in
    match simple_encrypt DEFAULT_HASH_SECRET sample_descriptor with
    | Some token => token
    | None => []
    end.
Definition other_secret : text := text_of_string "rotated_secret".
End CodecProps.


Module CacheProps.
Import Py Runtime Connectors Cache Service Scenarios Statements.

(** A value of the cache store that [json.loads] does not turn into a
    dictionary: a text that is not JSON, or a JSON list, string, number or
    null. *)
Definition not_an_object (v : wire) : Prop :=
  forall d, json_loads v <> Some (PDict d).

(** A result the decorator does not store: anything but a dictionary with
    at least one entry. *)
Definition not_cacheable (result : pyval) : Prop :=
  forall kv d, result <> PDict (kv :: d).

Definition ddl_error_result (error object_name object_type db_type : string)
  : list (string * pyval) :=
  [("status", PStr "error"); ("error", PStr error);
   ("object_name", PStr object_name); ("object_type", PStr object_type);
   ("db_type", PStr db_type); ("cached", PBool false)].

(** A store holding a line of text that is not JSON under the key of the
    call [execute_query_with_cache('DSN=warehouse', 'fabric', 'SELECT 1')]. *)
Definition corrupted_store_world (e : Env) : world :=
  {| driver_log := []; calls := []; self_connection := None;
     redis_data :=
       {[ @cache_key e "execute_query_with_cache"
            ["DSN=warehouse"; "fabric"; "SELECT 1"] := (100, WText "<html>") ]};
     redis_faults := []; clock := 0 |}.

End CacheProps.


Module ConnectorProps.
Import Py Runtime Connectors Cache Service Scenarios Statements.

(** An event that is a statement sent over handle [h]. *)
Definition statement_on (h : handle) (ev : event) : Prop :=
  exists q ok, ev = EvExecute h q ok.

(** From [w] to [w'] the connector has done nothing but send statements over
    the handle [h] it holds: the handle is still held, no connection was
    opened or closed, [connect] and [disconnect] were not called and the cache
    store was not touched. *)
Definition only_statements (h : handle) (w w' : world) : Prop :=
  self_connection w' = Some h /\
  (exists evs, driver_log w' = driver_log w ++ evs /\ Forall (statement_on h) evs) /\
  (exists ms, calls w' = calls w ++ ms /\
              Forall (fun m => m = M_get_ddl \/ m = M_execute_query) ms) /\
  same_store w w'.

(** A computation that, started with handle [h] held, does nothing but send
    statements over it, however it ends. *)
Definition statements_only {A} (h : handle) (m : M A) : Prop :=
  forall w, self_connection w = Some h -> only_statements h w (snd (m w)).


(** A call that started in [w] and ended in [w'] has opened one connection,
    sent statements over it and closed it: the handle is no longer held or
    open, and of the connector's methods [connect] came first and
    [disconnect] last. *)
Definition connection_closed (w w' : world) : Prop :=
  let h := fresh_handle (driver_log w) in
  self_connection w' = None /\
  (exists req evs,
      driver_log w' = driver_log w ++ [EvConnect req (Some h)] ++ evs ++ [EvClose h] /\
      Forall (statement_on h) evs) /\
  (exists ms,
      calls w' = calls w ++ [M_connect] ++ ms ++ [M_disconnect] /\
      Forall (fun m => m = M_get_ddl \/ m = M_execute_query) ms) /\
  ~ In h (open_handles (driver_log w') []).

(** The object types each connector's [get_ddl] knows. *)
Definition object_types (k : connector_class) : list string :=
  match k with
  | ODBCConnector => ["table"; "view"; "procedure"; "stored_procedure"; "function"]
  | PostgresConnector =>
      ["table"; "view"; "function"; "procedure"; "trigger"; "sequence"]
  end.

Definition ddl_success_result (ddl : cell) (object_name object_type db_type : string)
  : list (string * pyval) :=
  [("status", PStr "success"); ("ddl", PCell ddl);
   ("object_name", PStr object_name); ("object_type", PStr object_type);
   ("db_type", PStr db_type); ("cached", PBool false)].

Definition is_success (d : list (string * pyval)) : Prop :=
  dict_get "status" d = Some (PStr "success") /\
  dict_get "cached" d = Some (PBool false).
End ConnectorProps.


Module TextProps.
Import Py Runtime Connectors Cache Service Scenarios Statements.

(** Every character of [s] satisfies [p]. *)
Fixpoint string_forall (p : ascii -> bool) (s : string) : bool :=
  match s with
  | EmptyString => true
  | String a r => p a && string_forall p r
  end.

Definition no_blank (s : string) : bool :=
  string_forall (fun a => negb (is_space a)) s.
Definition no_equals (s : string) : bool :=
  string_forall (fun a => negb (Ascii.eqb a "=")) s.

(** The keyword form of a descriptor: [key=value] items separated by one
    blank. *)
Definition keyword_token (kv : string * string) : string :=
  fst kv +:+ "=" +:+ snd kv.
Definition keyword_string (params : list (string * string)) : string :=
  join " " (map keyword_token params).

(** A key has no blank and no equals sign, a value no blank. *)
Definition plain_param (kv : string * string) : bool :=
  no_blank (fst kv) && no_equals (fst kv) && no_blank (snd kv).

(** Key and value are ASCII text, so that their blanks are those at which
    [str.split()] splits. *)
Definition ascii_param (kv : string * string) : bool :=
  ascii_only (fst kv) && ascii_only (snd kv).

(** The texts of a list, one after the other. *)
Fixpoint concat_all (l : list string) : string :=
  match l with
  | [] => ""
  | t :: r => t +:+ concat_all r
  end.

(** A foreign key as the catalog query reports it: one row for each pair of a
    referencing and a referenced column. *)
Record foreign_key := mkForeignKey
  { fk_name : string;
    parent_table : string;
    referenced_table : string;
    column_pairs : list (string * string) }.

Definition fk_row (fk : foreign_key) (pair : string * string) : row :=
  [("fk_name", CStr (fk_name fk));
   ("parent_table", CStr (parent_table fk));
   ("parent_column", CStr (fst pair));
   ("referenced_table", CStr (referenced_table fk));
   ("referenced_column", CStr (snd pair))].

Definition fk_rows (fk : foreign_key) : list row :=
  map (fk_row fk) (column_pairs fk).

(** The statement expected for a foreign key, after a blank line. *)
Definition fk_statement_text (fk : foreign_key) : string :=
  nl +:+ nl +:+ "ALTER TABLE " +:+ parent_table fk
     +:+ " ADD CONSTRAINT " +:+ fk_name fk +:+ " "
     +:+ "FOREIGN KEY (" +:+ join ", " (map fst (column_pairs fk))
     +:+ ") REFERENCES " +:+ referenced_table fk
     +:+ " (" +:+ join ", " (map snd (column_pairs fk)) +:+ ");".

Definition fk_entry_of (fk : foreign_key) : cell * fk_entry :=
  (CStr (fk_name fk),
   (CStr (parent_table fk), CStr (referenced_table fk),
    map CStr (map fst (column_pairs fk)), map CStr (map snd (column_pairs fk)))).


(** No entry of [fk_dict] is named [name]. *)
Definition fk_unknown (name : string) (fk_dict : list (cell * fk_entry)) : Prop :=
  Forall (fun kv => cell_eqb (fst kv) (CStr name) = false) fk_dict.

(** A server that answers every statement with one row of two columns that
    are both named [id]. *)
Definition twin_columns_env : Env :=
  static_env (fun _ => inr {| description := Some ["id"; "id"];
                              rows := [[CInt 1; CInt 2]];
                              rowcount := 1 |}).

Definition sample_params : list (string * string) :=
  [("host", "db.example.org"); ("port", "5432"); ("dbname", "shop");
   ("options", "-csearch_path=public")].

(** A foreign key of [order_lines] over two columns, and one over a single
    column. *)
Definition sample_foreign_keys : list foreign_key :=
  [ {| fk_name := "FK_lines_orders"; parent_table := "order_lines";
       referenced_table := "orders";
       column_pairs := [("order_id", "id"); ("order_year", "year")] |};
    {| fk_name := "FK_lines_products"; parent_table := "order_lines";
       referenced_table := "products";
       column_pairs := [("product_id", "id")] |} ].
End TextProps.


Module HashApiProps.
Import Codec HashApi.

(** The request is a JSON object whose [key] is the non-empty string [s]. *)
Definition names_text (request_json : text + value) (key : string) (s : text)
  : Prop :=
  exists d, request_json = inr (VDict d) /\ get d key = VStr s /\ s <> [].

(** A console that can show every ASCII text. *)
Definition prints_ascii `{Interpreter} : Prop :=
  forall s, Forall is_ascii s -> print_error (VStr s) = None.

(** An interpreter whose console shows everything. *)
Definition quiet_interpreter : Interpreter :=
  {| print_error := fun _ => None;
     dict_slice_error := text_of_string "unhashable type: 'slice'" |}.

Definition sample_request : text + value :=
  inr (VDict [(text_of_string "connection_string",
               VStr CodecProps.sample_descriptor)]).

End HashApiProps.



(* ===================================================================== *)
(** * Properties of the credential codec                                   *)
(* ===================================================================== *)

Module CodecFacts.
Import Codec.

Lemma obind_some {A B} (m : option A) (k : A -> option B) a :
  m = Some a -> obind m k = k a.
Proof. intros ->. reflexivity. Qed.

(** *** UTF-8 *)

Lemma utf8_decode_encoded_char c e rest :
  scalar_value c -> utf8_encode_char c = Some e ->
  utf8_decode (e ++ rest) = obind (utf8_decode rest) (fun r => Some (c :: r)).
Proof.
  intros [Hr Hs] He. unfold utf8_encode_char in He.
  repeat match type of He with
         | (if ?b then _ else _) = _ => destruct b eqn:?
         end; inversion He; subst e; clear He; cbn [app utf8_decode].
  - (* one byte *)
    replace (c <? 0) with false by lia. replace (c <? 128) with true by lia.
    reflexivity.
  - (* two bytes *)
    assert (H0 : 0 <= c / 64 < 32) by zlia.
    assert (H1 : 0 <= c mod 64 < 64) by zlia.
    replace (192 + c / 64 <? 0) with false by lia.
    replace (192 + c / 64 <? 128) with false by lia.
    replace (192 + c / 64 <? 194) with false by zlia.
    replace (192 + c / 64 <? 224) with true by lia.
    unfold is_continuation.
    replace (128 <=? 128 + c mod 64) with true by lia.
    replace (128 + c mod 64 <? 192) with true by lia.
    cbn [andb].
    replace ((192 + c / 64 - 192) * 64 + (128 + c mod 64 - 128)) with c by zlia.
    reflexivity.
  - (* three bytes *)
    assert (H0 : 0 <= c / 4096 < 16) by zlia.
    assert (H1 : 0 <= (c / 64) mod 64 < 64) by zlia.
    assert (H2 : 0 <= c mod 64 < 64) by zlia.
    replace (224 + c / 4096 <? 0) with false by lia.
    replace (224 + c / 4096 <? 128) with false by lia.
    replace (224 + c / 4096 <? 194) with false by lia.
    replace (224 + c / 4096 <? 224) with false by lia.
    replace (224 + c / 4096 <? 240) with true by lia.
    unfold is_continuation.
    replace (128 <=? 128 + (c / 64) mod 64) with true by lia.
    replace (128 + (c / 64) mod 64 <? 192) with true by lia.
    replace (128 <=? 128 + c mod 64) with true by lia.
    replace (128 + c mod 64 <? 192) with true by lia.
    replace ((224 + c / 4096 - 224) * 4096 + (128 + (c / 64) mod 64 - 128) * 64
             + (128 + c mod 64 - 128)) with c by zlia.
    replace (2048 <=? c) with true by lia.
    replace ((55296 <=? c) && (c <=? 57343)) with false
      by (symmetry; apply andb_false_iff; lia).
    reflexivity.
  - (* four bytes *)
    assert (H0 : 0 <= c / 262144 < 5) by zlia.
    assert (H1 : 0 <= (c / 4096) mod 64 < 64) by zlia.
    assert (H2 : 0 <= (c / 64) mod 64 < 64) by zlia.
    assert (H3 : 0 <= c mod 64 < 64) by zlia.
    replace (240 + c / 262144 <? 0) with false by lia.
    replace (240 + c / 262144 <? 128) with false by lia.
    replace (240 + c / 262144 <? 194) with false by lia.
    replace (240 + c / 262144 <? 224) with false by lia.
    replace (240 + c / 262144 <? 240) with false by lia.
    replace (240 + c / 262144 <? 245) with true by lia.
    unfold is_continuation.
    replace (128 <=? 128 + (c / 4096) mod 64) with true by lia.
    replace (128 + (c / 4096) mod 64 <? 192) with true by lia.
    replace (128 <=? 128 + (c / 64) mod 64) with true by lia.
    replace (128 + (c / 64) mod 64 <? 192) with true by lia.
    replace (128 <=? 128 + c mod 64) with true by lia.
    replace (128 + c mod 64 <? 192) with true by lia.
    replace ((240 + c / 262144 - 240) * 262144
             + (128 + (c / 4096) mod 64 - 128) * 4096
             + (128 + (c / 64) mod 64 - 128) * 64 + (128 + c mod 64 - 128))
      with c by zlia.
    replace (65536 <=? c) with true by lia.
    replace (c <? 1114112) with true by lia.
    reflexivity.
Qed.

Lemma utf8_encode_char_total c :
  scalar_value c -> exists e, utf8_encode_char c = Some e /\ Forall is_byte e.
Proof.
  intros [Hr Hs]. unfold utf8_encode_char.
  replace (c <? 0) with false by lia.
  destruct (c <? 128) eqn:E1; [eexists; split; [reflexivity|]|].
  { repeat constructor; lia. }
  destruct (c <? 2048) eqn:E2; [eexists; split; [reflexivity|]|].
  { repeat constructor; zlia. }
  destruct (c <? 65536) eqn:E3.
  { replace ((55296 <=? c) && (c <=? 57343)) with false
      by (symmetry; apply andb_false_iff; lia).
    eexists; split; [reflexivity|]. repeat constructor; zlia. }
  replace (c <? 1114112) with true by lia.
  eexists; split; [reflexivity|]. repeat constructor; zlia.
Qed.

(** Encoding an encodable string succeeds, gives bytes, and decodes back. *)
Lemma utf8_roundtrip s :
  encodable s ->
  exists e, utf8_encode s = Some e /\ Forall is_byte e /\ utf8_decode e = Some s.
Proof.
  induction 1 as [|c r Hc Hr (er & Eer & Ber & Der)].
  - exists []. repeat split; constructor.
  - destruct (utf8_encode_char_total c Hc) as (e & Ee & Be).
    exists (e ++ er). cbn [utf8_encode]. rewrite Ee, Eer. cbn [obind].
    repeat split.
    + apply Forall_app; auto.
    + rewrite (utf8_decode_encoded_char c e er Hc Ee), Der. reflexivity.
Qed.

Lemma is_ascii_scalar c : is_ascii c -> scalar_value c.
Proof. unfold is_ascii, scalar_value. lia. Qed.

Lemma utf8_encode_ascii bs : Forall is_ascii bs -> utf8_encode bs = Some bs.
Proof.
  induction 1 as [|c r Hc Hr IH]; [reflexivity|].
  cbn [utf8_encode]. rewrite IH. unfold utf8_encode_char, is_ascii in *.
  replace (c <? 0) with false by lia. replace (c <? 128) with true by lia.
  reflexivity.
Qed.

Lemma utf8_decode_ascii bs : Forall is_ascii bs -> utf8_decode bs = Some bs.
Proof.
  induction 1 as [|c r Hc Hr IH]; [reflexivity|].
  cbn [utf8_decode]. rewrite IH. unfold is_ascii in *.
  replace (c <? 0) with false by lia. replace (c <? 128) with true by lia.
  reflexivity.
Qed.

Lemma str_encode_ascii_ok bs : Forall is_ascii bs -> str_encode_ascii bs = Some bs.
Proof.
  intros H. unfold str_encode_ascii.
  replace (forallb _ bs) with true; [reflexivity|].
  symmetry. apply forallb_forall. intros c Hc.
  rewrite Forall_forall in H. specialize (H c).
  assert (is_ascii c) as Ha by (apply H; apply list_elem_of_In; exact Hc).
  unfold is_ascii in Ha. lia.
Qed.

(** *** base64 *)

Lemma table_b2a_ascii i : 0 <= i < 64 -> is_ascii (table_b2a_base64 i).
Proof.
  intros Hi. unfold table_b2a_base64, is_ascii.
  repeat match goal with |- context [if ?b then _ else _] => destruct b eqn:? end;
    lia.
Qed.

Lemma table_b2a_not_pad i : 0 <= i < 64 -> (table_b2a_base64 i =? BASE64_PAD) = false.
Proof.
  intros Hi. unfold table_b2a_base64, BASE64_PAD.
  repeat match goal with |- context [if ?b then _ else _] => destruct b eqn:? end;
    lia.
Qed.

Lemma table_a2b_b2a i : 0 <= i < 64 -> table_a2b_base64 (table_b2a_base64 i) = Some i.
Proof.
  intros Hi. unfold table_b2a_base64.
  repeat match goal with |- context [if ?b then _ else _] => destruct b eqn:? end;
    unfold table_a2b_base64;
    repeat match goal with
           | |- context [if ?b then _ else _] =>
               let E := fresh "E" in
               destruct b eqn:E;
               [ try (f_equal; lia);
                 try (apply andb_true_iff in E; exfalso; lia); try lia
               | try (apply andb_false_iff in E); try (exfalso; lia) ]
           end.
Qed.

(** One step of the decoding loop on a character of the alphabet. *)
Lemma a2b_loop_alphabet i rest quad_pos leftchar pads :
  0 <= i < 64 ->
  a2b_base64_loop (table_b2a_base64 i :: rest) quad_pos leftchar pads =
  match quad_pos with
  | 0%nat => a2b_base64_loop rest 1 i 0
  | 1%nat => obind (a2b_base64_loop rest 2 (i mod 16) 0)
               (fun r => Some ((leftchar * 4 + i / 16) mod 256 :: r))
  | 2%nat => obind (a2b_base64_loop rest 3 (i mod 4) 0)
               (fun r => Some ((leftchar * 16 + i / 4) mod 256 :: r))
  | _ => obind (a2b_base64_loop rest 0 0 0)
               (fun r => Some ((leftchar * 64 + i) mod 256 :: r))
  end.
Proof.
  intros Hi. cbn [a2b_base64_loop].
  rewrite (table_b2a_not_pad i Hi), (table_a2b_b2a i Hi). reflexivity.
Qed.

Lemma list_ind3 {A} (P : list A -> Prop) :
  P [] -> (forall a, P [a]) -> (forall a b, P [a; b]) ->
  (forall a b c r, P r -> P (a :: b :: c :: r)) ->
  forall l, P l.
Proof.
  intros H0 H1 H2 H3 l.
  cut (P l /\ (forall a, P (a :: l)) /\ (forall a b, P (a :: b :: l))).
  { intros [H _]. exact H. }
  induction l as [|x l (IH0 & IH1 & IH2)]; [auto|].
  repeat split; auto.
Qed.

Lemma b64encode_ascii bs : Forall is_byte bs -> Forall is_ascii (b64encode bs).
Proof.
  induction bs as [|a|a b|a b c r IH] using list_ind3; intros H; cbn [b64encode];
    repeat match goal with
           | H : Forall _ (_ :: _) |- _ =>
               let Hx := fresh "Hx" in
               apply Forall_cons_iff in H; destruct H as [Hx H]; unfold is_byte in Hx
           end;
    repeat (constructor; [first [apply table_b2a_ascii; zlia
                                | unfold is_ascii, BASE64_PAD; lia]|]);
    try constructor; auto.
Qed.

Lemma a2b_loop_b64encode bs :
  Forall is_byte bs ->
  forall leftchar pads, a2b_base64_loop (b64encode bs) 0 leftchar pads = Some bs.
Proof.
  induction bs as [|a|a b|a b c r IH] using list_ind3; intros H leftchar pads;
    cbn [b64encode];
    repeat match goal with
           | H : Forall _ (_ :: _) |- _ =>
               let Hx := fresh "Hx" in
               apply Forall_cons_iff in H; destruct H as [Hx H]; unfold is_byte in Hx
           end.
  - reflexivity.
  - rewrite !a2b_loop_alphabet by zlia.
    cbn. do 2 f_equal. zlia.
  - rewrite !a2b_loop_alphabet by zlia.
    cbn. f_equal. f_equal; [zlia|]. f_equal. zlia.
  - rewrite !a2b_loop_alphabet by zlia.
    rewrite (IH H). cbn [obind]. f_equal.
    f_equal; [zlia|]. f_equal; [zlia|]. f_equal. zlia.
Qed.

Lemma b64decode_b64encode bs :
  Forall is_byte bs -> b64decode (b64encode bs) = Some bs.
Proof.
  intros H. unfold b64decode.
  rewrite (str_encode_ascii_ok _ (b64encode_ascii bs H)). cbn [obind].
  apply a2b_loop_b64encode, H.
Qed.

(** *** SHA-256: the digest is 32 bytes *)

(** The test vector of FIPS 180-4 for the message "abc". *)
Example sha256_abc :
  sha256 (text_of_string "abc")
  = [0xba; 0x78; 0x16; 0xbf; 0x8f; 0x01; 0xcf; 0xea; 0x41; 0x41; 0x40; 0xde;
     0x5d; 0xae; 0x22; 0x23; 0xb0; 0x03; 0x61; 0xa3; 0x96; 0x17; 0x7a; 0x9c;
     0xb4; 0x10; 0xff; 0x61; 0xf2; 0x00; 0x15; 0xad].
Proof. vm_compute. reflexivity. Qed.

Lemma be_bytes_length n x : List.length (be_bytes n x) = n.
Proof. unfold be_bytes. rewrite length_map, length_rev, length_seq. reflexivity. Qed.

Lemma be_bytes_bytes n x : Forall is_byte (be_bytes n x).
Proof.
  unfold be_bytes. apply Forall_forall. intros b Hb.
  apply list_elem_of_In, in_map_iff in Hb. destruct Hb as (i & <- & _).
  unfold is_byte. zlia.
Qed.

Lemma sha256_length msg : List.length (sha256 msg) = 32%nat.
Proof.
  unfold sha256, digest_bytes. rewrite !length_app, !be_bytes_length. reflexivity.
Qed.

Lemma sha256_bytes msg : Forall is_byte (sha256 msg).
Proof.
  unfold sha256, digest_bytes.
  repeat (apply Forall_app; split); apply be_bytes_bytes.
Qed.

Lemma firstn_signature (sig rest : bytes) :
  List.length sig = 32%nat -> firstn 32 (sig ++ rest) = sig.
Proof.
  intros H. rewrite <- H. rewrite firstn_app, Nat.sub_diag, firstn_all.
  cbn. apply app_nil_r.
Qed.

Lemma skipn_signature (sig rest : bytes) :
  List.length sig = 32%nat -> skipn 32 (sig ++ rest) = rest.
Proof.
  intros H. rewrite <- H. rewrite skipn_app, Nat.sub_diag, skipn_all. reflexivity.
Qed.

(** *** The token *)

Lemma ascii_bytes bs : Forall is_ascii bs -> Forall is_byte bs.
Proof.
  induction 1 as [|c r Hc Hr IH]; constructor; auto.
  unfold is_ascii, is_byte in *. lia.
Qed.

(** The shape of the token: base64( signature (32 bytes) ‖ base64(D) ). *)
Lemma simple_encrypt_token secret D :
  encodable secret -> encodable D ->
  exists signed raw,
    utf8_encode (D ++ secret) = Some signed /\ utf8_encode D = Some raw /\
    Forall is_byte raw /\ utf8_decode raw = Some D /\
    simple_encrypt secret D = Some (b64encode (sha256 signed ++ b64encode raw)).
Proof.
  intros Hs HD.
  destruct (utf8_roundtrip (D ++ secret)) as (signed & Es & _ & _).
  { apply Forall_app; auto. }
  destruct (utf8_roundtrip D HD) as (raw & Er & Br & Dr).
  exists signed, raw. repeat split; auto.
  unfold simple_encrypt. rewrite Es, Er. cbn [obind].
  pose proof (b64encode_ascii raw Br) as Ha.
  rewrite (utf8_decode_ascii _ Ha). cbn [obind].
  rewrite (utf8_encode_ascii _ Ha). cbn [obind].
  apply utf8_decode_ascii, b64encode_ascii.
  apply Forall_app; split; [apply sha256_bytes|].
  apply ascii_bytes, Ha.
Qed.

(** C1. For every descriptor text D made of encodable code points (every
    printable string is one) and every such secret, [simple_encrypt] returns
    a token of the form base64( sha256-signature (32 bytes) ‖ base64(D) ) and
    [simple_decrypt] of that token returns D. *)
Theorem simple_decrypt_simple_encrypt (HASH_SECRET D : text) :
  encodable HASH_SECRET -> encodable D ->
  (exists signed raw,
      utf8_encode (D ++ HASH_SECRET) = Some signed /\
      utf8_encode D = Some raw /\
      List.length (sha256 signed) = 32%nat /\
      simple_encrypt HASH_SECRET D
      = Some (b64encode (sha256 signed ++ b64encode raw))) /\
  decrypt_of_encrypt HASH_SECRET D = Some D.
Proof.
  intros Hs HD.
  destruct (simple_encrypt_token HASH_SECRET D Hs HD)
    as (signed & raw & Es & Er & Br & Dr & Etok).
  split.
  { exists signed, raw. repeat split; auto using sha256_length. }
  unfold decrypt_of_encrypt. rewrite Etok. unfold simple_decrypt.
  pose proof (b64encode_ascii raw Br) as Ha.
  rewrite b64decode_b64encode.
  2:{ apply Forall_app; split; [apply sha256_bytes | apply ascii_bytes, Ha]. }
  cbn [obind].
  rewrite (skipn_signature _ _ (sha256_length signed)).
  rewrite (firstn_signature _ _ (sha256_length signed)).
  rewrite (utf8_decode_ascii _ Ha). cbn [obind].
  rewrite (b64decode_b64encode _ Br). cbn [obind].
  rewrite Dr. cbn [obind]. rewrite Es. cbn [obind].
  unfold bytes_eqb. rewrite bool_decide_eq_true_2 by reflexivity. reflexivity.
Qed.

Lemma simple_decrypt_simple_encrypt_witness :
  decrypt_of_encrypt DEFAULT_HASH_SECRET
    (text_of_string "host=db.example.org port=5432 dbname=shop user=app password=s3cr3t!")
  = Some (text_of_string "host=db.example.org port=5432 dbname=shop user=app password=s3cr3t!").
Proof.
  apply (simple_decrypt_simple_encrypt DEFAULT_HASH_SECRET
           (text_of_string "host=db.example.org port=5432 dbname=shop user=app password=s3cr3t!")).
  - apply (bool_decide_unpack _). vm_compute. exact I.
  - apply (bool_decide_unpack _). vm_compute. exact I.
Defined.

End CodecFacts.

(* ===================================================================== *)
(** * Properties of the string operations                                  *)
(* ===================================================================== *)

Module StringFacts.
Import Py Statements.

Lemma append_cons x (a b : string) : String x a +:+ b = String x (a +:+ b).
Proof. reflexivity. Qed.

Lemma append_nil_l (a : string) : "" +:+ a = a.
Proof. reflexivity. Qed.

Lemma append_assoc (a b c : string) : (a +:+ b) +:+ c = a +:+ (b +:+ c).
Proof.
  induction a as [|x a IH]; [reflexivity|].
  rewrite !append_cons. f_equal. exact IH.
Qed.

Lemma append_nil_r (a : string) : a +:+ "" = a.
Proof.
  induction a as [|x a IH]; [reflexivity|].
  rewrite append_cons. f_equal. exact IH.
Qed.

(** *** strip *)

Lemma lstrip_start c s : is_space c = false -> lstrip (String c s) = String c s.
Proof. intros Hc. cbn [lstrip]. rewrite Hc. reflexivity. Qed.

Lemma rstrip_snoc s c :
  is_space c = false -> rstrip (s +:+ String c "") = s +:+ String c "".
Proof.
  intros Hc. induction s as [|a s IH].
  - rewrite append_nil_l. cbn [rstrip]. rewrite Hc. reflexivity.
  - rewrite append_cons. cbn [rstrip]. rewrite IH.
    destruct s; reflexivity.
Qed.

Lemma ends_with_semicolon_paren : ends_with_semicolon ");".
Proof. exists ")". reflexivity. Qed.

Lemma ends_with_semicolon_app x y :
  ends_with_semicolon y -> ends_with_semicolon (x +:+ y).
Proof. intros [t ->]. exists (x +:+ t). symmetry. apply append_assoc. Qed.

Lemma statement_shaped_start rest y :
  ends_with_semicolon y -> statement_shaped (String "C" rest +:+ y).
Proof.
  intros [t ->]. exists (rest +:+ t). rewrite append_cons. f_equal.
  symmetry. apply append_assoc.
Qed.

Lemma statement_shaped_app s y :
  statement_shaped s -> ends_with_semicolon y -> statement_shaped (s +:+ y).
Proof. intros [mid ->] Hy. apply statement_shaped_start, Hy. Qed.

(** Stripping removes a leading blank line of a statement and nothing else. *)
Lemma strip_blank_line_statement s :
  statement_shaped s -> strip (nl +:+ nl +:+ s) = s.
Proof.
  intros [mid ->]. unfold strip.
  replace (nl +:+ nl +:+ String "C" (mid +:+ ";"))
    with ((nl +:+ nl +:+ String "C" mid) +:+ String ";" "")
    by (unfold nl; rewrite !append_cons, !append_nil_l; reflexivity).
  rewrite rstrip_snoc by reflexivity.
  unfold nl. rewrite !append_cons, !append_nil_l. reflexivity.
Qed.

(** *** join *)

Lemma after_blank_lines_join b blocks :
  after_blank_lines (b :: blocks) = nl +:+ nl +:+ join (nl +:+ nl) (b :: blocks).
Proof.
  revert b. induction blocks as [|b' r IH]; intros b.
  - cbn. rewrite append_nil_r. reflexivity.
  - change (after_blank_lines (b :: b' :: r))
      with (nl +:+ nl +:+ b +:+ after_blank_lines (b' :: r)).
    rewrite IH.
    change (join (nl +:+ nl) (b :: b' :: r))
      with (b +:+ (nl +:+ nl) +:+ join (nl +:+ nl) (b' :: r)).
    rewrite !append_assoc. reflexivity.
Qed.

Lemma join_statement_shaped b blocks :
  Forall statement_shaped (b :: blocks) ->
  statement_shaped (join (nl +:+ nl) (b :: blocks)).
Proof.
  revert b. induction blocks as [|b' r IH]; intros b Hall.
  - inversion Hall; subst. assumption.
  - inversion Hall as [|? ? Hb Hrest]; subst.
    change (join (nl +:+ nl) (b :: b' :: r))
      with (b +:+ (nl +:+ nl) +:+ join (nl +:+ nl) (b' :: r)).
    apply statement_shaped_app; [exact Hb|].
    apply ends_with_semicolon_app.
    destruct (IH b' Hrest) as [mid ->].
    exists (String "C" mid). reflexivity.
Qed.

End StringFacts.

(* ===================================================================== *)
(** * Properties of the connectors                                         *)
(* ===================================================================== *)

Module ConnectorFacts.
Import Py Runtime Connectors Scenarios Statements StringFacts.

Section WithEnv.
Context `{Env}.

Lemma execute_query_connected (k : connector_class) cs q w h :
  self_connection w = Some h ->
  execute_query k cs q w =
  match drv_execute (driver_log w) h q with
  | inl msg =>
      (inl (Exn DriverError msg),
       set_log (driver_log w ++ [EvExecute h q false])
         (set_calls (calls w ++ [M_execute_query]) w))
  | inr c =>
      (inr (match k with
            | ODBCConnector =>
                {| columns := if has_result_set c then column_names c else [];
                   data := if has_result_set c
                           then map (dict_zip
                                       (if has_result_set c
                                        then column_names c else []))
                                    (rows c)
                           else [];
                   row_count :=
                     if has_result_set c
                     then Z.of_nat
                            (List.length
                               (if has_result_set c
                                then map (dict_zip
                                            (if has_result_set c
                                             then column_names c else []))
                                         (rows c)
                                else []))
                     else rowcount c;
                   affected_rows := if negb (has_result_set c)
                                    then rowcount c else 0 |}
            | PostgresConnector =>
                if has_result_set c
                then {| columns := column_names c;
                        data := map (dict_zip (column_names c)) (rows c);
                        row_count :=
                          Z.of_nat (List.length
                                      (map (dict_zip (column_names c)) (rows c)));
                        affected_rows := 0 |}
                else {| columns := []; data := []; row_count := 0;
                        affected_rows := rowcount c |}
            end),
       set_log (driver_log w ++ [EvExecute h q true])
         (set_calls (calls w ++ [M_execute_query]) w))
  end.
Proof.
  intros Hc.
  destruct k; cbn [execute_query];
    unfold ODBC_execute_query, Postgres_execute_query; mstep;
    rewrite ?Hc; mstep;
    destruct (drv_execute (driver_log w) h q) as [msg|c]; try reflexivity.
  destruct (has_result_set c); reflexivity.
Qed.

(** C4 (amended). On a connected connector whose driver reports the cursor
    [c] for the statement, [execute_query] returns a result: with a result set
    the columns, rows and row count come from it and [affected_rows] is 0;
    without one [affected_rows] is the driver's count, and [row_count] is 0 on
    the PostgreSQL connector but the driver's count on the ODBC connector. *)
Theorem execute_query_counters (k : connector_class) cs q w h c :
  self_connection w = Some h ->
  drv_execute (driver_log w) h q = inr c ->
  exists r w',
    execute_query k cs q w = (inr r, w') /\
    match k with
    | PostgresConnector => one_counter_active c r
    | ODBCConnector => odbc_counters c r
    end.
Proof.
  intros Hc Hd. rewrite (execute_query_connected k cs q w h Hc), Hd.
  eexists _, _. split; [reflexivity|].
  destruct k; unfold one_counter_active, odbc_counters;
    destruct (has_result_set c) eqn:E; cbn; rewrite ?E, ?length_map; auto.
Qed.

(** C5 (amended). [connect] has no check for a handle already held, on
    either connector: every call ends as [connect_result] says, whatever the
    handle.  The ODBC connector asks the driver for a connection on every
    call; the PostgreSQL connector does so on every call whose connection
    string it can parse, and raises [ConnectionError] without asking the
    driver otherwise.  When the driver grants the connection the new handle
    takes the place of the one held, which is not closed; when the call raises
    [ConnectionError] the handle held stays.  Holding another handle, or none,
    changes nothing else.  A held handle is kept only by [execute_query],
    which calls [connect] only when no handle is held. *)
Theorem connect_always_reconnects (k : connector_class) cs w :
  connect k cs w = connect_result k cs w /\
  (forall held,
     connect k cs (set_connection held w) =
     match connect k cs w with
     | (inr b, w') => (inr b, w')
     | (inl e, w') => (inl e, set_connection held w')
     end) /\
  (forall h q, self_connection w = Some h ->
     self_connection (snd (execute_query k cs q w)) = Some h /\
     calls (snd (execute_query k cs q w)) = calls w ++ [M_execute_query] /\
     connect_calls (driver_log (snd (execute_query k cs q w)))
     = connect_calls (driver_log w)).
Proof.
  assert (Hrun : forall w0, connect k cs w0 = connect_result k cs w0).
  { intros w0. unfold connect_result, connect_request_of, connect_error_prefix.
    destruct k; cbn [connect]; unfold ODBC_connect, Postgres_connect; mstep.
    - destruct (drv_connect (driver_log w0) (OdbcConnect cs)); reflexivity.
    - destruct (_parse_connection_string cs) as [e|params]; [reflexivity|].
      destruct (drv_connect (driver_log w0) (PgConnect params)); reflexivity. }
  split; [apply Hrun|]. split.
  - intros held. rewrite !Hrun. unfold connect_result. destruct w. mstep.
    destruct (connect_request_of k cs) as [e|req]; [reflexivity|].
    destruct (drv_connect _ req); reflexivity.
  - intros h q Hc. rewrite (execute_query_connected k cs q w h Hc).
    destruct (drv_execute (driver_log w) h q); cbn;
      unfold connect_calls; rewrite List.filter_app, length_app; cbn;
      repeat split; auto; lia.
Qed.

End WithEnv.

(** The two connected worlds of the examples are what [connect] leaves. *)
Example odbc_connected_by_connect :
  snd (@connect update_env ODBCConnector "DSN=warehouse" fresh_world)
  = odbc_connected.
Proof. reflexivity. Qed.

Example pg_connected_by_connect :
  snd (@connect update_env PostgresConnector "host=db dbname=shop" fresh_world)
  = pg_connected.
Proof. vm_compute. reflexivity. Qed.

(** C4, counterexample: an UPDATE through the ODBC connector.  The driver
    reports no result set and three rows changed; [row_count] is 3, not 0. *)
Lemma odbc_row_count_counterexample :
  match @execute_query update_env ODBCConnector "DSN=warehouse"
          "UPDATE orders SET total = 0" odbc_connected with
  | (inr r, _) =>
      row_count r = 3 /\ affected_rows r = 3 /\
      ~ one_counter_active
          {| description := None; rows := []; rowcount := 3 |} r
  | _ => False
  end.
Proof.
  vm_compute. repeat split; try reflexivity.
  intros [Hrow _]. discriminate Hrow.
Qed.

Lemma execute_query_counters_witness :
  exists r w',
    @execute_query update_env PostgresConnector "host=db dbname=shop"
      "UPDATE orders SET total = 0" pg_connected = (inr r, w') /\
    one_counter_active {| description := None; rows := []; rowcount := 3 |} r.
Proof.
  apply (@execute_query_counters update_env PostgresConnector
           "host=db dbname=shop" "UPDATE orders SET total = 0"
           pg_connected 0%nat
           {| description := None; rows := []; rowcount := 3 |});
    reflexivity.
Defined.

(** C5, counterexample: [connect] twice on one ODBC connector.  The driver is
    asked twice, the handle held changes from 0 to 1, and both stay open. *)
Lemma connect_twice_counterexample :
  let w1 := snd (@connect update_env ODBCConnector "DSN=warehouse" fresh_world) in
  let w2 := snd (@connect update_env ODBCConnector "DSN=warehouse" w1) in
  self_connection w1 = Some 0%nat /\
  self_connection w2 = Some 1%nat /\
  connect_calls (driver_log w1) = 1%nat /\
  connect_calls (driver_log w2) = 2%nat /\
  open_handles (driver_log w2) [] = [0%nat; 1%nat].
Proof. vm_compute. repeat split. Qed.

(** A second [connect] on a connected PostgreSQL connector: the driver is
    asked again and the handle 1 takes the place of the handle 0.  With a
    connection string that cannot be parsed the call raises, the driver is
    not asked and the handle 0 stays. *)
Lemma connect_always_reconnects_witness :
  @connect update_env PostgresConnector "host=db dbname=shop" pg_connected
  = (inr true,
     {| driver_log :=
          [EvConnect (PgConnect [("host", "db"); ("dbname", "shop")]) (Some 0%nat);
           EvConnect (PgConnect [("host", "db"); ("dbname", "shop")]) (Some 1%nat)];
        calls := [M_connect; M_connect]; self_connection := Some 1%nat;
        redis_data := ∅; redis_faults := []; clock := 0 |}) /\
  @connect update_env PostgresConnector "shop" pg_connected
  = (inl (Exn ConnectionError
            "Failed to connect to PostgreSQL database: Unsupported PostgreSQL connection string format: shop"),
     {| driver_log :=
          [EvConnect (PgConnect [("host", "db"); ("dbname", "shop")]) (Some 0%nat)];
        calls := [M_connect; M_connect]; self_connection := Some 0%nat;
        redis_data := ∅; redis_faults := []; clock := 0 |}).
Proof.
  split.
  - rewrite (proj1 (@connect_always_reconnects update_env PostgresConnector
                      "host=db dbname=shop" pg_connected)).
    vm_compute. reflexivity.
  - rewrite (proj1 (@connect_always_reconnects update_env PostgresConnector
                      "shop" pg_connected)).
    vm_compute. reflexivity.
Defined.

(** ** The DDL of the ODBC connector *)

(** C7 (amended). For the catalog of [orders] -- [id] identity and not
    nullable, [total] numeric(10,2) and nullable, in either ordinal order,
    with or without a primary key on [id] -- [get_ddl('orders','table')]
    returns the CREATE TABLE block with the columns in ordinal order.  The
    id line ends with NOT NULL IDENTITY(1,1), followed by the separating comma
    when [id] is not the last column; the total line contains (10, 2) and
    NULL; with a primary key the block is followed, after a blank line, by the
    ALTER TABLE ... PRIMARY KEY (id); statement.  A character column whose
    max_length is -1 is rendered with (MAX). *)
Theorem odbc_orders_ddl (id_first with_pk : bool) :
  let ddl := orders_ddl_text id_first with_pk in
  (fst (@ODBC_get_ddl (static_env (orders_catalog id_first with_pk)) 1
          "DSN=warehouse" (CStr "orders") "table" odbc_connected)
   = inr (CStr ddl)) /\
  (is_prefix "CREATE TABLE orders (" ddl = true) /\
  (lines ddl =
     ["CREATE TABLE orders ("]
     ++ (if id_first then [id_line +:+ ","; total_line]
         else [total_line +:+ ","; id_line])
     ++ [");"]
     ++ (if with_pk
         then [""; "ALTER TABLE orders ADD CONSTRAINT PK_orders PRIMARY KEY (id);"]
         else [])) /\
  (is_suffix "NOT NULL IDENTITY(1,1)" id_line = true) /\
  (contains "(10, 2)" total_line = true) /\
  (contains "NULL" total_line = true) /\
  Forall (fun type =>
            forall name is_nullable is_identity last,
              odbc_column_line (char_column name type (-1) is_nullable is_identity)
                               last
              = inr ("    " +:+ name +:+ " " +:+ type +:+ "(MAX)"
                     +:+ (if is_nullable then " NULL" else " NOT NULL")
                     +:+ (if is_identity then " IDENTITY(1,1)" else "")
                     +:+ (if last then "" else "," +:+ nl)))
         ["varchar"; "nvarchar"; "char"; "nchar"].
Proof.
  cbv zeta. split; [destruct id_first, with_pk; vm_compute; reflexivity|].
  split; [destruct id_first, with_pk; reflexivity|].
  split; [destruct id_first, with_pk; vm_compute; reflexivity|].
  split; [reflexivity|]. split; [reflexivity|]. split; [reflexivity|].
  repeat constructor; intros name is_nullable is_identity last;
    unfold odbc_column_line, char_column; cbn;
    rewrite ?append_assoc;
    destruct is_nullable, is_identity, last; cbn;
    rewrite ?append_assoc, ?append_nil_r; reflexivity.
Qed.

(** C7, counterexample: [id] is the first column.  Its line in the text
    returned is followed by the separator, so it does not end with
    NOT NULL IDENTITY(1,1). *)
Lemma orders_id_line_counterexample :
  match fst (@ODBC_get_ddl (static_env (orders_catalog true true)) 1
               "DSN=warehouse" (CStr "orders") "table" odbc_connected) with
  | inr v =>
      (nth 1 (lines (py_str v)) "" = "    id int NOT NULL IDENTITY(1,1),") /\
      (is_suffix "NOT NULL IDENTITY(1,1)" (nth 1 (lines (py_str v)) "") = false)
  | inl _ => False
  end.
Proof. vm_compute. split; reflexivity. Qed.

End ConnectorFacts.

(* ===================================================================== *)
(** * Properties of the cache decorator and of the service functions       *)
(* ===================================================================== *)

Module ServiceFacts.
Import Py Runtime Connectors Cache Service Scenarios Statements StringFacts
       ConnectorFacts.

(** ** Dictionaries *)

Lemma dict_get_set {V} k (v : V) d : dict_get k (dict_set k v d) = Some v.
Proof.
  induction d as [|[k' v'] d IH]; cbn.
  - rewrite String.eqb_refl. reflexivity.
  - destruct (String.eqb k' k) eqn:E; cbn.
    + rewrite String.eqb_refl. reflexivity.
    + rewrite E. exact IH.
Qed.

Lemma dict_without_set {V} k (v : V) d :
  dict_without k (dict_set k v d) = dict_without k d.
Proof.
  unfold dict_without. induction d as [|[k' v'] d IH]; cbn.
  - rewrite String.eqb_refl. reflexivity.
  - destruct (String.eqb k' k) eqn:E; cbn.
    + rewrite String.eqb_refl. reflexivity.
    + rewrite E. cbn. f_equal. exact IH.
Qed.

Lemma dict_without_jsonify k d :
  dict_without k (jsonify_items d) = jsonify_items (dict_without k d).
Proof.
  unfold dict_without, jsonify_items. induction d as [|[k' v'] d IH]; cbn.
  - reflexivity.
  - destruct (String.eqb k' k); cbn; [exact IH | f_equal; exact IH].
Qed.

Lemma dict_set_jsonify k v d :
  jsonify_items (dict_set k v d) = dict_set k (jsonify v) (jsonify_items d).
Proof.
  unfold jsonify_items. induction d as [|[k' v'] d IH]; cbn.
  - reflexivity.
  - destruct (String.eqb k' k); cbn; [reflexivity | f_equal; exact IH].
Qed.

(** ** json *)

Lemma jsonify_dict d : jsonify (PDict d) = PDict (jsonify_items d).
Proof.
  unfold jsonify, jsonify_items. cbn. f_equal. rewrite List.map_map.
  reflexivity.
Qed.

(** Induction on nested values. *)
Lemma pyval_nested_ind (P : pyval -> Prop) :
  (forall c, P (PCell c)) ->
  (forall l, Forall P l -> P (PList l)) ->
  (forall d, Forall (fun kv => P (snd kv)) d -> P (PDict d)) ->
  forall v, P v.
Proof.
  intros Hc Hl Hd.
  fix IH 1. intros [c|l|d].
  - apply Hc.
  - apply Hl. induction l as [|x l IHl]; constructor; [apply IH | exact IHl].
  - apply Hd. induction d as [|[k x] d IHd]; constructor; [apply IH | exact IHd].
Qed.

(** A value json represents as it is comes back unchanged. *)
Lemma jsonify_native v : json_native v = true -> jsonify v = v.
Proof.
  induction v as [c|l IH|d IH] using pyval_nested_ind; intros Hn.
  - destruct c; try reflexivity. discriminate Hn.
  - unfold jsonify. cbn. f_equal. rewrite List.map_map.
    cbn in Hn. induction l as [|x l IHl]; [reflexivity|].
    cbn in Hn. apply andb_true_iff in Hn. destruct Hn as [Hx Hl].
    inversion IH; subst. cbn. f_equal; [apply H1, Hx | apply IHl; assumption].
  - unfold jsonify. cbn. f_equal. rewrite List.map_map.
    cbn in Hn. induction d as [|[k x] d IHd]; [reflexivity|].
    cbn in Hn. apply andb_true_iff in Hn. destruct Hn as [Hx Hd].
    inversion IH; subst. cbn. f_equal; [f_equal; apply H1, Hx|].
    apply IHd; assumption.
Qed.

Lemma jsonify_items_native d :
  json_native (PDict d) = true -> jsonify_items d = d.
Proof.
  intros Hn. pose proof (jsonify_native (PDict d) Hn) as E.
  rewrite jsonify_dict in E. congruence.
Qed.

Section WithEnv.
Context `{Env}.

(** ** The store *)

Lemma cache_lookup_fault key w rest :
  redis_faults w = true :: rest ->
  cache_lookup key w = (inr None, set_redis (redis_data w) rest w).
Proof.
  intros Hf. unfold cache_lookup, redis_get, next_fault. mstep.
  rewrite Hf. reflexivity.
Qed.

(** [cache_lookup] never raises. *)
Lemma cache_lookup_total key w :
  exists hit w', cache_lookup key w = (inr hit, w') /\
                 calls w' = calls w /\ driver_log w' = driver_log w /\
                 self_connection w' = self_connection w.
Proof.
  unfold cache_lookup, redis_get, next_fault. mstep.
  destruct (redis_faults w) as [|[] rest]; cbn;
    try (destruct (redis_data w !! key) as [[expiry [j|t]]|]; cbn;
         try destruct (clock w <? expiry); cbn;
         try destruct (negb (String.eqb t "")); cbn;
         try (destruct (of_json j); cbn));
    eexists _, _; repeat split; reflexivity.
Qed.

(** [cache_store] never raises and leaves the connector alone. *)
Lemma cache_store_total key ttl result w :
  exists w', cache_store key ttl result w = (inr tt, w') /\
             calls w' = calls w /\ driver_log w' = driver_log w /\
             self_connection w' = self_connection w.
Proof.
  unfold cache_store, redis_setex, next_fault. mstep.
  destruct (pv_truthy result); [|eexists; repeat split; reflexivity].
  destruct result as [c|l|d]; mstep;
    try (eexists; repeat split; reflexivity).
  destruct (redis_faults w) as [|[] rest]; cbn;
    try destruct (ttl <=? 0); cbn; eexists; repeat split; reflexivity.
Qed.

(** On a healthy, unexpired write the entry is in the store. *)
Lemma cache_store_healthy key ttl d w :
  redis_faults w = [] -> 0 < ttl ->
  cache_store key ttl (PDict d) w =
  (inr tt,
   set_redis (if pv_truthy (PDict d)
              then <[key := (clock w + ttl,
                             json_dumps (PDict (dict_set "cached" (PBool false) d)))]>
                     (redis_data w)
              else redis_data w) [] w).
Proof.
  intros Hf Httl. destruct w as [l c s rd rf cl]. cbn in Hf. subst rf.
  unfold cache_store, redis_setex, next_fault.
  destruct d as [|kv d]; cbn [pv_truthy]; mstep; [reflexivity|].
  replace (ttl <=? 0) with false by lia. reflexivity.
Qed.

(** ** The three connector calls of the service functions *)

Lemma open_handles_app l l' acc :
  open_handles (l ++ l') acc = open_handles l' (open_handles l acc).
Proof.
  revert acc. induction l as [|ev l IH]; intros acc; [reflexivity|].
  destruct ev as [req [h|]|h q ok|h]; cbn; apply IH.
Qed.

Lemma method_calls_app m l l' :
  method_calls m (l ++ l') = (method_calls m l + method_calls m l')%nat.
Proof. unfold method_calls. rewrite List.filter_app, length_app. reflexivity. Qed.

Lemma same_store_refl w : same_store w w.
Proof. repeat split. Qed.

Lemma same_store_trans w1 w2 w3 :
  same_store w1 w2 -> same_store w2 w3 -> same_store w1 w3.
Proof. unfold same_store. intros (?&?&?) (?&?&?). repeat split; congruence. Qed.

Lemma connect_outcome (k : connector_class) cs w :
  match connect k cs w with
  | (inr b, w') =>
      b = true /\
      calls w' = calls w ++ [M_connect] /\
      self_connection w' = Some (fresh_handle (driver_log w)) /\
      same_store w w' /\
      exists req,
        driver_log w' =
        driver_log w ++ [EvConnect req (Some (fresh_handle (driver_log w)))]
  | (inl e, w') =>
      kind e = ConnectionError /\
      calls w' = calls w ++ [M_connect] /\
      self_connection w' = self_connection w /\
      same_store w w' /\
      open_handles (driver_log w') [] = open_handles (driver_log w) []
  end.
Proof.
  destruct k; cbn [connect]; unfold ODBC_connect, Postgres_connect; mstep.
  - destruct (drv_connect (driver_log w) (OdbcConnect cs)); cbn;
      unfold same_store; cbn; repeat split; eauto.
    apply open_handles_app.
  - destruct (_parse_connection_string cs) as [e|params]; cbn;
      [unfold same_store; cbn; repeat split; eauto|].
    destruct (drv_connect (driver_log w) (PgConnect params)); cbn;
      unfold same_store; cbn; repeat split; eauto.
    apply open_handles_app.
Qed.

Lemma disconnect_outcome w h :
  self_connection w = Some h ->
  disconnect w =
  match drv_close (driver_log w) h with
  | Some msg =>
      (inl (Exn DriverError msg), set_calls (calls w ++ [M_disconnect]) w)
  | None =>
      (inr tt,
       set_connection None
         (set_log (driver_log w ++ [EvClose h])
            (set_calls (calls w ++ [M_disconnect]) w)))
  end.
Proof.
  intros Hc. unfold disconnect. mstep. rewrite Hc. mstep.
  destruct (drv_close (driver_log w) h); reflexivity.
Qed.

Lemma get_db_connector_outcome cs db w :
  match get_db_connector cs db w with
  | (inr k, w') => supported db = true /\ w' = set_connection None w
  | (inl e, w') => supported db = false /\ w' = w
  end.
Proof.
  unfold get_db_connector, supported, str_in.
  change ["fabric"; "odbc"; "microsoft_fabric"; "postgres"; "postgresql"]
    with (["fabric"; "odbc"; "microsoft_fabric"] ++ ["postgres"; "postgresql"]).
  rewrite existsb_app.
  destruct (existsb (String.eqb (lower db)) ["fabric"; "odbc"; "microsoft_fabric"]);
    [mstep; unfold BaseConnector_init; mstep; split; reflexivity|].
  destruct (existsb (String.eqb (lower db)) ["postgres"; "postgresql"]);
    mstep; unfold BaseConnector_init; mstep; split; reflexivity.
Qed.

(** ** [execute_query_with_cache] without the decorator *)

(** The function returns a dictionary on every path: the success dictionary
    or the error dictionary, both with [cached] false.  It leaves the cache
    store alone, calls [connect] once if the dialect is supported and not at
    all otherwise, and calls [execute_query] at most once. *)
Lemma execute_query_body_outcome cs db q w :
  exists d w',
    execute_query_body [cs; db; q] w = (inr (PDict d), w') /\
    same_store w w' /\
    ((exists r, d = success_result r q db) \/
     (exists e, d = error_result e q db)) /\
    method_calls M_connect (calls w')
    = (method_calls M_connect (calls w) + (if supported db then 1 else 0))%nat /\
    (method_calls M_execute_query (calls w')
     <= method_calls M_execute_query (calls w) + 1)%nat.
Proof.
  assert (Hfin : forall d w' (Hst : same_store w w') added,
             calls w' = calls w ++ added ->
             ((exists r, d = success_result r q db) \/
              (exists e, d = error_result e q db)) ->
             method_calls M_connect added = (if supported db then 1 else 0)%nat ->
             (method_calls M_execute_query added <= 1)%nat ->
             same_store w w' /\
             ((exists r, d = success_result r q db) \/
              (exists e, d = error_result e q db)) /\
             method_calls M_connect (calls w')
             = (method_calls M_connect (calls w)
                + (if supported db then 1 else 0))%nat /\
             (method_calls M_execute_query (calls w')
              <= method_calls M_execute_query (calls w) + 1)%nat).
  { intros d w' Hst added -> Hd Hc He. rewrite !method_calls_app.
    repeat split; try apply Hst; auto; lia. }
  unfold execute_query_body. mstep.
  pose proof (get_db_connector_outcome cs db w) as Hk.
  destruct (get_db_connector cs db w) as [[e|k] w0]; destruct Hk as [Hs ->].
  { eexists _, _. split; [reflexivity|].
    eapply Hfin with (added := []);
      [apply same_store_refl | symmetry; apply app_nil_r
      | right; eexists; reflexivity | rewrite Hs; reflexivity
      | vm_compute; lia]. }
  pose proof (connect_outcome k cs (set_connection None w)) as Hc.
  destruct (connect k cs (set_connection None w)) as [[e|b] w1];
    cbn [calls self_connection driver_log set_connection] in Hc.
  { destruct Hc as (_ & Hcalls & _ & Hst & _).
    eexists _, _. split; [reflexivity|].
    eapply Hfin with (added := [M_connect]);
      [exact Hst | exact Hcalls | right; eexists; reflexivity
      | rewrite Hs; reflexivity | vm_compute; lia]. }
  destruct Hc as (_ & Hcalls & Hconn & Hst & _).
  rewrite (execute_query_connected k cs q w1 _ Hconn).
  destruct (drv_execute (driver_log w1) (fresh_handle (driver_log w)) q)
    as [msg|c].
  { eexists _, _. split; [reflexivity|].
    eapply Hfin with (added := [M_connect; M_execute_query]);
      [exact Hst | cbn; rewrite Hcalls, <- app_assoc; reflexivity
      | right; eexists; reflexivity | rewrite Hs; reflexivity
      | vm_compute; lia]. }
  match goal with
  | |- context [disconnect ?w2] =>
      rewrite (disconnect_outcome w2 (fresh_handle (driver_log w)))
        by (cbn; exact Hconn)
  end.
  cbn [driver_log set_log set_calls].
  destruct (drv_close _ _) as [msg|].
  - eexists _, _. split; [reflexivity|].
    eapply Hfin with (added := [M_connect; M_execute_query; M_disconnect]);
      [exact Hst | cbn; rewrite Hcalls, <- !app_assoc; reflexivity
      | right; eexists; reflexivity | rewrite Hs; reflexivity
      | vm_compute; lia].
  - eexists _, _. split; [reflexivity|].
    eapply Hfin with (added := [M_connect; M_execute_query; M_disconnect]);
      [exact Hst | cbn; rewrite Hcalls, <- !app_assoc; reflexivity
      | left; eexists; reflexivity | rewrite Hs; reflexivity
      | vm_compute; lia].
Qed.

(** The connector methods the function invokes are those of
    [first_call_methods], in that order and nothing else; with a dialect tag
    the factory refuses, the world is left as it was. *)
Lemma execute_query_body_methods cs db q w :
  calls (snd (execute_query_body [cs; db; q] w))
  = calls w ++ first_call_methods cs db q w /\
  (supported db = false -> snd (execute_query_body [cs; db; q] w) = w).
Proof.
  unfold execute_query_body, first_call_methods. mstep.
  pose proof (get_db_connector_outcome cs db w) as Hk.
  destruct (get_db_connector cs db w) as [[e|k] w0]; destruct Hk as [Hs ->].
  { cbn. split; [symmetry; apply app_nil_r | reflexivity]. }
  split; [|intros Hn; rewrite Hn in Hs; discriminate Hs].
  pose proof (connect_outcome k cs (set_connection None w)) as Hc.
  destruct (connect k cs (set_connection None w)) as [[e|b] w1];
    cbn [calls self_connection driver_log set_connection] in Hc.
  { destruct Hc as (_ & Hcalls & _). exact Hcalls. }
  destruct Hc as (_ & Hcalls & Hconn & _).
  rewrite (execute_query_connected k cs q w1 _ Hconn).
  destruct (drv_execute (driver_log w1) (fresh_handle (driver_log w)) q)
    as [msg|c].
  { cbn. rewrite Hcalls, <- app_assoc. reflexivity. }
  match goal with
  | |- context [disconnect ?w2] =>
      rewrite (disconnect_outcome w2 (fresh_handle (driver_log w)))
        by (cbn; exact Hconn)
  end.
  cbn [driver_log set_log set_calls].
  destruct (drv_close _ _) as [msg|]; cbn;
    rewrite Hcalls, <- !app_assoc; reflexivity.
Qed.

(** When the connection was established and [execute_query] raises, the
    function returns the error dictionary and leaves things as the raise left
    them: [disconnect] has not been called and the handle of the call is
    still open. *)
Lemma failed_execute_keeps_handle_open cs db q w k w0 b w1 e w2 :
  get_db_connector cs db w = (inr k, w0) ->
  connect k cs w0 = (inr b, w1) ->
  execute_query k cs q w1 = (inl e, w2) ->
  execute_query_body [cs; db; q] w
  = (inr (PDict (error_result (exn_str e) q db)), w2) /\
  method_calls M_disconnect (calls w2) = method_calls M_disconnect (calls w) /\
  In (fresh_handle (driver_log w)) (open_handles (driver_log w2) []).
Proof.
  intros Hk Hc He. split.
  { unfold execute_query_body. mstep. rewrite Hk, Hc, He. reflexivity. }
  pose proof (get_db_connector_outcome cs db w) as Hk'. rewrite Hk in Hk'.
  destruct Hk' as [_ ->].
  pose proof (connect_outcome k cs (set_connection None w)) as Hc'.
  rewrite Hc in Hc'. cbn [calls self_connection driver_log set_connection] in Hc'.
  destruct Hc' as (_ & Hcalls & Hconn & _ & req & Hlog).
  rewrite (execute_query_connected k cs q w1 _ Hconn) in He.
  destruct (drv_execute (driver_log w1) (fresh_handle (driver_log w)) q)
    as [msg|c]; [|discriminate].
  injection He as _ <-. cbn [calls driver_log set_log set_calls]. split.
  - rewrite Hcalls, !method_calls_app. vm_compute method_calls at 2 3. lia.
  - rewrite Hlog, <- app_assoc, open_handles_app. cbn.
    apply in_or_app. right. left. reflexivity.
Qed.

(** [get_ddl_with_cache] without the decorator: a dictionary with [cached]
    false on every path. *)
Lemma get_ddl_body_outcome cs db object_name object_type w :
  exists d w',
    get_ddl_body [cs; db; object_name; object_type] w = (inr (PDict d), w') /\
    dict_get "cached" d = Some (PBool false).
Proof.
  unfold get_ddl_body. mstep.
  destruct (get_db_connector cs db w) as [[e|k] w0];
    [eexists _, _; split; reflexivity|].
  destruct (connect k cs w0) as [[e|b] w1];
    [eexists _, _; split; reflexivity|].
  destruct (get_ddl k recursion_limit cs (CStr object_name) object_type w1)
    as [[e|ddl] w2]; [eexists _, _; split; reflexivity|].
  destruct (disconnect w2) as [[e|[]] w3]; eexists _, _; split; reflexivity.
Qed.

(** ** The decorator *)

Lemma set_redis_same w : redis_faults w = [] -> set_redis (redis_data w) [] w = w.
Proof. destruct w. cbn. intros ->. reflexivity. Qed.

(** A healthy store that does not hold the key: the function is called, its
    dictionary is returned as it is and written to the store. *)
Lemma redis_cache_miss name func args ttl w d wf :
  redis_faults w = [] ->
  redis_data w !! cache_key name args = None ->
  0 < ttl ->
  func args w = (inr (PDict d), wf) ->
  same_store w wf ->
  pv_truthy (PDict d) = true ->
  redis_cache name func args true ttl w =
  (inr (PDict d),
   set_redis (<[cache_key name args :=
                  (clock w + ttl,
                   json_dumps (PDict (dict_set "cached" (PBool false) d)))]>
                (redis_data w)) [] wf).
Proof.
  intros Hf Hk Httl Hrun (Hd & Hfl & Hcl) Htruthy.
  destruct w as [l c sc rd rf cl]. cbn in Hf, Hk, Hd, Hfl, Hcl |- *. subst rf.
  unfold redis_cache. cbn [negb]. unfold cache_lookup, redis_get, next_fault.
  mstep. rewrite Hk. mstep. rewrite Hrun.
  rewrite cache_store_healthy by assumption.
  unfold set_redis. rewrite Htruthy, Hd, Hcl. reflexivity.
Qed.

(** A healthy store that holds an unexpired dictionary under the key: it is
    returned with [cached] set, and the function is not called. *)
Lemma redis_cache_hit name func args ttl w expiry d :
  redis_faults w = [] ->
  redis_data w !! cache_key name args = Some (expiry, json_dumps (PDict d)) ->
  clock w < expiry ->
  redis_cache name func args true ttl w =
  (inr (PDict (dict_set "cached" (PBool true) (jsonify_items d))), w).
Proof.
  intros Hf Hk Hexp.
  destruct w as [l c sc rd rf cl]. cbn in Hf, Hk, Hexp |- *. subst rf.
  unfold redis_cache. cbn [negb]. unfold cache_lookup, redis_get, next_fault.
  mstep. rewrite Hk. replace (cl <? expiry) with true by lia.
  cbn [wire_truthy json_dumps json_loads].
  change (of_json (to_json (PDict d))) with (jsonify (PDict d)).
  rewrite jsonify_dict. reflexivity.
Qed.

(** What two successive cached calls of a function do, on a store that is
    healthy and does not hold the key, the second call coming [dt] seconds
    after the first and within the time to live. *)
Lemma redis_cache_twice name func args ttl dt w0 d wf :
  redis_faults w0 = [] ->
  redis_data w0 !! cache_key name args = None ->
  0 < ttl -> 0 <= dt < ttl ->
  func args w0 = (inr (PDict d), wf) ->
  same_store w0 wf ->
  pv_truthy (PDict d) = true ->
  let stored := dict_set "cached" (PBool false) d in
  let w1 := set_redis (<[cache_key name args :=
                           (clock w0 + ttl, json_dumps (PDict stored))]>
                         (redis_data w0)) [] wf in
  redis_cache name func args true ttl w0 = (inr (PDict d), w1) /\
  redis_cache name func args true ttl (tick dt w1)
  = (inr (PDict (dict_set "cached" (PBool true) (jsonify_items stored))),
     tick dt w1).
Proof.
  intros Hf Hk Httl Hdt Hrun Hst Htruthy stored w1. split.
  - apply redis_cache_miss; assumption.
  - apply (redis_cache_hit name func args ttl (tick dt w1) (clock w0 + ttl) stored).
    + reflexivity.
    + cbn. apply lookup_insert_eq.
    + destruct Hst as (_ & _ & Hcl). cbn. lia.
Qed.

(** ** The claims about caching *)

(** C2 (amended). On a healthy store that is empty, with a positive time to
    live, two successive calls of [execute_query_with_cache] with the same
    arguments, the second within the time to live: both return a dictionary.
    The first invokes the connector methods of [first_call_methods] and no
    other: none at all, and nothing of the driver, when the dialect tag is not
    supported; otherwise [connect] exactly once, [execute_query] exactly once
    when [connect] returns and not at all when it raises, [disconnect] exactly
    once when [execute_query] returns and not at all otherwise.  The second
    calls no connector method and asks the driver nothing.  The second result
    has [cached] true and, the [cached] entry apart, is the first result after
    a trip through json with [default=str], which is the first result itself
    when its cells are [None], booleans, integers and strings. *)
Theorem cached_query_runs_once cs db q ttl dt w0 :
  redis_data w0 = ∅ -> redis_faults w0 = [] -> 0 < ttl -> 0 <= dt < ttl ->
  exists d1 w1 d2 w2,
    execute_query_with_cache cs db q true ttl w0 = (inr (PDict d1), w1) /\
    execute_query_with_cache cs db q true ttl (tick dt w1)
    = (inr (PDict d2), w2) /\
    calls w1 = calls w0 ++ first_call_methods cs db q w0 /\
    (supported db = false ->
     calls w1 = calls w0 /\ driver_log w1 = driver_log w0) /\
    method_calls M_connect (calls w1)
    = (method_calls M_connect (calls w0) + (if supported db then 1 else 0))%nat /\
    (method_calls M_execute_query (calls w1)
     <= method_calls M_execute_query (calls w0) + 1)%nat /\
    calls w2 = calls w1 /\ driver_log w2 = driver_log w1 /\
    dict_get "cached" d1 = Some (PBool false) /\
    dict_get "cached" d2 = Some (PBool true) /\
    dict_without "cached" d2 = jsonify_items (dict_without "cached" d1) /\
    (json_native (PDict d1) = true ->
     dict_without "cached" d2 = dict_without "cached" d1).
Proof.
  intros Hempty Hf Httl Hdt.
  destruct (execute_query_body_outcome cs db q w0)
    as (d & wf & Hrun & Hst & Hshape & Hconn & Hexec).
  destruct (execute_query_body_methods cs db q w0) as [Hmethods Hnone].
  rewrite Hrun in Hmethods, Hnone. cbn [snd] in Hmethods, Hnone.
  assert (Htruthy : pv_truthy (PDict d) = true)
    by (destruct Hshape as [[r ->]|[e ->]]; reflexivity).
  assert (Hcached : dict_get "cached" d = Some (PBool false))
    by (destruct Hshape as [[r ->]|[e ->]]; reflexivity).
  destruct (redis_cache_twice "execute_query_with_cache" execute_query_body
              [cs; db; q] ttl dt w0 d wf Hf) as [H1 H2]; auto.
  { rewrite Hempty. apply lookup_empty. }
  unfold execute_query_with_cache. rewrite H1.
  eexists _, _, _, _. split; [reflexivity|]. split; [exact H2|].
  cbn [calls driver_log set_redis tick].
  split; [exact Hmethods|].
  split; [intros Hn; rewrite (Hnone Hn); split; reflexivity|].
  repeat split; auto.
  - apply dict_get_set.
  - rewrite dict_without_set, dict_without_jsonify, dict_without_set.
    reflexivity.
  - intros Hn. rewrite dict_without_set, dict_set_jsonify, dict_without_set.
    rewrite (jsonify_items_native d Hn). reflexivity.
Qed.

(** C10. With the cache enabled, on a healthy empty store and a positive time
    to live: when [execute_query_with_cache] returns an error dictionary, that
    dictionary is in the store under the key of the call, and the same call
    made again within the time to live returns it with [cached] true, without
    calling a connector method or the driver. *)
Theorem error_results_are_cached cs db q ttl dt w0 d1 w1 :
  redis_data w0 = ∅ -> redis_faults w0 = [] -> 0 < ttl -> 0 <= dt < ttl ->
  execute_query_with_cache cs db q true ttl w0 = (inr (PDict d1), w1) ->
  dict_get "status" d1 = Some (PStr "error") ->
  redis_data w1 !! cache_key "execute_query_with_cache" [cs; db; q]
  = Some (clock w0 + ttl, json_dumps (PDict d1)) /\
  exists w2,
    execute_query_with_cache cs db q true ttl (tick dt w1)
    = (inr (PDict (dict_set "cached" (PBool true) d1)), w2) /\
    calls w2 = calls w1 /\ driver_log w2 = driver_log w1.
Proof.
  intros Hempty Hf Httl Hdt Hcall Hstatus.
  destruct (execute_query_body_outcome cs db q w0)
    as (d & wf & Hrun & Hst & Hshape & _).
  assert (Htruthy : pv_truthy (PDict d) = true)
    by (destruct Hshape as [[r ->]|[e ->]]; reflexivity).
  destruct (redis_cache_twice "execute_query_with_cache" execute_query_body
              [cs; db; q] ttl dt w0 d wf Hf) as [H1 H2]; auto.
  { rewrite Hempty. apply lookup_empty. }
  unfold execute_query_with_cache in *. rewrite H1 in Hcall.
  injection Hcall as Hd Hw. subst d1.
  destruct Hshape as [[r ->]|[e ->]]; [discriminate Hstatus|].
  subst w1. split.
  - cbn. apply lookup_insert_eq.
  - eexists. split; [exact H2|]. split; reflexivity.
Qed.

(** C9. With the cache enabled, for every wrapped function: a failing read
    is a miss; on a miss the call ends exactly as the function ends, whatever
    the store does on the write, so no error of the store reaches the caller;
    a failing write stores nothing and the result of the function is returned
    unchanged.  The two service functions return [cached] false in their own
    results. *)
Theorem cache_failures_do_not_propagate name func args ttl w :
  let key := cache_key name args in
  (forall rest, redis_faults w = true :: rest ->
     cache_lookup key w = (inr None, set_redis (redis_data w) rest w)) /\
  (forall w1, cache_lookup key w = (inr None, w1) ->
     fst (redis_cache name func args true ttl w) = fst (func args w1)) /\
  (forall w1 result w2 rest,
     cache_lookup key w = (inr None, w1) ->
     func args w1 = (inr result, w2) ->
     redis_faults w2 = true :: rest ->
     exists w3,
       redis_cache name func args true ttl w = (inr result, w3) /\
       redis_data w3 = redis_data w2) /\
  (forall cs db q w0,
     exists d w', execute_query_body [cs; db; q] w0 = (inr (PDict d), w') /\
                  dict_get "cached" d = Some (PBool false)) /\
  (forall cs db object_name object_type w0,
     exists d w',
       get_ddl_body [cs; db; object_name; object_type] w0 = (inr (PDict d), w') /\
       dict_get "cached" d = Some (PBool false)).
Proof.
  cbv zeta. repeat split.
  - intros rest Hf. apply cache_lookup_fault, Hf.
  - intros w1 Hmiss. unfold redis_cache. cbn [negb]. mstep. rewrite Hmiss.
    destruct (func args w1) as [[e|result] w2]; [reflexivity|].
    destruct (cache_store_total (cache_key name args) ttl result w2)
      as (w3 & -> & _). reflexivity.
  - intros w1 result w2 rest Hmiss Hrun Hf.
    unfold redis_cache. cbn [negb]. mstep. rewrite Hmiss, Hrun.
    unfold cache_store, redis_setex, next_fault.
    destruct (pv_truthy result) eqn:Ht;
      [destruct result as [c|l|d]|]; mstep; rewrite ?Hf;
      eexists; split; reflexivity.
  - intros cs db q w0.
    destruct (execute_query_body_outcome cs db q w0)
      as (d & w' & Hrun & _ & Hshape & _).
    exists d, w'. split; [exact Hrun|].
    destruct Hshape as [[r ->]|[e ->]]; reflexivity.
  - intros cs db object_name object_type w0.
    apply get_ddl_body_outcome.
Qed.

End WithEnv.
End ServiceFacts.

Module ServiceExamples.
Import Py Runtime Connectors Cache Service Scenarios Statements ServiceFacts.

(** C2, counterexample.  (1) A query whose result holds a decimal: the second
    call returns the text 12.50 where the first returned the decimal, so the
    two results differ beyond the [cached] flag.  (2) An unsupported dialect
    tag: no connector method is called at all.  (3) A time to live of zero:
    the store refuses the write, and the second call connects again.  (4) A
    server that refuses the connection: [connect] is the only connector method
    called, [execute_query] is not called at all. *)
Lemma cached_result_not_value_equal :
  (match @execute_query_with_cache decimal_env "host=db dbname=shop" "postgres"
           "SELECT total FROM orders" true 3600 fresh_world with
   | (inr (PDict d1), w1) =>
       match @execute_query_with_cache decimal_env "host=db dbname=shop"
               "postgres" "SELECT total FROM orders" true 3600 w1 with
       | (inr (PDict d2), _) =>
           dict_get "cached" d2 = Some (PBool true) /\
           dict_without "cached" d2 <> dict_without "cached" d1
       | _ => False
       end
   | _ => False
   end) /\
  (let w1 := snd (@execute_query_with_cache decimal_env "host=db dbname=shop"
                    "mysql" "SELECT 1" true 3600 fresh_world) in
   let w2 := snd (@execute_query_with_cache decimal_env "host=db dbname=shop"
                    "mysql" "SELECT 1" true 3600 w1) in
   calls w2 = []) /\
  (let w1 := snd (@execute_query_with_cache decimal_env "host=db dbname=shop"
                    "postgres" "SELECT total FROM orders" true 0 fresh_world) in
   let w2 := snd (@execute_query_with_cache decimal_env "host=db dbname=shop"
                    "postgres" "SELECT total FROM orders" true 0 w1) in
   method_calls M_connect (calls w2) = 2%nat) /\
  (let w1 := snd (@execute_query_with_cache refusing_env "host=db dbname=shop"
                    "postgres" "SELECT total FROM orders" true 3600
                    fresh_world) in
   calls w1 = [M_connect] /\ method_calls M_execute_query (calls w1) = 0%nat).
Proof.
  split; [|repeat split; vm_compute; reflexivity].
  vm_compute. split; [reflexivity|]. intros Heq. discriminate Heq.
Qed.

Lemma cached_query_runs_once_witness :
  exists d1 w1 d2 w2,
    @execute_query_with_cache decimal_env "host=db dbname=shop" "postgres"
      "SELECT total FROM orders" true 3600 fresh_world = (inr (PDict d1), w1) /\
    @execute_query_with_cache decimal_env "host=db dbname=shop" "postgres"
      "SELECT total FROM orders" true 3600 (tick 60 w1) = (inr (PDict d2), w2) /\
    calls w1 = [M_connect; M_execute_query; M_disconnect] /\
    calls w2 = calls w1 /\ driver_log w2 = driver_log w1 /\
    dict_get "cached" d2 = Some (PBool true) /\
    dict_without "cached" d2 = jsonify_items (dict_without "cached" d1).
Proof.
  destruct (@cached_query_runs_once decimal_env "host=db dbname=shop" "postgres"
              "SELECT total FROM orders" 3600 60 fresh_world)
    as (d1 & w1 & d2 & w2 & H1 & H2 & Hm & _ & _ & _ & Hc & Hl & _ & Ht & Hw & _);
    [reflexivity | reflexivity | lia | lia |].
  exists d1, w1, d2, w2. repeat split; assumption.
Defined.

Lemma error_results_are_cached_witness :
  exists w2,
    @execute_query_with_cache failing_env "host=db dbname=shop" "postgres"
      "SELEC 1" true 3600
      (tick 60 (snd (@execute_query_with_cache failing_env "host=db dbname=shop"
                       "postgres" "SELEC 1" true 3600 fresh_world)))
    = (inr (PDict (dict_set "cached" (PBool true)
                     (error_result "syntax error at or near SELEC" "SELEC 1"
                        "postgres"))), w2).
Proof.
  destruct (@error_results_are_cached failing_env "host=db dbname=shop"
              "postgres" "SELEC 1" 3600 60 fresh_world
              (error_result "syntax error at or near SELEC" "SELEC 1" "postgres")
              (snd (@execute_query_with_cache failing_env "host=db dbname=shop"
                      "postgres" "SELEC 1" true 3600 fresh_world)))
    as (_ & w2 & H2 & _);
    [reflexivity | reflexivity | lia | lia | vm_compute; reflexivity
    | reflexivity |].
  exists w2. exact H2.
Defined.

Lemma cache_failures_do_not_propagate_witness :
  fst (@redis_cache decimal_env "execute_query_with_cache"
         (@execute_query_body decimal_env)
         ["host=db dbname=shop"; "postgres"; "SELECT total FROM orders"]
         true 3600 store_down_world)
  = fst (@execute_query_body decimal_env
           ["host=db dbname=shop"; "postgres"; "SELECT total FROM orders"]
           (set_redis ∅ [true] store_down_world)).
Proof.
  apply (@cache_failures_do_not_propagate decimal_env
           "execute_query_with_cache" (@execute_query_body decimal_env)
           ["host=db dbname=shop"; "postgres"; "SELECT total FROM orders"]
           3600 store_down_world).
  vm_compute. reflexivity.
Defined.

(** C3, the failing input.  The server accepts the connection and rejects
    the statement: the call returns the error dictionary, [disconnect] was
    never called, and the handle opened by the call is still open.  The same
    happens in [get_ddl_with_cache] when [get_ddl] raises. *)
Theorem failed_query_leaves_connection_open :
  (let out := @execute_query_with_cache failing_env "host=db dbname=shop"
                "postgres" "SELEC 1" false 3600 fresh_world in
   fst out = inr (PDict (error_result "syntax error at or near SELEC"
                           "SELEC 1" "postgres")) /\
   calls (snd out) = [M_connect; M_execute_query] /\
   open_handles (driver_log (snd out)) [] = [0%nat]) /\
  (let out := @get_ddl_with_cache failing_env "DSN=warehouse" "fabric"
                "orders" "view" false 3600 fresh_world in
   (exists d, fst out = inr (PDict d) /\
              dict_get "status" d = Some (PStr "error")) /\
   calls (snd out) = [M_connect; M_get_ddl; M_execute_query] /\
   open_handles (driver_log (snd out)) [] = [0%nat]).
Proof.
  split; vm_compute; repeat split. eexists. split; reflexivity.
Qed.

End ServiceExamples.

(* ===================================================================== *)
(** * Properties of the PostgreSQL table lookup                            *)
(* ===================================================================== *)

Module PostgresFacts.
Import Py Runtime Connectors Scenarios Statements StringFacts ConnectorFacts.

Section WithEnv.
Context `{Env}.

Lemma pg_resolve_is_chain cs name w :
  pg_resolve cs (CStr name) w = fallback_chain cs name w.
Proof.
  unfold pg_resolve, fallback_chain. cbn [first_match cell_lower py_str]. mstep.
  destruct (Postgres_execute_query cs (pg_exists_query name) w)
    as [[e|r1] w1]; [reflexivity|].
  destruct (pg_exists r1); cbn [negb]; [reflexivity|]. mstep.
  destruct (Postgres_execute_query cs (pg_exists_query (lower name)) w1)
    as [[e|r2] w2]; [reflexivity|].
  destruct (pg_exists r2); [reflexivity|]. mstep.
  destruct (Postgres_execute_query cs (pg_exists_query ("public." +:+ name)) w2)
    as [[e|r3] w3]; [reflexivity|].
  destruct (pg_exists r3); [reflexivity|]. mstep.
  destruct (Postgres_execute_query cs
              (pg_exists_query ("public." +:+ lower name)) w3)
    as [[e|r4] w4]; [reflexivity|].
  destruct (pg_exists r4); reflexivity.
Qed.

(** A query that returns has been answered by the driver: the result is built
    from that answer, and the execution is the last driver event. *)
Lemma Postgres_execute_query_answer cs q w r w' :
  Postgres_execute_query cs q w = (inr r, w') ->
  exists log h c,
    drv_execute log h q = inr c /\
    driver_log w' = log ++ [EvExecute h q true] /\
    r = pg_result_of c.
Proof.
  unfold Postgres_execute_query, Postgres_connect, pg_result_of. mstep.
  destruct (self_connection w) as [h|]; mstep.
  - destruct (drv_execute (driver_log w) h q) as [msg|c] eqn:Ed; [discriminate|].
    destruct (has_result_set c) eqn:Eh; intros Heq; injection Heq as <- <-;
      exists (driver_log w), h, c; rewrite Eh, ?length_map; auto.
  - destruct (_parse_connection_string cs) as [e|params]; [discriminate|].
    destruct (drv_connect (driver_log w) (PgConnect params)); [discriminate|].
    cbn [self_connection].
    destruct (drv_execute _ _ q) as [msg|c] eqn:Ed; [discriminate|].
    destruct (has_result_set c) eqn:Eh; intros Heq; injection Heq as <- <-;
      eexists _, _, c; rewrite Eh, ?length_map;
      repeat split; first [exact Ed | reflexivity].
Qed.

Lemma tabledef_answer_outcome cs n w r w' first rest v :
  Postgres_execute_query cs (pg_tabledef_query n) w = (inr r, w') ->
  data r = first :: rest ->
  getitem first "ddl" = inr v ->
  table_lookup_outcome v w'.
Proof.
  intros Hq Hd Hv. left.
  destruct (Postgres_execute_query_answer _ _ _ _ _ Hq) as (log & h & c & Hc & Hl & ->).
  exists log, h, n, c, first, rest. auto.
Qed.

Lemma pg_fetch_tabledef_outcome cs name w v w' :
  pg_fetch_tabledef cs name w = (inr v, w') -> table_lookup_outcome v w'.
Proof.
  unfold pg_fetch_tabledef. mstep.
  destruct (Postgres_execute_query cs (pg_tabledef_query (py_str name)) w)
    as [[e|r] w1] eqn:Eq; [discriminate|].
  destruct (data r) as [|first rest] eqn:Ed.
  - intros Heq. injection Heq as <- <-. right. left. eexists. reflexivity.
  - destruct (getitem first "ddl") as [e|v0] eqn:Ev; [discriminate|].
    intros Heq. injection Heq as <- <-.
    eapply tabledef_answer_outcome; eauto.
Qed.

(** The handler returns a value in every case. *)
Lemma pg_table_fallback_outcome cs name e w :
  exists v w', pg_table_fallback cs name e w = (inr v, w') /\
               table_lookup_outcome v w'.
Proof.
  unfold pg_table_fallback. mstep.
  destruct (cell_lower name) as [e0|search_name];
    [eexists _, _; split; [reflexivity|]; do 3 right; eexists; reflexivity|].
  match goal with
  | |- context [Postgres_execute_query cs ?q w] =>
      destruct (Postgres_execute_query cs q w) as [[e1|case_result] w1]
  end; [eexists _, _; split; [reflexivity|]; do 3 right; eexists; reflexivity|].
  destruct (data case_result) as [|first rest];
    [eexists _, _; split; [reflexivity|]; do 2 right; left;
     eexists _, _; reflexivity|].
  destruct (getitem first "full_name") as [e2|actual];
    [eexists _, _; split; [reflexivity|]; do 3 right; eexists; reflexivity|].
  destruct (Postgres_execute_query cs (pg_tabledef_query (py_str actual)) w1)
    as [[e3|table_ddl] w2] eqn:Eq;
    [eexists _, _; split; [reflexivity|]; do 3 right; eexists; reflexivity|].
  destruct (data table_ddl) as [|row0 rest0] eqn:Ed;
    [eexists _, _; split; [reflexivity|]; do 2 right; left;
     eexists _, _; reflexivity|].
  destruct (getitem row0 "ddl") as [e4|v] eqn:Ev;
    [eexists _, _; split; [reflexivity|]; do 3 right; eexists; reflexivity|].
  eexists _, _; split; [reflexivity|].
  eapply tabledef_answer_outcome; eauto.
Qed.

Lemma Postgres_table_ddl_outcome cs name w :
  exists v w', Postgres_table_ddl cs name w = (inr v, w') /\
               table_lookup_outcome v w'.
Proof.
  unfold Postgres_table_ddl. mstep.
  destruct (pg_resolve cs name w) as [[e|resolved] w1].
  - apply pg_table_fallback_outcome.
  - destruct (pg_fetch_tabledef cs resolved w1) as [[e|v] w2] eqn:Ef.
    + apply pg_table_fallback_outcome.
    + eexists _, _. split; [reflexivity|].
      eapply pg_fetch_tabledef_outcome, Ef.
Qed.

Lemma create_tabledef_function_total cs w :
  exists w', _create_tabledef_function cs w = (inr tt, w').
Proof.
  unfold _create_tabledef_function. mstep.
  destruct (Postgres_execute_query cs pg_create_function_query w)
    as [[e|r] w1]; eexists; reflexivity.
Qed.

(** ** The lookup of the code and the lookup of the specification *)

Lemma lower_ascii_idempotent a : lower_ascii (lower_ascii a) = lower_ascii a.
Proof. destruct a as [[] [] [] [] [] [] [] []]; reflexivity. Qed.

Lemma lower_idempotent s : lower (lower s) = lower s.
Proof.
  induction s as [|a r IH]; [reflexivity|].
  cbn [lower]. rewrite lower_ascii_idempotent, IH. reflexivity.
Qed.

(** The two parts of a lower-cased text are lower-cased. *)
Lemma split_once_lowered sep s a b :
  split_once sep (lower s) = (a, Some b) -> lower a = a /\ lower b = b.
Proof.
  revert a b. induction s as [|x r IH]; intros a b; cbn [lower split_once].
  - discriminate.
  - destruct (Ascii.eqb (lower_ascii x) sep).
    + intros Heq. injection Heq as <- <-. split; [reflexivity|].
      apply lower_idempotent.
    + destruct (split_once sep (lower r)) as [h t] eqn:Er.
      intros Heq. injection Heq as <- ->.
      destruct (IH h b eq_refl) as [Hh Hb]. split; [|exact Hb].
      cbn [lower]. rewrite lower_ascii_idempotent, Hh. reflexivity.
Qed.

(** A text without the separator is not split. *)
Lemma split_once_without sep s :
  contains (String sep "") s = false -> snd (split_once sep s) = None.
Proof.
  induction s as [|x r IH]; [reflexivity|].
  cbn [contains is_prefix split_once].
  rewrite Ascii.eqb_sym.
  destruct (Ascii.eqb x sep); [discriminate|].
  cbn [andb orb]. intros Hr. specialize (IH Hr).
  destruct (split_once sep r) as [h t]. exact IH.
Qed.

(** The chain ends with a text. *)
Lemma first_match_text cs candidates name w found w' :
  first_match cs candidates (CStr name) w = (inr found, w') ->
  exists n, found = CStr n.
Proof.
  revert w. induction candidates as [|c rest IH]; intros w; cbn [first_match].
  - mstep. intros Heq. injection Heq as <- _. eexists. reflexivity.
  - mstep.
    destruct (Postgres_execute_query cs (pg_exists_query c) w)
      as [[e|probe] w1]; [discriminate|].
    destruct (pg_exists probe); [|apply IH].
    intros Heq. injection Heq as <- _. eexists. reflexivity.
Qed.

Lemma create_tabledef_function_is_ensure cs w :
  _create_tabledef_function cs w = ensure_tabledef_function cs w.
Proof.
  unfold _create_tabledef_function, ensure_tabledef_function. mstep.
  destruct (Postgres_execute_query cs pg_create_function_query w)
    as [[e|r] w1]; reflexivity.
Qed.

Lemma pg_fetch_tabledef_is_query cs n w :
  pg_fetch_tabledef cs (CStr n) w =
  (ddl <- tabledef_of cs n ;;
   ret (match ddl with
        | Some text => text
        | None => CStr ("-- Table " +:+ n +:+ " definition not found")
        end)) w.
Proof.
  unfold pg_fetch_tabledef, tabledef_of. cbn [py_str]. mstep.
  destruct (Postgres_execute_query cs (pg_tabledef_query n) w)
    as [[e|r] w1]; [reflexivity|].
  destruct (data r) as [|first rest]; [reflexivity|].
  destruct (getitem first "ddl"); reflexivity.
Qed.

Lemma pg_table_fallback_is_recovery cs n e w :
  pg_table_fallback cs (CStr n) e w = recovered_table_ddl cs n e w.
Proof.
  unfold pg_table_fallback, recovered_table_ddl, case_insensitive_lookup,
    tabledef_of.
  cbn [cell_lower py_str]. mstep.
  assert (Hq : (if contains "." (lower n)
                then match split_once "." (lower n) with
                     | (schema, Some name) =>
                         pg_case_query_qualified (lower schema) (lower name)
                     | (_, None) => pg_case_query (lower n)
                     end
                else pg_case_query (lower n))
               = match split_once "." (lower n) with
                 | (schema, Some table) => pg_case_query_qualified schema table
                 | (_, None) => pg_case_query (lower n)
                 end).
  { destruct (contains "." (lower n)) eqn:Ec.
    - destruct (split_once "." (lower n)) as [schema [table|]] eqn:Es;
        [|reflexivity].
      destruct (split_once_lowered _ _ _ _ Es) as [-> ->]. reflexivity.
    - pose proof (split_once_without "." (lower n) Ec) as Hs.
      destruct (split_once "." (lower n)) as [schema [table|]];
        [discriminate Hs | reflexivity]. }
  rewrite Hq.
  match goal with
  | |- context [Postgres_execute_query cs ?q w] =>
      destruct (Postgres_execute_query cs q w) as [[e1|case_result] w1]
  end; [reflexivity|].
  destruct (data case_result) as [|first rest]; [reflexivity|].
  destruct (getitem first "full_name") as [e2|actual]; [reflexivity|].
  destruct (Postgres_execute_query cs (pg_tabledef_query (py_str actual)) w1)
    as [[e3|table_ddl] w2]; [reflexivity|].
  destruct (data table_ddl) as [|row0 rest0]; [reflexivity|].
  destruct (getitem row0 "ddl"); reflexivity.
Qed.

(** The lookup of the code is the lookup of the specification. *)
Lemma Postgres_table_ddl_is_lookup cs name w :
  Postgres_table_ddl cs (CStr name) w = table_lookup cs name w.
Proof.
  unfold Postgres_table_ddl, table_lookup. mstep.
  rewrite pg_resolve_is_chain.
  destruct (fallback_chain cs name w) as [[e|found] w1] eqn:Ec.
  - apply pg_table_fallback_is_recovery.
  - destruct (first_match_text _ _ _ _ _ _ Ec) as [n ->]. cbn [py_str].
    rewrite pg_fetch_tabledef_is_query. mstep.
    destruct (tabledef_of cs n w1) as [[e|ddl] w2].
    + apply pg_table_fallback_is_recovery.
    + reflexivity.
Qed.

(** C6 (amended). For a table name of ASCII characters other than '*',
    [get_ddl] of the PostgreSQL connector with kind table is the lookup of
    the specification, after the helper function has been asked for:
    (1) the name is resolved by the chain exact name, lowercased name,
    public.name, public.lowercased name, the first match winning and the name
    kept when none matches; (2) the DDL query is run on the resolved name and
    its first row is the result, the comment "-- Table ... definition not
    found" when it has no row; (3) when a probe or the DDL query raises, the
    case-insensitive lookup across pg_tables recovers a qualified name and the
    DDL query is run again with it, the result being the comment
    "-- Table '...' not found. Error: ..." when the lookup or the retry has no
    row and "-- Error getting table definition: ..." when either raises;
    (4) a value is returned in every case, never an exception. *)
Theorem postgres_table_lookup depth cs name object_type w :
  ascii_only name = true -> name <> "*" -> lower object_type = "table" ->
  get_ddl PostgresConnector (S depth) cs (CStr name) object_type w
  = (called M_get_ddl ;;; ensure_tabledef_function cs ;;; table_lookup cs name) w
  /\
  exists v w',
    get_ddl PostgresConnector (S depth) cs (CStr name) object_type w
    = (inr v, w') /\
    table_lookup_outcome v w'.
Proof.
  intros _ Hname Htype.
  cbn [get_ddl Postgres_get_ddl]. rewrite Htype. cbn [String.eqb Ascii.eqb Bool.eqb].
  cbn [eq_str].
  replace (String.eqb name "*") with false
    by (symmetry; apply String.eqb_neq; exact Hname).
  mstep. rewrite create_tabledef_function_is_ensure.
  unfold ensure_tabledef_function at 1 2. cbn [fst snd].
  split; [unfold ensure_tabledef_function; apply Postgres_table_ddl_is_lookup|].
  apply Postgres_table_ddl_outcome.
Qed.

End WithEnv.

Lemma postgres_table_lookup_witness :
  @get_ddl mixed_case_env PostgresConnector 1 "host=db dbname=shop"
    (CStr "ORDERS") "table" fresh_world
  = (called M_get_ddl ;;;
     @ensure_tabledef_function mixed_case_env "host=db dbname=shop" ;;;
     @table_lookup mixed_case_env "host=db dbname=shop" "ORDERS") fresh_world
  /\
  exists v w',
    @get_ddl mixed_case_env PostgresConnector 1 "host=db dbname=shop"
      (CStr "ORDERS") "table" fresh_world = (inr v, w') /\
    @table_lookup_outcome mixed_case_env v w'.
Proof.
  apply (@postgres_table_lookup mixed_case_env 0 "host=db dbname=shop"
           "ORDERS" "table" fresh_world).
  - reflexivity.
  - discriminate.
  - reflexivity.
Defined.

(** The case-insensitive recovery at work: no probe finds ORDERS, the DDL
    query raises, the lookup in pg_tables recovers public.Orders and the DDL
    query on that name succeeds. *)
Example mixed_case_table_is_recovered :
  fst (@get_ddl mixed_case_env PostgresConnector 1 "host=db dbname=shop"
         (CStr "ORDERS") "table" fresh_world)
  = inr (CStr "CREATE TABLE public.Orders (...);").
Proof. vm_compute. reflexivity. Qed.

(** C6, counterexample: the account cannot create [pg_get_tabledef].  The
    table exists and is found, every DDL query raises, and the text returned
    is an error comment that does not say "not found". *)
Lemma table_lookup_error_comment :
  fst (@get_ddl readonly_env PostgresConnector 1 "host=db dbname=shop"
         (CStr "orders") "table" fresh_world)
  = inr (CStr "-- Error getting table definition: function pg_get_tabledef(oid) does not exist")
  /\ contains "not found"
       "-- Error getting table definition: function pg_get_tabledef(oid) does not exist"
     = false.
Proof. split; vm_compute; reflexivity. Qed.

End PostgresFacts.

(* ===================================================================== *)
(** * Properties of the ODBC wildcard DDL                                  *)
(* ===================================================================== *)

Module OdbcFacts.
Import Py Runtime Connectors Scenarios Statements StringFacts ConnectorFacts.

Section WithEnv.
Context `{Env}.

(** ** The shape of one block *)

Lemma odbc_column_lines_extends cols acc r :
  odbc_column_lines cols acc = inr r -> exists t, r = acc +:+ t.
Proof.
  revert acc. induction cols as [|col cols IH]; intros acc Hr; cbn in Hr.
  - injection Hr as <-. exists "". symmetry. apply append_nil_r.
  - destruct (odbc_column_line col _) as [e|line]; [discriminate|].
    destruct (IH _ Hr) as [t ->]. exists (line +:+ t). apply append_assoc.
Qed.

Lemma odbc_pk_statement_shaped name pk_rows ddl r :
  odbc_pk_statement name pk_rows ddl = inr r ->
  statement_shaped ddl -> statement_shaped r.
Proof.
  unfold odbc_pk_statement. destruct pk_rows as [|first rest].
  - intros Hr. injection Hr as <-. auto.
  - destruct (column_of "column_name" (first :: rest)); [discriminate|].
    destruct (join_cells ", " _); [discriminate|].
    destruct (getitem first "index_name"); [discriminate|].
    intros Hr Hs. injection Hr as <-.
    apply statement_shaped_app; [exact Hs|].
    repeat apply ends_with_semicolon_app. apply ends_with_semicolon_paren.
Qed.

Lemma odbc_fk_statements_shaped fk_dict ddl r :
  odbc_fk_statements fk_dict ddl = inr r ->
  statement_shaped ddl -> statement_shaped r.
Proof.
  revert ddl. induction fk_dict as [|kv fk_dict IH]; intros ddl Hr Hs; cbn in Hr.
  - injection Hr as <-. exact Hs.
  - destruct (odbc_fk_statement ddl kv) as [e|ddl'] eqn:Est; [discriminate|].
    apply (IH ddl' Hr).
    unfold odbc_fk_statement in Est.
    destruct kv as [fk_name [[[parent_table referenced_table] pcs] rcs]].
    destruct (join_cells ", " pcs); [discriminate|].
    destruct (join_cells ", " rcs); [discriminate|].
    injection Est as <-.
    apply statement_shaped_app; [exact Hs|].
    repeat apply ends_with_semicolon_app. apply ends_with_semicolon_paren.
Qed.

Lemma odbc_fk_part_shaped fk_rows ddl r :
  odbc_fk_part fk_rows ddl = inr r ->
  statement_shaped ddl -> statement_shaped r.
Proof.
  unfold odbc_fk_part. destruct fk_rows as [|first rest].
  - intros Hr. injection Hr as <-. auto.
  - destruct (odbc_fk_groups (first :: rest) []); [discriminate|].
    apply odbc_fk_statements_shaped.
Qed.

(** The DDL of one table begins with CREATE and ends with a semicolon. *)
Lemma ODBC_table_ddl_shaped cs name w v w' :
  ODBC_table_ddl cs name w = (inr v, w') ->
  exists s, v = CStr s /\ statement_shaped s.
Proof.
  unfold ODBC_table_ddl. mstep.
  destruct (ODBC_execute_query cs (odbc_columns_query (py_str name)) w)
    as [[e|columns_info] w1]; [discriminate|].
  destruct (odbc_column_lines (data columns_info) _) as [e|ddl0] eqn:Ecols;
    [discriminate|].
  destruct (ODBC_execute_query cs (odbc_pk_query (py_str name)) w1)
    as [[e|pk_info] w2]; [discriminate|].
  destruct (odbc_pk_statement (py_str name) (data pk_info) _) as [e|ddl2] eqn:Epk;
    [discriminate|].
  destruct (ODBC_execute_query cs (odbc_fk_query (py_str name)) w2)
    as [[e|fk_info] w3]; [discriminate|].
  destruct (odbc_fk_part (data fk_info) ddl2) as [e|ddl3] eqn:Efk;
    [discriminate|].
  intros Heq. injection Heq as <- <-. exists ddl3. split; [reflexivity|].
  apply (odbc_fk_part_shaped _ _ _ Efk).
  apply (odbc_pk_statement_shaped _ _ _ _ Epk).
  destruct (odbc_column_lines_extends _ _ _ Ecols) as [t ->].
  change ("CREATE TABLE " +:+ py_str name +:+ " (" +:+ nl)
    with (String "C" ("REATE TABLE " +:+ py_str name +:+ " (" +:+ nl)).
  rewrite append_cons.
  apply statement_shaped_start.
  repeat apply ends_with_semicolon_app. apply ends_with_semicolon_paren.
Qed.

(** [get_ddl] of a name other than '*' with kind table is the single-table
    branch, at every depth. *)
Lemma ODBC_get_ddl_named_table depth cs name w :
  eq_str name "*" = false ->
  ODBC_get_ddl (S depth) cs name "table" w
  = ODBC_table_ddl cs name (set_calls (calls w ++ [M_get_ddl]) w).
Proof. intros Hn. cbn. rewrite Hn. reflexivity. Qed.

Lemma table_blocks_shaped cs tables :
  forallb not_wildcard tables = true ->
  forall w blocks w',
    table_blocks cs tables w = (inr blocks, w') ->
    Forall statement_shaped blocks.
Proof.
  induction tables as [|table rest IH]; intros Hall w blocks w' Hrun.
  - cbn in Hrun. injection Hrun as <- _. constructor.
  - cbn [forallb] in Hall. apply andb_true_iff in Hall. destruct Hall as [Ht Hrest].
    cbn [table_blocks] in Hrun. unfold getitem, not_wildcard in *.
    destruct (dict_get "name" table) as [c|]; mstep; [|discriminate].
    apply negb_true_iff in Ht.
    rewrite (ODBC_get_ddl_named_table 0 cs c w Ht) in Hrun.
    destruct (ODBC_table_ddl cs c _) as [[e|v] w1] eqn:Et; [discriminate|].
    destruct (table_blocks cs rest w1) as [[e|bs] w2] eqn:Er; [discriminate|].
    injection Hrun as <- <-.
    destruct (ODBC_table_ddl_shaped _ _ _ _ _ Et) as (s & -> & Hs).
    constructor; [exact Hs | eapply IH; eauto].
Qed.

(** The loop of the wildcard branch collects the blocks in row order, each
    after a blank line. *)
Lemma wildcard_loop_blocks depth cs tables :
  forallb not_wildcard tables = true ->
  forall acc w,
    for_each
      (fun all_ddl table =>
         table_name <- lift (getitem table "name") ;;
         table_ddl <- ODBC_get_ddl (S depth) cs table_name "table" ;;
         ret (all_ddl +:+ nl +:+ nl +:+ py_str table_ddl))
      tables acc w
    = match table_blocks cs tables w with
      | (inr blocks, w') => (inr (acc +:+ after_blank_lines blocks), w')
      | (inl e, w') => (inl e, w')
      end.
Proof.
  induction tables as [|table rest IH]; intros Hall acc w.
  - cbn. rewrite append_nil_r. reflexivity.
  - cbn [forallb] in Hall. apply andb_true_iff in Hall. destruct Hall as [Ht Hrest].
    cbn [for_each table_blocks]. unfold getitem, not_wildcard in *.
    destruct (dict_get "name" table) as [c|]; mstep; [|reflexivity].
    apply negb_true_iff in Ht.
    rewrite (ODBC_get_ddl_named_table depth cs c w Ht),
            (ODBC_get_ddl_named_table 0 cs c w Ht).
    destruct (ODBC_table_ddl cs c _) as [[e|v] w1]; [reflexivity|].
    rewrite (IH Hrest).
    destruct (table_blocks cs rest w1) as [[e|bs] w2]; [reflexivity|].
    cbn [after_blank_lines]. rewrite !append_assoc. reflexivity.
Qed.

(** The wildcard branch on every catalog that lists no table named '*'.
    [get_ddl('*', 'table')] of the ODBC connector, once the catalog query has
    returned: with no row the result is the comment
    "-- No tables found in database"; with at least one row the result is the
    per-table DDL blocks in the order of the rows (the query asks for them
    ordered by name), one blank line between two blocks and no white space
    around the whole -- or the exception of the first block that raises. *)
Theorem odbc_wildcard_ddl depth cs object_type w tables w1 :
  lower object_type = "table" ->
  list_tables cs w = (inr tables, w1) ->
  forallb not_wildcard (data tables) = true ->
  get_ddl ODBCConnector (S (S depth)) cs (CStr "*") object_type w
  = match data tables with
    | [] => (inr (CStr "-- No tables found in database"), w1)
    | _ =>
        match table_blocks cs (data tables) w1 with
        | (inr blocks, w2) => (inr (CStr (join (nl +:+ nl) blocks)), w2)
        | (inl e, w2) => (inl e, w2)
        end
    end.
Proof.
  intros Htype Hlist Hall. unfold list_tables in Hlist.
  cbn [get_ddl ODBC_get_ddl]. rewrite Htype.
  cbn [String.eqb Ascii.eqb Bool.eqb eq_str]. mstep. rewrite Hlist.
  destruct (data tables) as [|table rest] eqn:Ed; [reflexivity|].
  rewrite (wildcard_loop_blocks depth cs (table :: rest) Hall).
  destruct (table_blocks cs (table :: rest) w1) as [[e|blocks] w2] eqn:Eb;
    [reflexivity|].
  pose proof (table_blocks_shaped cs _ Hall _ _ _ Eb) as Hshape.
  destruct blocks as [|b bs].
  { cbn [table_blocks] in Eb. mstep.
    destruct (getitem table "name"); [discriminate|].
    destruct (ODBC_get_ddl 1 cs _ "table" w1) as [[?|?] ?]; [discriminate|].
    destruct (table_blocks cs rest _) as [[?|?] ?]; discriminate. }
  rewrite append_nil_l, after_blank_lines_join.
  rewrite (strip_blank_line_statement _ (join_statement_shaped b bs Hshape)).
  reflexivity.
Qed.

End WithEnv.

Lemma odbc_wildcard_ddl_witness :
  fst (@get_ddl (static_env two_tables_catalog) ODBCConnector 2 "DSN=warehouse"
         (CStr "*") "table" odbc_connected)
  = inr (CStr (join (nl +:+ nl)
                 ["CREATE TABLE customers (" +:+ nl
                  +:+ "    id int NOT NULL IDENTITY(1,1)" +:+ nl +:+ ");";
                  "CREATE TABLE orders (" +:+ nl
                  +:+ "    id int NOT NULL IDENTITY(1,1)" +:+ nl +:+ ");"])).
Proof.
  rewrite (@odbc_wildcard_ddl (static_env two_tables_catalog) 0 "DSN=warehouse"
             "table" odbc_connected
             (fst (match @list_tables (static_env two_tables_catalog)
                           "DSN=warehouse" odbc_connected with
                   | (inr t, w) => (t, w)
                   | (inl _, w) => (mkQueryResult [] [] 0 0, w)
                   end))
             (snd (@list_tables (static_env two_tables_catalog)
                     "DSN=warehouse" odbc_connected)));
    vm_compute; reflexivity.
Defined.

(** A catalog that does list a table named '*': no depth is enough, each
    activation lists the tables again and calls itself. *)
Lemma star_table_recursion depth w :
  exists w',
    @ODBC_get_ddl (static_env star_table_catalog) depth "DSN=warehouse"
      (CStr "*") "table" w
    = (inl (Exn RecursionError "maximum recursion depth exceeded"), w').
Proof.
  revert w. induction depth as [|depth IH]; intros w.
  - eexists. reflexivity.
  - cbn [ODBC_get_ddl]. change (lower "table") with "table".
    cbn [String.eqb Ascii.eqb Bool.eqb eq_str]. mstep.
    unfold ODBC_execute_query, ODBC_connect. mstep.
    destruct (self_connection w) as [h|]; mstep.
    + cbn. mstep.
      match goal with
      | |- context [ODBC_get_ddl depth _ _ _ ?w0] =>
          destruct (IH w0) as [w' ->]
      end.
      eexists. reflexivity.
    + cbn. mstep.
      match goal with
      | |- context [ODBC_get_ddl depth _ _ _ ?w0] =>
          destruct (IH w0) as [w' ->]
      end.
      eexists. reflexivity.
Qed.

(** C8, the failing input: the catalog lists one table, and its name is '*'.
    [get_ddl('*', 'table')] does not return the DDL block of that table: it
    ends in Python's RecursionError, which the service function reports as an
    error result. *)
Theorem star_table_recursion_error :
  fst (@get_ddl (static_env star_table_catalog) ODBCConnector 1000
         "DSN=warehouse" (CStr "*") "table" fresh_world)
  = inl (Exn RecursionError "maximum recursion depth exceeded") /\
  fst (@Service.get_ddl_with_cache (static_env star_table_catalog)
         "DSN=warehouse" "fabric" "*" "table" false 3600 fresh_world)
  = inr (PDict [("status", PStr "error");
                ("error", PStr "maximum recursion depth exceeded");
                ("object_name", PStr "*"); ("object_type", PStr "table");
                ("db_type", PStr "fabric"); ("cached", PBool false)]).
Proof.
  split.
  - destruct (star_table_recursion 1000 fresh_world) as [w' Hrun].
    cbn [get_ddl]. rewrite Hrun. reflexivity.
  - vm_compute. reflexivity.
Qed.

End OdbcFacts.

(* ===================================================================== *)
(** * Further properties of the credential codec                          *)
(* ===================================================================== *)

Module CodecExtras.
Import Codec CodecFacts CodecProps.

Lemma utf8_encode_char_scalar c e :
  utf8_encode_char c = Some e -> scalar_value c.
Proof.
  unfold utf8_encode_char, scalar_value.
  repeat match goal with
         | |- context [if ?b then _ else _] => destruct b eqn:?
         end; intros Heq; try discriminate; lia.
Qed.

Lemma utf8_encode_encodable s bs : utf8_encode s = Some bs -> encodable s.
Proof.
  revert bs. induction s as [|c r IH]; intros bs Hs; [constructor|].
  cbn in Hs. destruct (utf8_encode_char c) as [e|] eqn:Ec; [|discriminate].
  cbn in Hs. destruct (utf8_encode r) as [er|] eqn:Er; [|discriminate].
  constructor; [eapply utf8_encode_char_scalar; eauto | eapply IH; eauto].
Qed.

Lemma utf8_encode_total s : encodable s -> exists bs, utf8_encode s = Some bs.
Proof. intros Hs. destruct (utf8_roundtrip s Hs) as (bs & E & _). eauto. Qed.

Lemma b64encode_length bs :
  List.length (b64encode bs) = base64_length (List.length bs).
Proof.
  unfold base64_length.
  induction bs as [| a | a b | a b c r IH] using list_ind3; try reflexivity.
  cbn [b64encode List.length]. rewrite IH.
  replace (S (S (S (List.length r))) + 2)%nat with (1 * 3 + (List.length r + 2))%nat by lia.
  rewrite Nat.div_add_l by lia. lia.
Qed.

Lemma table_b2a_base64_char i : 0 <= i < 64 -> base64_char (table_b2a_base64 i) = true.
Proof.
  intros Hi. unfold base64_char. rewrite (table_a2b_b2a i Hi). apply orb_true_r.
Qed.

Lemma b64encode_alphabet bs :
  Forall is_byte bs -> Forall (fun c => base64_char c = true) (b64encode bs).
Proof.
  induction bs as [| a | a b | a b c r IH] using list_ind3; intros Hb.
  - constructor.
  - inversion Hb as [|? ? Ha _]; subst. unfold is_byte in *. cbn [b64encode].
    repeat constructor; try apply table_b2a_base64_char; try zlia.
  - inversion Hb as [|? ? Ha Hb']; subst. inversion Hb' as [|? ? Hb0 _]; subst.
    unfold is_byte in *. cbn [b64encode].
    repeat constructor; try apply table_b2a_base64_char; try zlia.
  - inversion Hb as [|? ? Ha Hb']; subst. inversion Hb' as [|? ? Hb0 Hb'']; subst.
    inversion Hb'' as [|? ? Hc0 Hr]; subst.
    unfold is_byte in *. cbn [b64encode].
    repeat constructor; try apply table_b2a_base64_char; try zlia.
    apply IH, Hr.
Qed.


(** What [simple_decrypt] makes of base64( sig ‖ base64(raw) ) for any 32
    bytes [sig]: the text [raw] encodes, if [sig] is its signature. *)
Lemma simple_decrypt_of_token secret sig raw D signed :
  List.length sig = 32%nat -> Forall is_byte sig -> Forall is_byte raw ->
  utf8_decode raw = Some D ->
  utf8_encode (D ++ secret) = Some signed ->
  simple_decrypt secret (b64encode (sig ++ b64encode raw))
  = if bytes_eqb sig (sha256 signed) then Some D else None.
Proof.
  intros Hlen Hsig Hraw Hdec Hsigned. unfold simple_decrypt.
  pose proof (b64encode_ascii raw Hraw) as Ha.
  rewrite b64decode_b64encode
    by (apply Forall_app; split; [exact Hsig | apply ascii_bytes, Ha]).
  cbn [obind].
  rewrite (skipn_signature _ _ Hlen), (firstn_signature _ _ Hlen).
  rewrite (utf8_decode_ascii _ Ha). cbn [obind].
  rewrite (b64decode_b64encode _ Hraw). cbn [obind].
  rewrite Hdec. cbn [obind]. rewrite Hsigned. cbn [obind].
  destruct (bytes_eqb sig (sha256 signed)); reflexivity.
Qed.

Lemma simple_encrypt_encodable secret D token :
  simple_encrypt secret D = Some token -> encodable D /\ encodable secret.
Proof.
  unfold simple_encrypt. intros Henc.
  destruct (utf8_encode (D ++ secret)) as [signed|] eqn:Es; [|discriminate].
  apply utf8_encode_encodable in Es. apply Forall_app in Es. exact Es.
Qed.

(** X1. [simple_encrypt] returns [None] exactly when the descriptor or the
    secret holds a code point [str.encode()] refuses (a lone surrogate); for
    every other input it returns a token. *)
Theorem simple_encrypt_fails_iff (HASH_SECRET D : text) :
  simple_encrypt HASH_SECRET D = None <-> ~ (encodable D /\ encodable HASH_SECRET).
Proof.
  split.
  - intros Hnone [HD Hs].
    destruct (simple_encrypt_token HASH_SECRET D Hs HD) as (? & ? & _ & _ & _ & _ & E).
    congruence.
  - intros Hnot. destruct (simple_encrypt HASH_SECRET D) as [token|] eqn:E; [|reflexivity].
    exfalso. apply Hnot. eapply simple_encrypt_encodable, E.
Qed.

(** X2. A token is made of characters of the base64 alphabet only and its
    length is fixed by the UTF-8 length of the descriptor: base64 of 32 bytes
    of signature followed by the base64 text of the descriptor. *)
Theorem simple_encrypt_token_shape (HASH_SECRET D token : text) :
  simple_encrypt HASH_SECRET D = Some token ->
  exists raw,
    utf8_encode D = Some raw /\
    List.length token = base64_length (32 + base64_length (List.length raw)) /\
    Forall (fun c => base64_char c = true) token.
Proof.
  intros Henc. destruct (simple_encrypt_encodable _ _ _ Henc) as [HD Hs].
  destruct (simple_encrypt_token HASH_SECRET D Hs HD)
    as (signed & raw & _ & Er & Br & _ & Etok).
  assert (Htok : token = b64encode (sha256 signed ++ b64encode raw)) by congruence.
  subst token.
  exists raw. split; [exact Er|]. split.
  - rewrite b64encode_length, length_app, sha256_length, b64encode_length.
    reflexivity.
  - apply b64encode_alphabet, Forall_app. split; [apply sha256_bytes|].
    apply ascii_bytes, b64encode_ascii, Br.
Qed.

(** A token verifies under the secret it was made with. *)
Lemma simple_decrypt_of_encrypt secret D token :
  simple_encrypt secret D = Some token ->
  simple_decrypt secret token = Some D.
Proof.
  intros HD. destruct (simple_encrypt_encodable _ _ _ HD) as [HDe Hs].
  destruct (simple_encrypt_token secret D Hs HDe)
    as (signed & raw & Es & Er & Br & Dr & Etok).
  assert (Htok : token = b64encode (sha256 signed ++ b64encode raw)) by congruence.
  subst token.
  rewrite (simple_decrypt_of_token secret (sha256 signed) raw D signed);
    auto using sha256_length, sha256_bytes.
  unfold bytes_eqb. rewrite bool_decide_eq_true_2 by reflexivity. reflexivity.
Qed.

(** X3. The token determines the descriptor: two descriptors that get the
    same token under the same secret are equal. *)
Theorem simple_encrypt_injective (HASH_SECRET D1 D2 token : text) :
  simple_encrypt HASH_SECRET D1 = Some token ->
  simple_encrypt HASH_SECRET D2 = Some token ->
  D1 = D2.
Proof.
  intros H1 H2.
  apply simple_decrypt_of_encrypt in H1. apply simple_decrypt_of_encrypt in H2.
  congruence.
Qed.

(** X4. A token made under one secret and checked under another: the
    descriptor comes back exactly when the two SHA-256 signatures coincide,
    and [None] otherwise. *)
Theorem simple_decrypt_other_secret (secret1 secret2 D token signed1 signed2 : text) :
  simple_encrypt secret1 D = Some token ->
  utf8_encode (D ++ secret1) = Some signed1 ->
  utf8_encode (D ++ secret2) = Some signed2 ->
  simple_decrypt secret2 token
  = if bytes_eqb (sha256 signed1) (sha256 signed2) then Some D else None.
Proof.
  intros Henc E1 E2. destruct (simple_encrypt_encodable _ _ _ Henc) as [HD Hs].
  destruct (simple_encrypt_token secret1 D Hs HD)
    as (signed & raw & Es & Er & Br & Dr & Etok).
  assert (signed = signed1) by congruence. subst signed.
  assert (Htok : token = b64encode (sha256 signed1 ++ b64encode raw)) by congruence.
  subst token.
  apply simple_decrypt_of_token; auto using sha256_length, sha256_bytes.
Qed.

(** The bytes [a2b_base64] returns need their base64 length in input. *)
Lemma a2b_loop_length inp : forall quad_pos leftchar pads out,
  a2b_base64_loop inp quad_pos leftchar pads = Some out ->
  (4 * ((List.length out + emitted quad_pos + 2) / 3)
   <= List.length inp + quad_pos + pads)%nat.
Proof.
  induction inp as [|ch rest IH]; intros qp lc pads out Hrun.
  - cbn in Hrun. destruct qp; [|discriminate]. injection Hrun as <-. cbn. lia.
  - cbn [a2b_base64_loop] in Hrun. cbn [List.length].
    destruct (ch =? BASE64_PAD).
    { destruct (2 <=? qp)%nat eqn:E2.
      - apply Nat.leb_le in E2.
        destruct (4 <=? qp + S pads)%nat eqn:E4.
        + apply Nat.leb_le in E4. injection Hrun as <-. cbn [List.length].
          assert (emitted qp <= 2)%nat by (destruct qp as [|[|[|?]]]; cbn; lia).
          assert ((0 + emitted qp + 2) / 3 < 2)%nat
            by (apply Nat.Div0.div_lt_upper_bound; lia).
          lia.
        + apply IH in Hrun. lia.
      - apply IH in Hrun. lia. }
    destruct (table_a2b_base64 ch) as [v|]; [|apply IH in Hrun; lia].
    destruct qp as [|[|[|qp]]].
    + apply IH in Hrun. cbn [emitted] in *. lia.
    + destruct (a2b_base64_loop rest 2 (v mod 16) 0) as [r|] eqn:Er; [|discriminate].
      injection Hrun as <-. apply IH in Er. cbn [emitted List.length] in *.
      replace (S (List.length r) + 0 + 2)%nat with (List.length r + 1 + 2)%nat by lia.
      lia.
    + destruct (a2b_base64_loop rest 3 (v mod 4) 0) as [r|] eqn:Er; [|discriminate].
      injection Hrun as <-. apply IH in Er. cbn [emitted List.length] in *.
      replace (S (List.length r) + 1 + 2)%nat with (List.length r + 2 + 2)%nat by lia.
      lia.
    + destruct (a2b_base64_loop rest 0 0 0) as [r|] eqn:Er; [|discriminate].
      injection Hrun as <-. apply IH in Er. cbn [emitted List.length] in *.
      replace (S (List.length r) + 2 + 2)%nat with (1 * 3 + (List.length r + 0 + 2))%nat by lia.
      rewrite Nat.div_add_l by lia. lia.
Qed.

Lemma b64decode_length s decoded :
  b64decode s = Some decoded ->
  (base64_length (List.length decoded) <= List.length s)%nat.
Proof.
  unfold b64decode, str_encode_ascii, a2b_base64.
  destruct (forallb _ s); [|discriminate]. cbn [obind]. intros Hrun.
  apply a2b_loop_length in Hrun. unfold base64_length. cbn [emitted] in Hrun.
  replace (List.length decoded + 0 + 2)%nat with (List.length decoded + 2)%nat in Hrun by lia.
  lia.
Qed.

(** X5. No hash shorter than 44 characters verifies, whatever the secret:
    the decoded bytes cannot hold a 32-byte signature.  (44 is the length of
    the token of the empty descriptor.) *)
Theorem simple_decrypt_rejects_short (HASH_SECRET hash_value : text) :
  (List.length hash_value < 44)%nat ->
  simple_decrypt HASH_SECRET hash_value = None.
Proof.
  intros Hshort. unfold simple_decrypt.
  destruct (b64decode hash_value) as [decoded|] eqn:Ed; [|reflexivity].
  apply b64decode_length in Ed. cbn [obind].
  assert (Hlen : (List.length decoded < 32)%nat).
  { unfold base64_length in Ed.
    destruct (Nat.lt_ge_cases (List.length decoded) 32) as [|Hge]; [assumption|].
    assert (11 <= (List.length decoded + 2) / 3)%nat
      by (apply Nat.div_le_lower_bound; lia).
    lia. }
  destruct (utf8_decode (skipn 32 decoded)) as [enc|]; [|reflexivity]. cbn [obind].
  destruct (b64decode enc) as [raw|]; [|reflexivity]. cbn [obind].
  destruct (utf8_decode raw) as [cs|]; [|reflexivity]. cbn [obind].
  destruct (utf8_encode (cs ++ HASH_SECRET)) as [signed|]; [|reflexivity]. cbn [obind].
  unfold bytes_eqb. rewrite bool_decide_eq_false_2; [reflexivity|].
  intros Heq. apply (f_equal (@List.length Z)) in Heq.
  rewrite sha256_length, length_firstn in Heq. lia.
Qed.

(** The scan of [a2b_base64] steps over a character outside the alphabet. *)
Lemma a2b_loop_skips xs c ys :
  (c =? BASE64_PAD) = false -> table_a2b_base64 c = None ->
  forall quad_pos leftchar pads,
    a2b_base64_loop (xs ++ c :: ys) quad_pos leftchar pads
    = a2b_base64_loop (xs ++ ys) quad_pos leftchar pads.
Proof.
  intros Hpad Htab. induction xs as [|x xs IH]; intros qp lc pads.
  - cbn. rewrite Hpad, Htab. reflexivity.
  - cbn [app a2b_base64_loop].
    destruct (x =? BASE64_PAD); [rewrite !IH; reflexivity|].
    destruct (table_a2b_base64 x) as [v|]; [|apply IH].
    destruct qp as [|[|[|qp]]]; rewrite IH; reflexivity.
Qed.

(** X6. Verification reads the hash with the lenient base64 decoder: an
    ASCII character outside the base64 alphabet (a space, a line break, a
    quote, ...) inserted anywhere in a hash changes nothing, so a descriptor
    has many hashes that verify. *)
Theorem simple_decrypt_skips_foreign_chars (HASH_SECRET xs ys : text) (c : Z) :
  is_ascii c -> base64_char c = false ->
  simple_decrypt HASH_SECRET (xs ++ c :: ys) = simple_decrypt HASH_SECRET (xs ++ ys).
Proof.
  intros Hc Hb. unfold base64_char in Hb. apply orb_false_iff in Hb.
  destruct Hb as [Hpad Htab].
  destruct (table_a2b_base64 c) eqn:Et; [discriminate|].
  unfold simple_decrypt.
  replace (b64decode (xs ++ c :: ys)) with (b64decode (xs ++ ys)); [reflexivity|].
  unfold b64decode, str_encode_ascii, a2b_base64.
  rewrite !forallb_app. cbn [forallb].
  replace ((0 <=? c) && (c <? 128)) with true by (unfold is_ascii in Hc; lia).
  cbn [andb]. destruct (forallb _ xs && forallb _ ys); [|reflexivity].
  cbn [obind]. symmetry. apply a2b_loop_skips; assumption.
Qed.


Lemma simple_encrypt_token_shape_witness :
  exists raw,
    utf8_encode sample_descriptor = Some raw /\
    List.length sample_token
    = base64_length (32 + base64_length (List.length raw)) /\
    Forall (fun c => base64_char c = true) sample_token.
Proof.
  apply (simple_encrypt_token_shape DEFAULT_HASH_SECRET sample_descriptor sample_token).
  vm_compute. reflexivity.
Defined.

Lemma simple_encrypt_injective_witness : sample_descriptor = sample_descriptor.
Proof.
  apply (simple_encrypt_injective DEFAULT_HASH_SECRET sample_descriptor
           sample_descriptor sample_token);
    vm_compute; reflexivity.
Defined.

Lemma simple_decrypt_other_secret_witness :
  exists signed1 signed2,
    utf8_encode (sample_descriptor ++ DEFAULT_HASH_SECRET) = Some signed1 /\
    utf8_encode (sample_descriptor ++ other_secret) = Some signed2 /\
    simple_decrypt other_secret sample_token
    = if bytes_eqb (sha256 signed1) (sha256 signed2)
      then Some sample_descriptor else None.
Proof.
  exists (sample_descriptor ++ DEFAULT_HASH_SECRET), (sample_descriptor ++ other_secret).
  split; [vm_compute; reflexivity|]. split; [vm_compute; reflexivity|].
  apply (simple_decrypt_other_secret DEFAULT_HASH_SECRET other_secret
           sample_descriptor sample_token);
    vm_compute; reflexivity.
Defined.

Lemma simple_decrypt_rejects_short_witness :
  simple_decrypt DEFAULT_HASH_SECRET (text_of_string "aG9zdD1kYg==") = None.
Proof.
  apply (simple_decrypt_rejects_short DEFAULT_HASH_SECRET
           (text_of_string "aG9zdD1kYg==")).
  vm_compute. lia.
Defined.

Lemma simple_decrypt_skips_foreign_chars_witness :
  simple_decrypt DEFAULT_HASH_SECRET
    (firstn 20 sample_token ++ 10 :: skipn 20 sample_token)
  = simple_decrypt DEFAULT_HASH_SECRET
      (firstn 20 sample_token ++ skipn 20 sample_token).
Proof.
  apply (simple_decrypt_skips_foreign_chars DEFAULT_HASH_SECRET
           (firstn 20 sample_token) (skipn 20 sample_token) 10).
  - unfold is_ascii. lia.
  - reflexivity.
Defined.

End CodecExtras.

(* ===================================================================== *)
(** * Further properties of the cache decorator                           *)
(* ===================================================================== *)

Module CacheExtras.
Import Py Runtime Connectors Cache Service Scenarios Statements.
Import StringFacts ConnectorFacts ServiceFacts CacheProps.

Section WithEnv.
Context `{Env}.

Lemma cache_lookup_expired key w expiry v :
  redis_faults w = [] -> redis_data w !! key = Some (expiry, v) ->
  expiry <= clock w ->
  cache_lookup key w = (inr None, w).
Proof.
  intros Hf Hk Hexp. destruct w as [l c sc rd rf cl]. cbn in Hf, Hk, Hexp. subst rf.
  unfold cache_lookup, redis_get, next_fault. mstep. rewrite Hk.
  replace (cl <? expiry) with false by lia. reflexivity.
Qed.

Lemma cache_lookup_not_object key w expiry v :
  redis_faults w = [] -> redis_data w !! key = Some (expiry, v) ->
  not_an_object v ->
  cache_lookup key w = (inr None, w).
Proof.
  intros Hf Hk Hv. destruct w as [l c sc rd rf cl]. cbn in Hf, Hk. subst rf.
  unfold cache_lookup, redis_get, next_fault. mstep. rewrite Hk.
  destruct (cl <? expiry); [|reflexivity].
  destruct (wire_truthy v); [|reflexivity].
  destruct (json_loads v) as [[c0|l0|d]|] eqn:Ej; try reflexivity.
  destruct (Hv d Ej).
Qed.

(** What [cache_lookup] returns as a hit is a dictionary whose [cached]
    entry is true. *)
Lemma cache_lookup_hit_shape key w r w' :
  cache_lookup key w = (inr (Some r), w') ->
  exists d, r = PDict d /\ dict_get "cached" d = Some (PBool true).
Proof.
  unfold cache_lookup, redis_get, next_fault. mstep.
  destruct (redis_faults w) as [|[] rest]; cbn; try discriminate;
    (destruct (redis_data w !! key) as [[expiry v]|]; cbn; [|discriminate]);
    (destruct (clock w <? expiry); cbn; [|discriminate]);
    (destruct (wire_truthy v); cbn; [|discriminate]);
    (destruct (json_loads v) as [[c0|l0|d]|]; cbn; try discriminate);
    intros Heq; injection Heq as <- _; eexists; split;
      try reflexivity; apply dict_get_set.
Qed.

(** X7. A stored value that is not a JSON object is never returned: the
    lookup is a miss, the wrapped function runs and its outcome is the
    outcome of the call. *)
Theorem cache_ignores_malformed_entries name func args ttl w expiry v :
  redis_faults w = [] ->
  redis_data w !! cache_key name args = Some (expiry, v) ->
  not_an_object v ->
  cache_lookup (cache_key name args) w = (inr None, w) /\
  fst (redis_cache name func args true ttl w) = fst (func args w).
Proof.
  intros Hf Hk Hv.
  pose proof (cache_lookup_not_object _ _ _ _ Hf Hk Hv) as Hmiss.
  split; [exact Hmiss|].
  unfold redis_cache. cbn [negb]. mstep. rewrite Hmiss.
  destruct (func args w) as [[e|result] w2]; [reflexivity|].
  destruct (cache_store_total (cache_key name args) ttl result w2)
    as (w3 & -> & _). reflexivity.
Qed.

(** X8. Only a dictionary with at least one entry is written to the store:
    for every other result of the wrapped function (None, an empty
    dictionary, a list, a string, a number) the call returns the result as it
    is and the store receives no command. *)
Theorem only_nonempty_dicts_are_cached name func args ttl w w1 result w2 :
  cache_lookup (cache_key name args) w = (inr None, w1) ->
  func args w1 = (inr result, w2) ->
  not_cacheable result ->
  redis_cache name func args true ttl w = (inr result, w2).
Proof.
  intros Hmiss Hrun Hres.
  unfold redis_cache. cbn [negb]. mstep. rewrite Hmiss, Hrun.
  unfold cache_store.
  destruct result as [c|l|[|kv d]]; [| | |destruct (Hres kv d eq_refl)];
    cbn [pv_truthy]; mstep;
    repeat match goal with
           | |- context [if ?b then _ else _] => destruct b
           end; reflexivity.
Qed.


(** A healthy store whose entry under the key has expired: the function is
    called and its dictionary replaces the entry. *)
Lemma redis_cache_expired name func args ttl w expiry v d wf :
  redis_faults w = [] ->
  redis_data w !! cache_key name args = Some (expiry, v) ->
  expiry <= clock w -> 0 < ttl ->
  func args w = (inr (PDict d), wf) ->
  same_store w wf ->
  pv_truthy (PDict d) = true ->
  redis_cache name func args true ttl w =
  (inr (PDict d),
   set_redis (<[cache_key name args :=
                  (clock w + ttl,
                   json_dumps (PDict (dict_set "cached" (PBool false) d)))]>
                (redis_data w)) [] wf).
Proof.
  intros Hf Hk Hexp Httl Hrun (Hd & Hfl & Hcl) Htruthy.
  unfold redis_cache. cbn [negb]. mstep.
  rewrite (cache_lookup_expired _ _ _ _ Hf Hk Hexp), Hrun.
  rewrite cache_store_healthy by congruence.
  unfold set_redis. rewrite Htruthy, Hd, Hcl. reflexivity.
Qed.

(** X9. An entry lives for [cache_ttl] seconds from the call that wrote it,
    and being served does not renew it: a call within the time to live is
    answered from the store and leaves it as it is; the first call at or after
    the expiry runs the query again, connecting once more, and writes a new
    entry. *)
Theorem cache_entry_expires cs db q ttl dt1 dt2 w0 :
  redis_data w0 = ∅ -> redis_faults w0 = [] -> 0 < ttl ->
  0 <= dt1 < ttl -> ttl <= dt1 + dt2 ->
  exists d1 w1 d2 d3 w3,
    execute_query_with_cache cs db q true ttl w0 = (inr (PDict d1), w1) /\
    execute_query_with_cache cs db q true ttl (tick dt1 w1)
    = (inr (PDict d2), tick dt1 w1) /\
    dict_get "cached" d2 = Some (PBool true) /\
    execute_query_with_cache cs db q true ttl (tick dt2 (tick dt1 w1))
    = (inr (PDict d3), w3) /\
    dict_get "cached" d3 = Some (PBool false) /\
    method_calls M_connect (calls w3)
    = (method_calls M_connect (calls w1) + (if supported db then 1 else 0))%nat /\
    redis_data w3 !! cache_key "execute_query_with_cache" [cs; db; q]
    = Some (clock w0 + dt1 + dt2 + ttl, json_dumps (PDict d3)).
Proof.
  intros Hempty Hf Httl Hdt1 Hdt2.
  destruct (execute_query_body_outcome cs db q w0)
    as (d & wf & Hrun & Hst & Hshape & _).
  assert (Htruthy : pv_truthy (PDict d) = true)
    by (destruct Hshape as [[r ->]|[e ->]]; reflexivity).
  destruct (redis_cache_twice "execute_query_with_cache" execute_query_body
              [cs; db; q] ttl dt1 w0 d wf Hf) as [H1 H2]; auto.
  { rewrite Hempty. apply lookup_empty. }
  cbv zeta in H1, H2.
  set (w1 := set_redis _ [] wf) in *.
  set (w2 := tick dt2 (tick dt1 w1)).
  destruct (execute_query_body_outcome cs db q w2)
    as (d3 & wf3 & Hrun3 & Hst3 & Hshape3 & Hconn3 & _).
  assert (Htruthy3 : pv_truthy (PDict d3) = true)
    by (destruct Hshape3 as [[r ->]|[e ->]]; reflexivity).
  assert (Hcl : clock wf = clock w0) by (destruct Hst as (_ & _ & Hc); exact Hc).
  assert (H3 := fun Hk Hexp =>
                  redis_cache_expired "execute_query_with_cache"
                    execute_query_body [cs; db; q] ttl w2 (clock w0 + ttl)
                    (json_dumps (PDict (dict_set "cached" (PBool false) d)))
                    d3 wf3 eq_refl Hk Hexp Httl Hrun3 Hst3 Htruthy3).
  specialize (H3 ltac:(cbn; apply lookup_insert_eq)
                 ltac:(unfold w2, w1; cbn; lia)).
  unfold execute_query_with_cache.
  eexists d, w1, _, d3, _. split; [exact H1|]. split; [exact H2|].
  split; [apply dict_get_set|]. split; [exact H3|].
  split; [destruct Hshape3 as [[r ->]|[e ->]]; reflexivity|].
  split.
  - cbn [calls set_redis]. rewrite Hconn3. reflexivity.
  - cbn [redis_data set_redis]. rewrite lookup_insert_eq.
    replace (clock w2) with (clock w0 + dt1 + dt2) by (unfold w2, w1; cbn; lia).
    destruct Hshape3 as [[r ->]|[e ->]]; reflexivity.
Qed.


(** X11. The two service functions never share a cache key: whatever the
    arguments and the digest, an entry written by one is not read by the
    other. *)
Theorem service_cache_keys_differ args1 args2 :
  cache_key "execute_query_with_cache" args1
  <> cache_key "get_ddl_with_cache" args2.
Proof.
  unfold cache_key. intros Heq.
  rewrite !append_cons, !append_nil_l in Heq. discriminate Heq.
Qed.

End WithEnv.

Lemma cache_ignores_malformed_entries_witness :
  cache_lookup
    (@cache_key update_env "execute_query_with_cache"
       ["DSN=warehouse"; "fabric"; "SELECT 1"])
    (corrupted_store_world update_env)
  = (inr None, corrupted_store_world update_env) /\
  fst (@redis_cache update_env "execute_query_with_cache"
         (@execute_query_body update_env)
         ["DSN=warehouse"; "fabric"; "SELECT 1"] true 60
         (corrupted_store_world update_env))
  = fst (@execute_query_body update_env
           ["DSN=warehouse"; "fabric"; "SELECT 1"]
           (corrupted_store_world update_env)).
Proof.
  apply (@cache_ignores_malformed_entries update_env "execute_query_with_cache"
           (@execute_query_body update_env)
           ["DSN=warehouse"; "fabric"; "SELECT 1"] 60
           (corrupted_store_world update_env) 100 (WText "<html>")).
  - reflexivity.
  - vm_compute. reflexivity.
  - intros d. simpl. discriminate.
Defined.

Lemma only_nonempty_dicts_are_cached_witness :
  @redis_cache update_env "probe" (fun _ => ret (PDict [])) [] true 60 fresh_world
  = (inr (PDict []), fresh_world).
Proof.
  apply (@only_nonempty_dicts_are_cached update_env "probe"
           (fun _ => ret (PDict [])) [] 60 fresh_world fresh_world (PDict [])
           fresh_world).
  - vm_compute. reflexivity.
  - reflexivity.
  - intros kv d. discriminate.
Defined.

Lemma cache_entry_expires_witness :
  exists d1 w1 d2 d3 w3,
    @execute_query_with_cache update_env "DSN=warehouse" "fabric" "SELECT 1"
      true 60 fresh_world = (inr (PDict d1), w1) /\
    @execute_query_with_cache update_env "DSN=warehouse" "fabric" "SELECT 1"
      true 60 (tick 10 w1) = (inr (PDict d2), tick 10 w1) /\
    dict_get "cached" d2 = Some (PBool true) /\
    @execute_query_with_cache update_env "DSN=warehouse" "fabric" "SELECT 1"
      true 60 (tick 50 (tick 10 w1)) = (inr (PDict d3), w3) /\
    dict_get "cached" d3 = Some (PBool false) /\
    method_calls M_connect (calls w3)
    = (method_calls M_connect (calls w1) + (if supported "fabric" then 1 else 0))%nat /\
    redis_data w3 !! @cache_key update_env "execute_query_with_cache"
                       ["DSN=warehouse"; "fabric"; "SELECT 1"]
    = Some (clock fresh_world + 10 + 50 + 60, json_dumps (PDict d3)).
Proof.
  apply (@cache_entry_expires update_env "DSN=warehouse" "fabric" "SELECT 1"
           60 10 50 fresh_world); try reflexivity; lia.
Defined.

End CacheExtras.

(* ===================================================================== *)
(** * Further properties of the connectors and the service functions      *)
(* ===================================================================== *)

Module ConnectorExtras.
Import Py Runtime Connectors Cache Service Scenarios Statements.
Import StringFacts ConnectorFacts ServiceFacts ConnectorProps.


Section WithEnv.
Context `{Env}.

Lemma only_statements_refl h w : self_connection w = Some h -> only_statements h w w.
Proof.
  intros Hc. repeat split; auto.
  - exists []. split; [symmetry; apply app_nil_r | constructor].
  - exists []. split; [symmetry; apply app_nil_r | constructor].
Qed.

Lemma only_statements_trans h w1 w2 w3 :
  only_statements h w1 w2 -> only_statements h w2 w3 -> only_statements h w1 w3.
Proof.
  intros (_ & (e1 & L1 & F1) & (m1 & C1 & G1) & S1)
         (Hc & (e2 & L2 & F2) & (m2 & C2 & G2) & S2).
  split; [exact Hc|]. split; [|split].
  - exists (e1 ++ e2). rewrite L2, L1, app_assoc. split; [reflexivity|].
    apply Forall_app; auto.
  - exists (m1 ++ m2). rewrite C2, C1, app_assoc. split; [reflexivity|].
    apply Forall_app; auto.
  - eapply same_store_trans; eauto.
Qed.

Lemma statements_only_ret {A} h (a : A) : statements_only h (ret a).
Proof. intros w Hc. apply only_statements_refl, Hc. Qed.

Lemma statements_only_raise {A} h e : statements_only h (@raise A e).
Proof. intros w Hc. apply only_statements_refl, Hc. Qed.

Lemma statements_only_lift {A} h (r : exn + A) : statements_only h (lift r).
Proof. intros w Hc. apply only_statements_refl, Hc. Qed.

Lemma statements_only_bind {A B} h (m : M A) (k : A -> M B) :
  statements_only h m -> (forall a, statements_only h (k a)) ->
  statements_only h (bind m k).
Proof.
  intros Hm Hk w Hc. specialize (Hm w Hc). unfold bind.
  destruct (m w) as [[e|a] w1]; cbn [snd] in *; [exact Hm|].
  eapply only_statements_trans; [exact Hm|]. apply Hk. apply Hm.
Qed.

Lemma statements_only_try {A} h (m : M A) (handler : exn -> M A) :
  statements_only h m -> (forall e, statements_only h (handler e)) ->
  statements_only h (try_except m handler).
Proof.
  intros Hm Hk w Hc. specialize (Hm w Hc). unfold try_except.
  destruct (m w) as [[e|a] w1]; cbn [snd] in *; [|exact Hm].
  eapply only_statements_trans; [exact Hm|]. apply Hk. apply Hm.
Qed.

Lemma statements_only_attempt {A} h (m : M A) :
  statements_only h m -> statements_only h (attempt m).
Proof.
  intros Hm w Hc. specialize (Hm w Hc). unfold attempt.
  destruct (m w) as [r w1]. exact Hm.
Qed.

Lemma statements_only_for_each {A B} h (step : B -> A -> M B) xs :
  (forall acc x, statements_only h (step acc x)) ->
  forall acc, statements_only h (for_each step xs acc).
Proof.
  intros Hstep. induction xs as [|x r IH]; intros acc; cbn [for_each].
  - apply statements_only_ret.
  - apply statements_only_bind; auto.
Qed.

Lemma statements_only_get_ddl_called h : statements_only h (called M_get_ddl).
Proof.
  intros w Hc. unfold called. cbn. repeat split; auto.
  - exists []. split; [symmetry; apply app_nil_r | constructor].
  - exists [M_get_ddl]. split; [reflexivity|]. repeat constructor.
Qed.

Lemma statements_only_execute_query h (k : connector_class) cs q :
  statements_only h (execute_query k cs q).
Proof.
  intros w Hc. rewrite (execute_query_connected k cs q w h Hc).
  destruct (drv_execute (driver_log w) h q) as [msg|c]; cbn;
    (split; [exact Hc|]); (split; [|split]);
    try (eexists; split; [reflexivity|]; repeat constructor; eexists _, _; reflexivity);
    try (exists [M_execute_query]; split; [reflexivity|]; repeat constructor; auto);
    repeat split.
Qed.


Lemma statements_only_ODBC_execute h cs q :
  statements_only h (ODBC_execute_query cs q).
Proof. apply (statements_only_execute_query h ODBCConnector). Qed.

Lemma statements_only_Postgres_execute h cs q :
  statements_only h (Postgres_execute_query cs q).
Proof. apply (statements_only_execute_query h PostgresConnector). Qed.

Ltac statements :=
  repeat first
    [ assumption
    | apply statements_only_ret
    | apply statements_only_raise
    | apply statements_only_lift
    | apply statements_only_get_ddl_called
    | apply statements_only_ODBC_execute
    | apply statements_only_Postgres_execute
    | apply statements_only_attempt
    | apply statements_only_bind; [|intros]
    | apply statements_only_try; [|intros]
    | apply statements_only_for_each; intros
    | match goal with
      | |- statements_only _ (match ?x with _ => _ end) => destruct x
      | |- statements_only _ (if ?x then _ else _) => destruct x
      | |- statements_only _ (let '(_, _) := ?x in _) => destruct x
      end ].

Lemma statements_only_ODBC_get_ddl h depth cs name object_type :
  statements_only h (ODBC_get_ddl depth cs name object_type).
Proof.
  revert name object_type.
  induction depth as [|depth IH]; intros name object_type; cbn [ODBC_get_ddl].
  - apply statements_only_raise.
  - unfold ODBC_table_ddl, ODBC_definition. cbv zeta. statements; apply IH.
Qed.

Lemma statements_only_Postgres_get_ddl h depth cs name object_type :
  statements_only h (Postgres_get_ddl depth cs name object_type).
Proof.
  revert name object_type.
  induction depth as [|depth IH]; intros name object_type; cbn [Postgres_get_ddl].
  - apply statements_only_raise.
  - unfold _create_tabledef_function, Postgres_table_ddl, pg_resolve,
      pg_fetch_tabledef, pg_table_fallback, pg_lookup.
    cbv zeta. statements; apply IH.
Qed.

(** X12. On a connector that holds a connection, [get_ddl] does nothing but
    send statements over that connection, for every object type, every name
    and every answer of the driver, also when it raises: the handle is still
    held afterwards, no connection is opened or closed, [connect] and
    [disconnect] are not called and the cache store is not touched. *)
Theorem get_ddl_only_sends_statements (k : connector_class) depth cs name
        object_type w h :
  self_connection w = Some h ->
  only_statements h w (snd (get_ddl k depth cs name object_type w)).
Proof.
  intros Hc. destruct k; cbn [get_ddl].
  - apply statements_only_ODBC_get_ddl, Hc.
  - apply statements_only_Postgres_get_ddl, Hc.
Qed.


Lemma get_ddl_statements_only (k : connector_class) depth cs name object_type h :
  statements_only h (get_ddl k depth cs name object_type).
Proof.
  destruct k; cbn [get_ddl];
    [apply statements_only_ODBC_get_ddl | apply statements_only_Postgres_get_ddl].
Qed.

Lemma closed_not_open l h : ~ In h (open_handles (l ++ [EvClose h]) []).
Proof.
  rewrite open_handles_app. cbn. intros Hin. apply filter_In in Hin.
  destruct Hin as [_ Hneq]. unfold handle_eqb in Hneq.
  rewrite Nat.eqb_refl in Hneq. discriminate.
Qed.

(** A connector obtained, connected, used for statements only and
    disconnected: what the [try] blocks of the service functions do when
    nothing raises. *)
Lemma session_outcome {A} (use : connector_class -> M A) cs db w :
  (forall k h, statements_only h (use k)) ->
  match (connector <- get_db_connector cs db ;;
         connect connector cs ;;;
         result <- use connector ;;
         disconnect ;;;
         ret result) w with
  | (inr _, w') => connection_closed w w'
  | (inl _, _) => True
  end.
Proof.
  intros Huse. mstep.
  pose proof (get_db_connector_outcome cs db w) as Hk.
  destruct (get_db_connector cs db w) as [[e|k] w0]; [exact I|].
  destruct Hk as [_ ->].
  pose proof (connect_outcome k cs (set_connection None w)) as Hc.
  destruct (connect k cs (set_connection None w)) as [[e|b] w1]; [exact I|].
  cbn [calls self_connection driver_log set_connection] in Hc.
  destruct Hc as (_ & Hcalls & Hconn & _ & req & Hlog).
  pose proof (Huse k _ w1 Hconn) as Hu.
  destruct (use k w1) as [[e|r] w2]; [exact I|]. cbn [snd] in Hu.
  destruct Hu as (Hconn2 & (evs & Hlog2 & Hevs) & (ms & Hcalls2 & Hms) & _).
  rewrite (disconnect_outcome w2 _ Hconn2).
  destruct (drv_close (driver_log w2) (fresh_handle (driver_log w))); [exact I|].
  unfold connection_closed.
  cbn [self_connection driver_log calls set_connection set_log set_calls].
  assert (Hfinal : driver_log w2 ++ [EvClose (fresh_handle (driver_log w))]
                   = driver_log w ++ [EvConnect req (Some (fresh_handle (driver_log w)))]
                       ++ evs ++ [EvClose (fresh_handle (driver_log w))]).
  { rewrite Hlog2, Hlog, <- !app_assoc. reflexivity. }
  split; [reflexivity|]. split; [|split].
  - exists req, evs. split; [exact Hfinal | exact Hevs].
  - exists ms. split; [|exact Hms].
    rewrite Hcalls2, Hcalls, <- !app_assoc. reflexivity.
  - apply closed_not_open.
Qed.

Lemma connection_closed_transport w0 w w' w'' :
  driver_log w = driver_log w0 -> calls w = calls w0 ->
  driver_log w'' = driver_log w' -> calls w'' = calls w' ->
  self_connection w'' = self_connection w' ->
  connection_closed w w' -> connection_closed w0 w''.
Proof.
  unfold connection_closed. intros -> -> -> -> ->. auto.
Qed.

Lemma execute_query_body_success cs db q w d w' :
  execute_query_body [cs; db; q] w = (inr (PDict d), w') ->
  dict_get "status" d = Some (PStr "success") ->
  connection_closed w w'.
Proof.
  intros Hrun Hstatus.
  pose proof (session_outcome (fun k => execute_query k cs q) cs db w
                (fun k h => statements_only_execute_query h k cs q)) as Hs.
  unfold execute_query_body in Hrun. mstep.
  destruct (get_db_connector cs db w) as [[e|k] w0];
    [injection Hrun as <- _; discriminate Hstatus|].
  destruct (connect k cs w0) as [[e|b] w1];
    [injection Hrun as <- _; discriminate Hstatus|].
  destruct (execute_query k cs q w1) as [[e|r] w2];
    [injection Hrun as <- _; discriminate Hstatus|].
  destruct (disconnect w2) as [[e|[]] w3];
    [injection Hrun as <- _; discriminate Hstatus|].
  injection Hrun as _ <-. exact Hs.
Qed.

Lemma get_ddl_body_success cs db object_name object_type w d w' :
  get_ddl_body [cs; db; object_name; object_type] w = (inr (PDict d), w') ->
  dict_get "status" d = Some (PStr "success") ->
  connection_closed w w'.
Proof.
  intros Hrun Hstatus.
  pose proof (session_outcome
                (fun k => get_ddl k recursion_limit cs (CStr object_name) object_type)
                cs db w
                (fun k h => get_ddl_statements_only k _ cs _ object_type h)) as Hs.
  unfold get_ddl_body in Hrun. mstep.
  destruct (get_db_connector cs db w) as [[e|k] w0];
    [injection Hrun as <- _; discriminate Hstatus|].
  destruct (connect k cs w0) as [[e|b] w1];
    [injection Hrun as <- _; discriminate Hstatus|].
  destruct (get_ddl k recursion_limit cs (CStr object_name) object_type w1)
    as [[e|r] w2];
    [injection Hrun as <- _; discriminate Hstatus|].
  destruct (disconnect w2) as [[e|[]] w3];
    [injection Hrun as <- _; discriminate Hstatus|].
  injection Hrun as _ <-. exact Hs.
Qed.

(** A live result of a decorated function is a result of the function
    itself, and the decorator has not touched the connector. *)
Lemma redis_cache_live name func args cache_enabled ttl w d w' :
  redis_cache name func args cache_enabled ttl w = (inr (PDict d), w') ->
  dict_get "cached" d = Some (PBool false) ->
  exists w1 w2,
    func args w1 = (inr (PDict d), w2) /\
    driver_log w1 = driver_log w /\ calls w1 = calls w /\
    driver_log w' = driver_log w2 /\ calls w' = calls w2 /\
    self_connection w' = self_connection w2.
Proof.
  unfold redis_cache. destruct cache_enabled; cbn [negb].
  - mstep. intros Hrun Hcached.
    destruct (cache_lookup_total (cache_key name args) w)
      as (hit & w1 & Hl & Hcalls & Hlog & _).
    rewrite Hl in Hrun. destruct hit as [r|].
    + destruct (CacheExtras.cache_lookup_hit_shape _ _ _ _ Hl) as (d0 & -> & Hc).
      assert (d0 = d) by congruence. subst d0.
      rewrite Hc in Hcached. discriminate Hcached.
    + destruct (func args w1) as [[e|r] w2] eqn:Hf; [discriminate|].
      destruct (cache_store_total (cache_key name args) ttl r w2)
        as (w3 & Hst & Hc3 & Hl3 & Hs3).
      rewrite Hst in Hrun.
      assert (r = PDict d) by congruence. assert (w3 = w') by congruence.
      subst r w3. exists w1, w2. repeat split; auto.
  - intros Hrun _. exists w, w'. repeat split; auto.
Qed.

(** X13. A call of a service function that reports success has closed the
    connection it opened: it called [connect] first and [disconnect] last,
    and between the two only statements went over the new handle, which is
    neither held nor open when the call returns. *)
Theorem successful_call_closes_its_connection
        cs db q object_name object_type cache_enabled ttl w d w' :
  (execute_query_with_cache cs db q cache_enabled ttl w = (inr (PDict d), w') \/
   get_ddl_with_cache cs db object_name object_type cache_enabled ttl w
   = (inr (PDict d), w')) ->
  is_success d ->
  connection_closed w w'.
Proof.
  intros Hrun [Hstatus Hcached].
  destruct Hrun as [Hrun|Hrun];
    destruct (redis_cache_live _ _ _ _ _ _ _ _ Hrun Hcached)
      as (w1 & w2 & Hf & Hl1 & Hc1 & Hl2 & Hc2 & Hs2);
    eapply connection_closed_transport; eauto;
    [eapply execute_query_body_success | eapply get_ddl_body_success]; eauto.
Qed.


(** X14. A dialect tag outside the five supported ones is reported in the
    result, with the tag spelled as it was passed, and nothing else happens:
    no connector is created, no method is called, the driver is not asked. *)
Theorem unsupported_db_type_is_reported cs db q object_name object_type ttl w :
  supported db = false ->
  execute_query_with_cache cs db q false ttl w
  = (inr (PDict (error_result ("Unsupported database type: " +:+ db) q db)), w) /\
  get_ddl_with_cache cs db object_name object_type false ttl w
  = (inr (PDict (CacheProps.ddl_error_result ("Unsupported database type: " +:+ db)
                   object_name object_type db)), w).
Proof.
  unfold supported, str_in. intros Hs.
  change ["fabric"; "odbc"; "microsoft_fabric"; "postgres"; "postgresql"]
    with (["fabric"; "odbc"; "microsoft_fabric"] ++ ["postgres"; "postgresql"]) in Hs.
  rewrite existsb_app in Hs. apply orb_false_iff in Hs. destruct Hs as [H1 H2].
  unfold execute_query_with_cache, get_ddl_with_cache, redis_cache,
    execute_query_body, get_ddl_body, get_db_connector, str_in.
  cbn [negb]. rewrite H1, H2. split; reflexivity.
Qed.

(** X15. A PostgreSQL descriptor that cannot be parsed never reaches the
    driver: [connect] is called once, the driver is asked nothing, and the
    result reports the parser's message behind the prefix of [connect]. *)
Theorem postgres_descriptor_errors_reach_no_driver cs db q ttl w e :
  str_in (lower db) ["postgres"; "postgresql"] = true ->
  str_in (lower db) ["fabric"; "odbc"; "microsoft_fabric"] = false ->
  _parse_connection_string cs = inl e ->
  exists w',
    execute_query_with_cache cs db q false ttl w
    = (inr (PDict (error_result
                     ("Failed to connect to PostgreSQL database: " +:+ exn_str e)
                     q db)), w') /\
    driver_log w' = driver_log w /\ calls w' = calls w ++ [M_connect].
Proof.
  intros Hpg Hodbc Hparse.
  unfold execute_query_with_cache, redis_cache, execute_query_body,
    get_db_connector.
  cbn [negb]. rewrite Hodbc, Hpg. unfold BaseConnector_init. mstep.
  cbn [connect]. unfold Postgres_connect. mstep. rewrite Hparse. mstep.
  eexists. split; [reflexivity|]. split; reflexivity.
Qed.

(** X16. [disconnect] closes the held connection once.  When the driver
    closes it, no handle is held afterwards and a second [disconnect] asks
    the driver nothing; when closing raises, the error reaches the caller and
    the handle is still held. *)
Theorem disconnect_closes_once w h :
  self_connection w = Some h ->
  match drv_close (driver_log w) h with
  | None =>
      exists w1,
        disconnect w = (inr tt, w1) /\
        self_connection w1 = None /\
        driver_log w1 = driver_log w ++ [EvClose h] /\
        disconnect w1 = (inr tt, set_calls (calls w1 ++ [M_disconnect]) w1)
  | Some msg =>
      exists w1,
        disconnect w = (inl (Exn DriverError msg), w1) /\
        self_connection w1 = Some h /\ driver_log w1 = driver_log w
  end.
Proof.
  intros Hc. rewrite (disconnect_outcome w h Hc).
  destruct (drv_close (driver_log w) h) as [msg|].
  - eexists. split; [reflexivity|]. split; [exact Hc | reflexivity].
  - eexists. split; [reflexivity|]. repeat split.
Qed.

Lemma connect_sends_no_statement (k : connector_class) cs w :
  execute_calls (driver_log (snd (connect k cs w))) = execute_calls (driver_log w).
Proof.
  unfold execute_calls.
  destruct k; cbn [connect]; unfold ODBC_connect, Postgres_connect; mstep.
  - destruct (drv_connect (driver_log w) (OdbcConnect cs)); cbn;
      rewrite List.filter_app, length_app; cbn; lia.
  - destruct (_parse_connection_string cs) as [e|params]; cbn; [reflexivity|].
    destruct (drv_connect (driver_log w) (PgConnect params)); cbn;
      rewrite List.filter_app, length_app; cbn; lia.
Qed.

(** X17. [execute_query] on a connector that holds no connection connects
    first.  If that fails the statement is not sent and the error is the
    ConnectionError of [connect]; otherwise the statement goes over the new
    handle, which the connector keeps. *)
Theorem execute_query_connects_on_demand (k : connector_class) cs q w :
  self_connection w = None ->
  match execute_query k cs q w with
  | (inl e, w') =>
      calls w' = calls w ++ [M_execute_query; M_connect] /\
      ((kind e = ConnectionError /\ self_connection w' = None /\
        execute_calls (driver_log w') = execute_calls (driver_log w)) \/
       (kind e = DriverError /\
        self_connection w' = Some (fresh_handle (driver_log w)) /\
        exists req,
          driver_log w' =
          driver_log w ++ [EvConnect req (Some (fresh_handle (driver_log w)));
                           EvExecute (fresh_handle (driver_log w)) q false]))
  | (inr _, w') =>
      calls w' = calls w ++ [M_execute_query; M_connect] /\
      self_connection w' = Some (fresh_handle (driver_log w)) /\
      exists req,
        driver_log w' =
        driver_log w ++ [EvConnect req (Some (fresh_handle (driver_log w)));
                         EvExecute (fresh_handle (driver_log w)) q true]
  end.
Proof.
  intros Hc.
  assert (Hrun : exists result_of : cursor_result -> QueryResult,
                 execute_query k cs q w =
                 match connect k cs (set_calls (calls w ++ [M_execute_query]) w) with
                 | (inl e, w1) => (inl e, w1)
                 | (inr _, w1) =>
                     match self_connection w1 with
                     | None =>
                         (inl (Exn AttributeError
                                 "'NoneType' object has no attribute 'cursor'"), w1)
                     | Some h =>
                         match drv_execute (driver_log w1) h q with
                         | inl msg =>
                             (inl (Exn DriverError msg),
                              set_log (driver_log w1 ++ [EvExecute h q false]) w1)
                         | inr c =>
                             (inr (result_of c),
                              set_log (driver_log w1 ++ [EvExecute h q true]) w1)
                         end
                     end
                 end).
  { destruct k; cbn [execute_query connect];
      unfold ODBC_execute_query, Postgres_execute_query; mstep; rewrite Hc.
    - exists (fun c =>
                {| columns := if has_result_set c then column_names c else [];
                   data := if has_result_set c
                           then map (dict_zip
                                       (if has_result_set c
                                        then column_names c else []))
                                    (rows c)
                           else [];
                   row_count :=
                     if has_result_set c
                     then Z.of_nat
                            (List.length
                               (if has_result_set c
                                then map (dict_zip
                                            (if has_result_set c
                                             then column_names c else []))
                                         (rows c)
                                else []))
                     else rowcount c;
                   affected_rows := if negb (has_result_set c)
                                    then rowcount c else 0 |}).
      destruct (ODBC_connect cs _) as [[e|b] w1]; [reflexivity|].
      destruct (self_connection w1) eqn:E; [|reflexivity].
      destruct (drv_execute _ _ _); rewrite ?E; reflexivity.
    - exists pg_result_of.
      destruct (Postgres_connect cs _) as [[e|b] w1]; [reflexivity|].
      destruct (self_connection w1) eqn:E; [|reflexivity].
      destruct (drv_execute _ _ _) as [msg|c]; [rewrite ?E; reflexivity|].
      unfold pg_result_of. rewrite length_map.
      destruct (has_result_set c); rewrite ?E; reflexivity. }
  destruct Hrun as (result_of & Hrun). rewrite Hrun. clear Hrun.
  pose proof (connect_sends_no_statement k cs
                (set_calls (calls w ++ [M_execute_query]) w)) as Hsent.
  pose proof (connect_outcome k cs (set_calls (calls w ++ [M_execute_query]) w))
    as Hk.
  destruct (connect k cs (set_calls (calls w ++ [M_execute_query]) w))
    as [[e|b] w1]; cbn [calls self_connection driver_log set_calls snd] in Hk, Hsent.
  - destruct Hk as (Hkind & Hcalls & Hconn & _ & Hopen).
    split; [rewrite Hcalls, <- app_assoc; reflexivity|]. left.
    split; [exact Hkind|]. split; [congruence|].
    exact Hsent.
  - destruct Hk as (_ & Hcalls & Hconn & _ & req & Hlog). rewrite Hconn.
    destruct (drv_execute (driver_log w1) (fresh_handle (driver_log w)) q)
      as [msg|c]; cbn [calls self_connection driver_log set_log].
    + split; [rewrite Hcalls, <- app_assoc; reflexivity|]. right.
      split; [reflexivity|]. split; [exact Hconn|].
      exists req. rewrite Hlog, <- app_assoc. reflexivity.
    + split; [rewrite Hcalls, <- app_assoc; reflexivity|].
      split; [exact Hconn|].
      exists req. rewrite Hlog, <- app_assoc. reflexivity.
Qed.

End WithEnv.

Lemma get_ddl_only_sends_statements_witness :
  only_statements 0%nat odbc_connected
    (snd (@get_ddl (static_env (orders_catalog true true)) ODBCConnector 5
            "DSN=warehouse" (CStr "orders") "table" odbc_connected)).
Proof.
  apply (@get_ddl_only_sends_statements (static_env (orders_catalog true true))
           ODBCConnector 5 "DSN=warehouse" (CStr "orders") "table"
           odbc_connected 0%nat).
  reflexivity.
Defined.

Lemma successful_call_closes_its_connection_witness :
  connection_closed fresh_world
    (snd (@execute_query_with_cache update_env "DSN=warehouse" "fabric"
            "UPDATE orders SET total = 0" false 60 fresh_world)).
Proof.
  apply (@successful_call_closes_its_connection update_env
           "DSN=warehouse" "fabric" "UPDATE orders SET total = 0" "" "" false 60
           fresh_world
           (success_result
              {| columns := []; data := []; row_count := 3; affected_rows := 3 |}
              "UPDATE orders SET total = 0" "fabric")).
  - left. vm_compute. reflexivity.
  - split; reflexivity.
Defined.

Lemma unsupported_db_type_is_reported_witness :
  @execute_query_with_cache update_env "DSN=warehouse" "MySQL" "SELECT 1" false 60
    fresh_world
  = (inr (PDict (error_result ("Unsupported database type: " +:+ "MySQL")
                   "SELECT 1" "MySQL")), fresh_world) /\
  @get_ddl_with_cache update_env "DSN=warehouse" "MySQL" "orders" "table" false 60
    fresh_world
  = (inr (PDict (CacheProps.ddl_error_result
                   ("Unsupported database type: " +:+ "MySQL")
                   "orders" "table" "MySQL")), fresh_world).
Proof.
  apply (@unsupported_db_type_is_reported update_env "DSN=warehouse" "MySQL"
           "SELECT 1" "orders" "table" 60 fresh_world).
  reflexivity.
Defined.

Lemma postgres_descriptor_errors_reach_no_driver_witness :
  exists w',
    @execute_query_with_cache update_env "shop" "PostgreSQL" "SELECT 1" false 60
      fresh_world
    = (inr (PDict (error_result
                     ("Failed to connect to PostgreSQL database: "
                      +:+ "Unsupported PostgreSQL connection string format: shop")
                     "SELECT 1" "PostgreSQL")), w') /\
    driver_log w' = driver_log fresh_world /\
    calls w' = calls fresh_world ++ [M_connect].
Proof.
  apply (@postgres_descriptor_errors_reach_no_driver update_env "shop"
           "PostgreSQL" "SELECT 1" 60 fresh_world
           (Exn ValueError "Unsupported PostgreSQL connection string format: shop"));
    reflexivity.
Defined.

Lemma disconnect_closes_once_witness :
  exists w1,
    @disconnect update_env odbc_connected = (inr tt, w1) /\
    self_connection w1 = None /\
    driver_log w1 = driver_log odbc_connected ++ [EvClose 0%nat] /\
    @disconnect update_env w1
    = (inr tt, set_calls (calls w1 ++ [M_disconnect]) w1).
Proof.
  apply (@disconnect_closes_once update_env odbc_connected 0%nat).
  reflexivity.
Defined.

Lemma execute_query_connects_on_demand_witness :
  match @execute_query failing_env PostgresConnector "host=db dbname=shop"
          "SELEC 1" fresh_world with
  | (inl e, w') =>
      calls w' = calls fresh_world ++ [M_execute_query; M_connect] /\
      ((kind e = ConnectionError /\ self_connection w' = None /\
        execute_calls (driver_log w') = execute_calls (driver_log fresh_world)) \/
       (kind e = DriverError /\
        self_connection w' = Some (fresh_handle (driver_log fresh_world)) /\
        exists req,
          driver_log w' =
          driver_log fresh_world
          ++ [EvConnect req (Some (fresh_handle (driver_log fresh_world)));
              EvExecute (fresh_handle (driver_log fresh_world)) "SELEC 1" false]))
  | (inr _, w') =>
      calls w' = calls fresh_world ++ [M_execute_query; M_connect] /\
      self_connection w' = Some (fresh_handle (driver_log fresh_world)) /\
      exists req,
        driver_log w' =
        driver_log fresh_world
        ++ [EvConnect req (Some (fresh_handle (driver_log fresh_world)));
            EvExecute (fresh_handle (driver_log fresh_world)) "SELEC 1" true]
  end.
Proof.
  apply (@execute_query_connects_on_demand failing_env PostgresConnector
           "host=db dbname=shop" "SELEC 1" fresh_world).
  reflexivity.
Defined.

End ConnectorExtras.

(* ===================================================================== *)
(** * Rows, descriptors and foreign keys                                  *)
(* ===================================================================== *)

Module TextExtras.
Import Py Runtime Connectors Cache Service Scenarios Statements.
Import StringFacts ConnectorFacts ServiceFacts TextProps.

(** ** Rows and columns *)

Lemma dict_get_app {V} k (a b : list (string * V)) :
  dict_get k (a ++ b)
  = match dict_get k a with Some v => Some v | None => dict_get k b end.
Proof.
  induction a as [|[k' v'] a IH]; cbn; [reflexivity|].
  destruct (String.eqb k' k); [reflexivity | exact IH].
Qed.

Lemma dict_get_set_any {V} k k' (v : V) d :
  dict_get k (dict_set k' v d)
  = if String.eqb k' k then Some v else dict_get k d.
Proof.
  induction d as [|[k0 v0] d IH]; cbn; [reflexivity|].
  destruct (String.eqb k0 k') eqn:E0; cbn.
  - apply String.eqb_eq in E0. subst k0.
    destruct (String.eqb k' k); reflexivity.
  - destruct (String.eqb k0 k) eqn:E1; [|exact IH].
    destruct (String.eqb k' k) eqn:E2; [|reflexivity].
    apply String.eqb_eq in E1, E2. subst. rewrite String.eqb_refl in E0.
    discriminate.
Qed.

Lemma dict_get_fold {V} k (kvs : list (string * V)) d :
  dict_get k (fold_left (fun d kv => dict_set (fst kv) (snd kv) d) kvs d)
  = match dict_get k (rev kvs) with
    | Some v => Some v
    | None => dict_get k d
    end.
Proof.
  revert d. induction kvs as [|[k' v'] kvs IH]; intros d; cbn [fold_left rev];
    [reflexivity|].
  rewrite IH, dict_get_app. cbn [fst snd dict_get].
  destruct (dict_get k (rev kvs)); [reflexivity|].
  rewrite dict_get_set_any. destruct (String.eqb k' k); reflexivity.
Qed.

Lemma dict_set_absent {V} k (v : V) d :
  dict_get k d = None -> dict_set k v d = d ++ [(k, v)].
Proof.
  induction d as [|[k' v'] d IH]; cbn; [reflexivity|].
  destruct (String.eqb k' k); [discriminate|]. intros Hd. rewrite IH; auto.
Qed.

Lemma dict_get_absent {V} k (d : list (string * V)) :
  ~ In k (map fst d) -> dict_get k d = None.
Proof.
  induction d as [|[k' v'] d IH]; cbn; [reflexivity|]. intros Hn.
  destruct (String.eqb k' k) eqn:E.
  - apply String.eqb_eq in E. tauto.
  - apply IH. tauto.
Qed.

Lemma dict_fold_distinct {V} (kvs d : list (string * V)) :
  NoDup (map fst (d ++ kvs)) ->
  fold_left (fun d kv => dict_set (fst kv) (snd kv) d) kvs d = d ++ kvs.
Proof.
  revert d. induction kvs as [|[k v] kvs IH]; intros d Hnd; cbn [fold_left].
  - symmetry. apply app_nil_r.
  - cbn [fst snd]. rewrite dict_set_absent.
    + rewrite IH; rewrite <- app_assoc; [reflexivity | exact Hnd].
    + apply dict_get_absent. rewrite map_app in Hnd. cbn in Hnd.
      apply NoDup_app in Hnd. destruct Hnd as (_ & Hnd & _).
      intros Hin. apply list_elem_of_In in Hin. apply (Hnd k Hin). left.
Qed.

Lemma combine_keys_distinct {V} (keys : list string) (values : list V) :
  NoDup keys -> NoDup (map fst (combine keys values)).
Proof.
  revert values. induction keys as [|k keys IH]; intros values Hnd;
    [apply NoDup_nil_2|].
  destruct values as [|v values]; [apply NoDup_nil_2|]. cbn.
  apply NoDup_cons in Hnd. destruct Hnd as [Hk Hrest].
  apply NoDup_cons. split; [|apply IH, Hrest].
  intros Hin. apply Hk. apply list_elem_of_In in Hin. apply list_elem_of_In.
  apply in_map_iff in Hin.
  destruct Hin as ([k' v'] & Heq & Hin). cbn in Heq. subst k'.
  eapply in_combine_l, Hin.
Qed.

Lemma dict_zip_distinct {V} (keys : list string) (values : list V) :
  NoDup keys -> dict_zip keys values = combine keys values.
Proof.
  intros Hnd. unfold dict_zip.
  apply (dict_fold_distinct (combine keys values) []).
  apply combine_keys_distinct, Hnd.
Qed.

Lemma dict_zip_last_wins {V} name (keys : list string) (values : list V) :
  dict_get name (dict_zip keys values)
  = dict_get name (rev (combine keys values)).
Proof.
  unfold dict_zip. rewrite dict_get_fold.
  destruct (dict_get name (rev (combine keys values))); reflexivity.
Qed.

Lemma rows_keyed_by_columns (cols : list string) (table : list (list cell)) :
  Forall2 (fun row values =>
             (forall name,
                 dict_get name row = dict_get name (rev (combine cols values))) /\
             (NoDup cols -> row = combine cols values))
          (map (dict_zip cols) table) table.
Proof.
  induction table as [|values rest IH]; cbn [map]; constructor; [|exact IH].
  split; [intros name; apply dict_zip_last_wins | apply dict_zip_distinct].
Qed.

Section WithEnv.
Context `{Env}.

(** X18. The rows of a result set are keyed by the column names.  With
    distinct names a row is the columns paired with the values in order;
    when two columns have the same name the row has one entry for it, and the
    value of the last such column.  [row_count] is the number of rows. *)
Theorem result_rows_follow_columns (k : connector_class) cs q w h c :
  self_connection w = Some h ->
  drv_execute (driver_log w) h q = inr c ->
  has_result_set c = true ->
  exists r w',
    execute_query k cs q w = (inr r, w') /\
    columns r = column_names c /\
    row_count r = Z.of_nat (List.length (data r)) /\
    Forall2 (fun row values =>
               (forall name,
                   dict_get name row
                   = dict_get name (rev (combine (columns r) values))) /\
               (NoDup (columns r) -> row = combine (columns r) values))
            (data r) (rows c).
Proof.
  intros Hc Hd Hrs. rewrite (execute_query_connected k cs q w h Hc), Hd.
  eexists _, _. split; [reflexivity|].
  destruct k; rewrite ?Hrs; cbn [columns data row_count];
    (split; [reflexivity|]); (split; [reflexivity|]);
    apply rows_keyed_by_columns.
Qed.

End WithEnv.

(** ** Descriptors in keyword form *)

Lemma rev_string_rev_string t acc acc' :
  rev_string (rev_string t acc) acc' = rev_string acc (t +:+ acc').
Proof.
  revert acc acc'. induction t as [|a t IH]; intros acc acc'; cbn [rev_string].
  - reflexivity.
  - rewrite IH. reflexivity.
Qed.

Lemma rev_string_involutive t : rev_string (rev_string t "") "" = t.
Proof. rewrite rev_string_rev_string. cbn [rev_string]. apply append_nil_r. Qed.

Lemma split_ws_aux_token t rest cur :
  no_blank t = true ->
  split_ws_aux (t +:+ rest) cur = split_ws_aux rest (rev_string t cur).
Proof.
  revert cur. induction t as [|a t IH]; intros cur Ht; [reflexivity|].
  cbn in Ht. apply andb_true_iff in Ht. destruct Ht as [Ha Ht].
  rewrite append_cons. cbn [split_ws_aux rev_string].
  apply negb_true_iff in Ha. rewrite Ha. apply IH, Ht.
Qed.

Lemma flush_token t :
  t <> "" ->
  match rev_string t "" with
  | EmptyString => []
  | _ => [rev_string (rev_string t "") ""]
  end = [t].
Proof.
  intros Ht. destruct (rev_string t "") eqn:E.
  - exfalso. apply Ht. rewrite <- (rev_string_involutive t), E. reflexivity.
  - rewrite <- E, rev_string_involutive. reflexivity.
Qed.

Lemma split_ws_join tokens :
  Forall (fun t => t <> "" /\ no_blank t = true) tokens ->
  split_ws (join " " tokens) = tokens.
Proof.
  unfold split_ws, join. induction 1 as [|t ts [Hne Hnb] Hts IH]; [reflexivity|].
  destruct ts as [|t2 ts].
  - cbn [String.concat]. rewrite <- (append_nil_r t) at 1.
    rewrite (split_ws_aux_token t "" "" Hnb). cbn [split_ws_aux].
    apply flush_token, Hne.
  - change (String.concat " " (t :: t2 :: ts))
      with (t +:+ " " +:+ String.concat " " (t2 :: ts)).
    rewrite (split_ws_aux_token t _ "" Hnb).
    rewrite append_cons, append_nil_l.
    cbn [split_ws_aux]. change (is_space " ") with true. cbv iota.
    rewrite (flush_token t Hne), IH. reflexivity.
Qed.

Lemma split_once_token key value :
  no_equals key = true ->
  split_once "=" (key +:+ "=" +:+ value) = (key, Some value).
Proof.
  induction key as [|a key IH]; intros Hk; [reflexivity|].
  cbn in Hk. apply andb_true_iff in Hk. destruct Hk as [Ha Hk].
  rewrite append_cons. cbn [split_once].
  apply negb_true_iff in Ha. rewrite Ha, (IH Hk). reflexivity.
Qed.

Lemma contains_equals_token key rest : contains "=" (key +:+ "=" +:+ rest) = true.
Proof.
  induction key as [|a key IH]; [reflexivity|].
  rewrite append_cons. cbn [contains]. rewrite IH. apply orb_true_r.
Qed.

Lemma no_blank_app a b : no_blank (a +:+ b) = no_blank a && no_blank b.
Proof.
  unfold no_blank. induction a as [|x a IH]; [reflexivity|].
  rewrite append_cons. cbn [string_forall]. rewrite IH. apply andb_assoc.
Qed.

Lemma keyword_token_plain kv :
  plain_param kv = true ->
  keyword_token kv <> "" /\ no_blank (keyword_token kv) = true.
Proof.
  unfold plain_param, keyword_token. intros Hp.
  apply andb_true_iff in Hp. destruct Hp as [Hp Hv].
  apply andb_true_iff in Hp. destruct Hp as [Hk _]. split.
  - destruct (fst kv); discriminate.
  - rewrite !no_blank_app, Hk, Hv. reflexivity.
Qed.

Lemma pg_keyword_params_tokens params acc :
  forallb plain_param params = true ->
  NoDup (map fst (acc ++ params)) ->
  pg_keyword_params (map keyword_token params) acc = acc ++ params.
Proof.
  revert acc. induction params as [|[key value] params IH]; intros acc Hp Hnd.
  - symmetry. apply app_nil_r.
  - cbn in Hp. apply andb_true_iff in Hp. destruct Hp as [Hkv Hp].
    cbn [map pg_keyword_params]. unfold keyword_token at 1. cbn [fst snd].
    rewrite split_once_token.
    2:{ unfold plain_param in Hkv. cbn [fst snd] in Hkv.
        apply andb_true_iff in Hkv. destruct Hkv as [Hkv _].
        apply andb_true_iff in Hkv. apply Hkv. }
    rewrite dict_set_absent.
    + rewrite IH; [rewrite <- app_assoc; reflexivity | exact Hp
                  | rewrite <- app_assoc; exact Hnd].
    + apply dict_get_absent. rewrite map_app in Hnd. cbn in Hnd.
      apply NoDup_app in Hnd. destruct Hnd as (_ & Hnd & _).
      intros Hin. apply list_elem_of_In in Hin. apply (Hnd key Hin). left.
Qed.

Section WithEnv.
Context `{Env}.

(** X19. A descriptor in keyword form is read back as written: for keys and
    values of ASCII characters, the keys distinct and without blank or equals
    sign, the values without blank (an equals sign is allowed), parsing the
    items joined by blanks returns the keys and values in order. *)
Theorem keyword_descriptor_round_trip params :
  params <> [] ->
  NoDup (map fst params) ->
  forallb ascii_param params = true ->
  forallb plain_param params = true ->
  _parse_connection_string (keyword_string params) = inr params.
Proof.
  intros Hne Hnd _ Hp. unfold _parse_connection_string, keyword_string.
  assert (Hcontains : contains "=" (join " " (map keyword_token params)) = true).
  { destruct params as [|kv [|kv2 rest]]; [congruence| |].
    - unfold join. cbn [map String.concat]. unfold keyword_token.
      apply contains_equals_token.
    - unfold join. cbn [map].
      change (String.concat " " (keyword_token kv :: keyword_token kv2
                                   :: map keyword_token rest))
        with (keyword_token kv +:+ " "
              +:+ String.concat " " (keyword_token kv2 :: map keyword_token rest)).
      unfold keyword_token at 1. rewrite !append_assoc.
      apply contains_equals_token. }
  rewrite Hcontains. f_equal. rewrite split_ws_join.
  - apply (pg_keyword_params_tokens params [] Hp Hnd).
  - apply Forall_forall. intros t Ht. apply list_elem_of_In, in_map_iff in Ht.
    destruct Ht as (kv & <- & Hin). apply keyword_token_plain.
    rewrite forallb_forall in Hp. apply Hp, Hin.
Qed.

Lemma split_once_contains sep s before after :
  split_once sep s = (before, Some after) ->
  contains (String sep "") s = true.
Proof.
  revert before. induction s as [|a s IH]; intros before; cbn [split_once];
    [discriminate|].
  cbn [contains is_prefix]. destruct (Ascii.eqb a sep) eqn:E.
  - intros _. apply Ascii.eqb_eq in E. subst a.
    rewrite Ascii.eqb_refl. destruct s; reflexivity.
  - destruct (split_once sep s) as [h t] eqn:Es. intros Heq.
    injection Heq as _ ->. rewrite (IH h eq_refl). apply orb_true_r.
Qed.

(** X20. The keyword form takes precedence: a descriptor of ASCII characters
    without blanks that holds an equals sign anywhere (a postgresql:// URI
    with a query string, for one) is read as a single key and value, split at
    the first equals sign, and the URI pattern is not consulted. *)
Theorem descriptor_with_equals_is_one_keyword cs key value :
  ascii_only cs = true ->
  no_blank cs = true ->
  split_once "=" cs = (key, Some value) ->
  _parse_connection_string cs = inr [(key, value)].
Proof.
  intros _ Hnb Hsplit. unfold _parse_connection_string.
  rewrite (split_once_contains _ _ _ _ Hsplit).
  assert (Hne : cs <> "") by (intros ->; discriminate Hsplit).
  pose proof (split_ws_join [cs]) as Hws. unfold join in Hws.
  cbn [String.concat] in Hws. rewrite Hws by (repeat constructor; auto).
  cbn [pg_keyword_params]. rewrite Hsplit. reflexivity.
Qed.

End WithEnv.

(** ** Foreign keys *)

Lemma join_cells_aux_strings i (l : list string) :
  join_cells_aux i (map CStr l) = inr l.
Proof.
  revert i. induction l as [|x l IH]; intros i; cbn; [reflexivity|].
  rewrite IH. reflexivity.
Qed.

Lemma join_cells_strings sep (l : list string) :
  join_cells sep (map CStr l) = inr (join sep l).
Proof. unfold join_cells. rewrite join_cells_aux_strings. reflexivity. Qed.

Lemma fk_lookup_unknown name fk_dict entry :
  fk_unknown name fk_dict ->
  fk_lookup (CStr name) fk_dict = None /\
  fk_lookup (CStr name) (fk_dict ++ [(CStr name, entry)]) = Some entry /\
  (forall entry',
      fk_store (CStr name) entry' (fk_dict ++ [(CStr name, entry)])
      = fk_dict ++ [(CStr name, entry')]) /\
  fk_store (CStr name) entry fk_dict = fk_dict ++ [(CStr name, entry)].
Proof.
  induction 1 as [|[k v] fk_dict Hk Hrest (IH1 & IH2 & IH3 & IH4)];
    cbn [app fk_lookup fk_store fst] in *.
  - unfold cell_eqb. cbn. rewrite String.eqb_refl. repeat split.
  - rewrite Hk, IH1, IH2, IH4. repeat split. intros entry'. rewrite IH3.
    reflexivity.
Qed.

(** One row of a foreign key whose entry exists, and one whose entry does
    not exist yet. *)
Lemma odbc_fk_group_next fk pair fk_dict pt rt pcs rcs :
  fk_unknown (fk_name fk) fk_dict ->
  odbc_fk_group (fk_dict ++ [(CStr (fk_name fk), (pt, rt, pcs, rcs))])
    (fk_row fk pair)
  = inr (fk_dict ++ [(CStr (fk_name fk),
                      (pt, rt, pcs ++ [CStr (fst pair)], rcs ++ [CStr (snd pair)]))]).
Proof.
  intros Hu.
  destruct (fk_lookup_unknown _ _ (pt, rt, pcs, rcs) Hu) as (_ & Hl & Hst & _).
  unfold odbc_fk_group, fk_row, getitem, fk_entry in *. cbn [dict_get].
  cbn [String.eqb Ascii.eqb Bool.eqb]. cbv iota. rewrite Hl. cbv iota.
  rewrite Hl, Hst. reflexivity.
Qed.

Lemma odbc_fk_group_first fk pair fk_dict :
  fk_unknown (fk_name fk) fk_dict ->
  odbc_fk_group fk_dict (fk_row fk pair)
  = inr (fk_dict ++ [(CStr (fk_name fk),
                      (CStr (parent_table fk), CStr (referenced_table fk),
                       [CStr (fst pair)], [CStr (snd pair)]))]).
Proof.
  intros Hu.
  destruct (fk_lookup_unknown _ _ (CStr (parent_table fk),
                                   CStr (referenced_table fk), [], []) Hu)
    as (Hl0 & Hl & Hst & Hnew).
  unfold odbc_fk_group, fk_row, getitem, fk_entry in *. cbn [dict_get].
  cbn [String.eqb Ascii.eqb Bool.eqb]. cbv iota. rewrite Hl0. cbv iota.
  rewrite Hnew. cbv iota. rewrite Hl, Hst. reflexivity.
Qed.

(** The rows of one foreign key extend its entry by their columns. *)
Lemma odbc_fk_groups_extend fk pairs rest fk_dict pt rt pcs rcs :
  fk_unknown (fk_name fk) fk_dict ->
  odbc_fk_groups (map (fk_row fk) pairs ++ rest)
    (fk_dict ++ [(CStr (fk_name fk), (pt, rt, pcs, rcs))])
  = odbc_fk_groups rest
      (fk_dict ++ [(CStr (fk_name fk),
                    (pt, rt, pcs ++ map CStr (map fst pairs),
                     rcs ++ map CStr (map snd pairs)))]).
Proof.
  intros Hu. revert pcs rcs.
  induction pairs as [|pair pairs IH]; intros pcs rcs.
  - cbn [map app]. rewrite !app_nil_r. reflexivity.
  - cbn [map app odbc_fk_groups].
    rewrite (odbc_fk_group_next fk pair fk_dict pt rt pcs rcs Hu).
    rewrite IH, <- !app_assoc. reflexivity.
Qed.

Lemma odbc_fk_groups_group fk rest fk_dict :
  fk_unknown (fk_name fk) fk_dict -> column_pairs fk <> [] ->
  odbc_fk_groups (fk_rows fk ++ rest) fk_dict
  = odbc_fk_groups rest (fk_dict ++ [fk_entry_of fk]).
Proof.
  intros Hu Hne. unfold fk_rows, fk_entry_of.
  destruct (column_pairs fk) as [|pair pairs]; [congruence|].
  cbn [map app odbc_fk_groups].
  rewrite (odbc_fk_group_first fk pair fk_dict Hu).
  apply (odbc_fk_groups_extend fk pairs rest fk_dict _ _
           [CStr (fst pair)] [CStr (snd pair)] Hu).
Qed.

Lemma odbc_fk_groups_all fks fk_dict :
  NoDup (map fk_name fks) ->
  Forall (fun fk => column_pairs fk <> [] /\ fk_unknown (fk_name fk) fk_dict) fks ->
  odbc_fk_groups (concat (map fk_rows fks)) fk_dict
  = inr (fk_dict ++ map fk_entry_of fks).
Proof.
  revert fk_dict. induction fks as [|fk fks IH]; intros fk_dict Hnd Hall.
  - cbn. rewrite app_nil_r. reflexivity.
  - cbn [map concat]. apply Forall_cons in Hall. destruct Hall as [[Hne Hu] Hall].
    cbn [map] in Hnd. apply NoDup_cons in Hnd. destruct Hnd as [Hfresh Hnd].
    rewrite (odbc_fk_groups_group fk _ fk_dict Hu Hne).
    rewrite IH; [rewrite <- app_assoc; reflexivity | exact Hnd |].
    apply Forall_forall. intros fk' Hin.
    rewrite Forall_forall in Hall. destruct (Hall fk' Hin) as [Hne' Hu'].
    split; [exact Hne'|]. unfold fk_unknown in *. apply Forall_app. split; [exact Hu'|].
    repeat constructor. unfold fk_entry_of. cbn [fst]. unfold cell_eqb. cbn.
    apply String.eqb_neq. intros Heq. apply Hfresh.
    rewrite Heq. apply list_elem_of_fmap_2. exact Hin.
Qed.

Lemma odbc_fk_statements_text fks ddl :
  odbc_fk_statements (map fk_entry_of fks) ddl
  = inr (ddl +:+ concat_all (map fk_statement_text fks)).
Proof.
  revert ddl. induction fks as [|fk fks IH]; intros ddl.
  - cbn. rewrite append_nil_r. reflexivity.
  - cbn [map odbc_fk_statements concat_all]. unfold odbc_fk_statement, fk_entry_of.
    rewrite !join_cells_strings. rewrite IH. f_equal.
    unfold fk_statement_text. cbn [py_str]. rewrite <- !append_assoc. reflexivity.
Qed.

(** X21. Foreign keys are grouped by constraint name.  When the catalog
    reports the foreign keys one after the other under distinct names, each
    with one row per column pair, the DDL gets one ALTER TABLE statement for
    each key, in the order of the keys, and a key over several columns lists
    its columns and the referenced columns in row order. *)
Theorem foreign_keys_are_grouped (fks : list foreign_key) (ddl : string) :
  NoDup (map fk_name fks) ->
  Forall (fun fk => column_pairs fk <> []) fks ->
  odbc_fk_part (concat (map fk_rows fks)) ddl
  = inr (ddl +:+ concat_all (map fk_statement_text fks)).
Proof.
  intros Hnd Hne. unfold odbc_fk_part.
  rewrite (odbc_fk_groups_all fks [] Hnd).
  2:{ apply Forall_forall. intros fk Hin. rewrite Forall_forall in Hne.
      split; [apply Hne, Hin | constructor]. }
  cbn [app]. rewrite odbc_fk_statements_text.
  destruct (concat (map fk_rows fks)) eqn:E; [|reflexivity].
  destruct fks as [|fk fks]; [cbn; rewrite append_nil_r; reflexivity|].
  exfalso. apply Forall_cons in Hne. destruct Hne as [Hne _].
  cbn in E. unfold fk_rows in E. destruct (column_pairs fk); [congruence|].
  discriminate E.
Qed.


Lemma result_rows_follow_columns_witness :
  exists r w',
    @execute_query twin_columns_env ODBCConnector "DSN=warehouse"
      "SELECT o.id, c.id FROM orders o JOIN customers c ON c.id = o.customer"
      odbc_connected = (inr r, w') /\
    columns r = ["id"; "id"] /\
    row_count r = Z.of_nat (List.length (data r)) /\
    Forall2 (fun row values =>
               (forall name,
                   dict_get name row
                   = dict_get name (rev (combine (columns r) values))) /\
               (NoDup (columns r) -> row = combine (columns r) values))
            (data r) [[CInt 1; CInt 2]].
Proof.
  apply (@result_rows_follow_columns twin_columns_env ODBCConnector
           "DSN=warehouse"
           "SELECT o.id, c.id FROM orders o JOIN customers c ON c.id = o.customer"
           odbc_connected 0%nat
           {| description := Some ["id"; "id"]; rows := [[CInt 1; CInt 2]];
              rowcount := 1 |});
    reflexivity.
Defined.

Lemma keyword_descriptor_round_trip_witness :
  @_parse_connection_string update_env (keyword_string sample_params)
  = inr sample_params.
Proof.
  apply (@keyword_descriptor_round_trip update_env sample_params).
  - discriminate.
  - apply (bool_decide_unpack _). vm_compute. exact I.
  - reflexivity.
  - reflexivity.
Defined.

Lemma descriptor_with_equals_is_one_keyword_witness :
  @_parse_connection_string update_env
    "postgresql://app@db.example.org/shop?sslmode=require"
  = inr [("postgresql://app@db.example.org/shop?sslmode", "require")].
Proof.
  apply (@descriptor_with_equals_is_one_keyword update_env
           "postgresql://app@db.example.org/shop?sslmode=require"
           "postgresql://app@db.example.org/shop?sslmode" "require");
    reflexivity.
Defined.

Lemma foreign_keys_are_grouped_witness :
  odbc_fk_part (concat (map fk_rows sample_foreign_keys)) "CREATE TABLE order_lines ( ... );"
  = inr ("CREATE TABLE order_lines ( ... );"
         +:+ concat_all (map fk_statement_text sample_foreign_keys)).
Proof.
  apply (foreign_keys_are_grouped sample_foreign_keys
           "CREATE TABLE order_lines ( ... );").
  - apply (bool_decide_unpack _). vm_compute. exact I.
  - repeat constructor; discriminate.
Defined.

End TextExtras.

(* ===================================================================== *)
(** * Further properties of the DDL service                               *)
(* ===================================================================== *)

Module DdlExtras.
Import Py Runtime Connectors Cache Service Scenarios Statements.
Import StringFacts ConnectorFacts ServiceFacts CacheProps ConnectorProps.
Import ConnectorExtras.

Section WithEnv.
Context `{Env}.

Lemma disconnect_same_store w : same_store w (snd (disconnect w)).
Proof.
  unfold disconnect. mstep. destruct (self_connection w) as [h|]; mstep.
  - destruct (drv_close (driver_log w) h); repeat split.
  - repeat split.
Qed.

(** [get_ddl_with_cache] without the decorator: a dictionary with at least
    one entry and [cached] false, the cache store left alone. *)
Lemma get_ddl_body_store cs db object_name object_type w :
  exists d w',
    get_ddl_body [cs; db; object_name; object_type] w = (inr (PDict d), w') /\
    same_store w w' /\ pv_truthy (PDict d) = true /\
    dict_set "cached" (PBool false) d = d /\
    dict_get "cached" d = Some (PBool false).
Proof.
  unfold get_ddl_body. mstep.
  pose proof (get_db_connector_outcome cs db w) as Hk.
  destruct (get_db_connector cs db w) as [[e|k] w0]; destruct Hk as [_ ->];
    [eexists _, _; split; [reflexivity|]; repeat split|].
  pose proof (connect_outcome k cs (set_connection None w)) as Hc.
  destruct (connect k cs (set_connection None w)) as [[e|b] w1];
    cbn [calls self_connection driver_log set_connection] in Hc.
  { destruct Hc as (_ & _ & _ & Hst & _).
    eexists _, _. split; [reflexivity|]. split; [exact Hst|]. repeat split. }
  destruct Hc as (_ & _ & Hconn & Hst & _).
  pose proof (get_ddl_statements_only k recursion_limit cs (CStr object_name)
                object_type _ w1 Hconn) as Hg.
  destruct (get_ddl k recursion_limit cs (CStr object_name) object_type w1)
    as [[e|ddl] w2]; cbn [snd] in Hg; destruct Hg as (_ & _ & _ & Hst2).
  { eexists _, _. split; [reflexivity|].
    split; [eapply same_store_trans; eauto|]. repeat split. }
  pose proof (disconnect_same_store w2) as Hst3.
  destruct (disconnect w2) as [[e|[]] w3]; cbn [snd] in Hst3;
    (eexists _, _; split; [reflexivity|];
     split; [eapply same_store_trans; [|exact Hst3];
             eapply same_store_trans; eauto|]; repeat split).
Qed.

(** X22. DDL results are cached like query results.  On a healthy empty
    store with a positive time to live, the first call of
    [get_ddl_with_cache] writes its result, success or error, under the key of
    the call; the same call within the time to live returns that result with
    [cached] true, after a trip through json, and calls no connector method
    and asks the driver nothing. *)
Theorem cached_ddl_runs_once cs db object_name object_type ttl dt w0 :
  redis_data w0 = ∅ -> redis_faults w0 = [] -> 0 < ttl -> 0 <= dt < ttl ->
  exists d1 w1 d2 w2,
    get_ddl_with_cache cs db object_name object_type true ttl w0
    = (inr (PDict d1), w1) /\
    redis_data w1 !! cache_key "get_ddl_with_cache"
                       [cs; db; object_name; object_type]
    = Some (clock w0 + ttl, json_dumps (PDict d1)) /\
    get_ddl_with_cache cs db object_name object_type true ttl (tick dt w1)
    = (inr (PDict d2), w2) /\
    calls w2 = calls w1 /\ driver_log w2 = driver_log w1 /\
    dict_get "cached" d1 = Some (PBool false) /\
    dict_get "cached" d2 = Some (PBool true) /\
    dict_without "cached" d2 = jsonify_items (dict_without "cached" d1) /\
    (json_native (PDict d1) = true ->
     dict_without "cached" d2 = dict_without "cached" d1).
Proof.
  intros Hempty Hf Httl Hdt.
  destruct (get_ddl_body_store cs db object_name object_type w0)
    as (d & wf & Hrun & Hst & Htruthy & Hsame & Hcached).
  destruct (redis_cache_twice "get_ddl_with_cache" get_ddl_body
              [cs; db; object_name; object_type] ttl dt w0 d wf Hf)
    as [H1 H2]; auto.
  { rewrite Hempty. apply lookup_empty. }
  cbv zeta in H1, H2. rewrite Hsame in H1, H2.
  unfold get_ddl_with_cache. rewrite H1.
  eexists _, _, _, _. split; [reflexivity|].
  split; [cbn; apply lookup_insert_eq|]. split; [exact H2|].
  cbn [calls driver_log set_redis tick].
  repeat split; auto.
  - apply dict_get_set.
  - rewrite dict_without_set, dict_without_jsonify. reflexivity.
  - intros Hn. rewrite dict_without_set, (jsonify_items_native d Hn). reflexivity.
Qed.

(** X23. An object type the connector does not know is not an error: for an
    object type of ASCII characters, over a connection the driver opens and
    closes, [get_ddl_with_cache] reports success with a comment naming the
    lower-cased type as the DDL, and no statement is sent. *)
Theorem unknown_object_type_reports_success
        cs db object_name object_type ttl w k w0 b w1 :
  ascii_only object_type = true ->
  get_db_connector cs db w = (inr k, w0) ->
  connect k cs w0 = (inr b, w1) ->
  drv_close (driver_log w1) (fresh_handle (driver_log w)) = None ->
  str_in (lower object_type) (object_types k) = false ->
  (0 < recursion_limit)%nat ->
  exists w',
    get_ddl_with_cache cs db object_name object_type false ttl w
    = (inr (PDict (ddl_success_result
                     (CStr ("-- DDL generation for " +:+ lower object_type
                            +:+ " is not supported yet"))
                     object_name object_type db)), w') /\
    execute_calls (driver_log w') = execute_calls (driver_log w).
Proof.
  intros _ Hk Hc Hclose Htype Hlimit.
  pose proof (get_db_connector_outcome cs db w) as Hk'. rewrite Hk in Hk'.
  destruct Hk' as [_ ->].
  pose proof (connect_outcome k cs (set_connection None w)) as Hc'.
  rewrite Hc in Hc'. cbn [calls self_connection driver_log set_connection] in Hc'.
  destruct Hc' as (_ & _ & Hconn & _ & req & Hlog).
  assert (Hddl : get_ddl k recursion_limit cs (CStr object_name) object_type w1
                 = (inr (CStr ("-- DDL generation for " +:+ lower object_type
                               +:+ " is not supported yet")),
                    set_calls (calls w1 ++ [M_get_ddl]) w1)).
  { destruct recursion_limit as [|depth]; [lia|].
    unfold str_in in Htype.
    destruct k; cbn [get_ddl ODBC_get_ddl Postgres_get_ddl object_types existsb] in *;
      unfold str_in; cbn [existsb];
      repeat match type of Htype with
             | (_ || _) = false =>
                 apply orb_false_iff in Htype;
                 let H1 := fresh "Ht" in destruct Htype as [H1 Htype]
             end;
      mstep; rewrite ?Ht, ?Ht0, ?Ht1, ?Ht2, ?Ht3, ?Ht4, ?Ht5; reflexivity. }
  unfold get_ddl_with_cache, redis_cache, get_ddl_body. cbn [negb]. mstep.
  rewrite Hk, Hc, Hddl.
  match goal with
  | |- context [disconnect ?w2] =>
      rewrite (disconnect_outcome w2 (fresh_handle (driver_log w)))
        by (cbn; exact Hconn)
  end.
  cbn [driver_log set_calls]. rewrite Hclose.
  eexists. split; [reflexivity|].
  cbn [driver_log set_connection set_log set_calls]. rewrite Hlog.
  unfold execute_calls. rewrite !List.filter_app, !length_app. cbn. lia.
Qed.

End WithEnv.

Lemma cached_ddl_runs_once_witness :
  exists d1 w1 d2 w2,
    @get_ddl_with_cache (static_env (orders_catalog true true))
      "DSN=warehouse" "fabric" "orders" "table" true 60 fresh_world
    = (inr (PDict d1), w1) /\
    redis_data w1 !! @cache_key (static_env (orders_catalog true true))
                       "get_ddl_with_cache"
                       ["DSN=warehouse"; "fabric"; "orders"; "table"]
    = Some (clock fresh_world + 60, json_dumps (PDict d1)) /\
    @get_ddl_with_cache (static_env (orders_catalog true true))
      "DSN=warehouse" "fabric" "orders" "table" true 60 (tick 10 w1)
    = (inr (PDict d2), w2) /\
    calls w2 = calls w1 /\ driver_log w2 = driver_log w1 /\
    dict_get "cached" d1 = Some (PBool false) /\
    dict_get "cached" d2 = Some (PBool true) /\
    dict_without "cached" d2 = jsonify_items (dict_without "cached" d1) /\
    (json_native (PDict d1) = true ->
     dict_without "cached" d2 = dict_without "cached" d1).
Proof.
  apply (@cached_ddl_runs_once (static_env (orders_catalog true true))
           "DSN=warehouse" "fabric" "orders" "table" 60 10 fresh_world);
    try reflexivity; lia.
Defined.

Lemma unknown_object_type_reports_success_witness :
  exists w',
    @get_ddl_with_cache update_env "DSN=warehouse" "fabric" "orders" "Index"
      false 60 fresh_world
    = (inr (PDict (ddl_success_result
                     (CStr ("-- DDL generation for " +:+ lower "Index"
                            +:+ " is not supported yet"))
                     "orders" "Index" "fabric")), w') /\
    execute_calls (driver_log w') = execute_calls (driver_log fresh_world).
Proof.
  apply (@unknown_object_type_reports_success update_env "DSN=warehouse"
           "fabric" "orders" "Index" 60 fresh_world ODBCConnector fresh_world
           true odbc_connected); try reflexivity.
  vm_compute. lia.
Defined.

End DdlExtras.

(* ===================================================================== *)
(** * Properties of the hash views                                        *)
(* ===================================================================== *)

Module HashApiExtras.
Import Codec CodecFacts CodecProps CodecExtras HashApi HashApiProps.

Lemma encrypted_token_is_text secret D token :
  simple_encrypt secret D = Some token ->
  token <> [] /\ Forall is_ascii token.
Proof.
  intros Henc. destruct (simple_encrypt_encodable _ _ _ Henc) as [HD Hs].
  destruct (simple_encrypt_token secret D Hs HD)
    as (signed & raw & _ & _ & Br & _ & Etok).
  assert (Htok : token = b64encode (sha256 signed ++ b64encode raw)) by congruence.
  subst token. split.
  - intros Hnil. apply (f_equal (@List.length Z)) in Hnil.
    rewrite b64encode_length, length_app, sha256_length in Hnil.
    unfold base64_length in Hnil. cbn [List.length] in Hnil.
    assert (1 <= (32 + List.length (b64encode raw) + 2) / 3)%nat
      by (apply Nat.div_le_lower_bound; lia).
    lia.
  - apply b64encode_ascii, Forall_app. split; [apply sha256_bytes|].
    apply ascii_bytes, b64encode_ascii, Br.
Qed.

Section Views.
Context `{Interpreter}.
Variable environ_secret : option text.

(** X24. POST /api/hash/encrypt answers 200 exactly for a JSON object whose
    [connection_string] is a non-empty string that can be encoded.  The
    answer then carries the token of that string, the token verifies
    ([test_verification] is true) and [hash_length] is the length of the
    token. *)
Theorem encrypt_route_outcome (request_json : text + value) :
  encodable (HASH_SECRET environ_secret) ->
  (forall s, names_text request_json "connection_string" s -> encodable s ->
     exists token,
       simple_encrypt (HASH_SECRET environ_secret) s = Some token /\
       encrypt_connection environ_secret request_json
       = Response [("status", lit "success"); ("hash", VStr token);
                   ("test_verification", VBool true);
                   ("hash_length", VInt (Z.of_nat (List.length token)))] 200) /\
  (status_code (encrypt_connection environ_secret request_json) = 200 ->
   exists s, names_text request_json "connection_string" s /\ encodable s).
Proof.
  intros Hsecret. split.
  - intros s (d & -> & Hget & Hne) Hs.
    destruct (simple_encrypt_token (HASH_SECRET environ_secret) s Hsecret Hs)
      as (signed & raw & _ & _ & _ & _ & Etok).
    eexists. split; [exact Etok|].
    destruct (encrypted_token_is_text _ _ _ Etok) as [Hnonempty _].
    pose proof (simple_decrypt_of_encrypt _ _ _ Etok) as Hdec.
    unfold encrypt_connection.
    assert (Hd : value_truthy (VDict d) = true).
    { destruct d; [|reflexivity]. unfold get in Hget. discriminate Hget. }
    rewrite Hd, Hget. cbn [negb value_truthy encrypt_connection_string verify_hash].
    destruct s as [|c s]; [congruence|]. cbn [negb].
    rewrite Etok.
    destruct (b64encode (sha256 signed ++ b64encode raw)) as [|t ts] eqn:Eb;
      [congruence|].
    rewrite Hdec. reflexivity.
  - unfold encrypt_connection.
    destruct request_json as [msg|request_data]; [discriminate|].
    destruct (value_truthy request_data) eqn:Ht; [|discriminate]. cbn [negb].
    destruct request_data as [| | | | |l|d]; try discriminate.
    destruct (value_truthy (get d "connection_string")) eqn:Hc; [|discriminate].
    cbn [negb]. unfold encrypt_connection_string.
    destruct (get d "connection_string") as [| | | |s| |] eqn:Hget;
      try discriminate.
    destruct (simple_encrypt (HASH_SECRET environ_secret) s) as [[|t ts]|] eqn:Es;
      try discriminate.
    intros _. exists s. split.
    + exists d. repeat split; auto. intros ->. discriminate Hc.
    + exact (proj1 (simple_encrypt_encodable _ _ _ Es)).
Qed.

(** X25. The two views are inverse to each other: the hash that
    /api/hash/encrypt returns for a connection string, posted to
    /api/hash/verify, is answered 200 with that connection string. *)
Theorem hash_routes_round_trip (request_json : text + value) (s : text) :
  encodable (HASH_SECRET environ_secret) ->
  prints_ascii ->
  names_text request_json "connection_string" s -> encodable s ->
  exists token,
    body (encrypt_connection environ_secret request_json)
    = [("status", lit "success"); ("hash", VStr token);
       ("test_verification", VBool true);
       ("hash_length", VInt (Z.of_nat (List.length token)))] /\
    verify_connection_hash environ_secret
      (inr (VDict [(text_of_string "hash", VStr token)]))
    = Response [("status", lit "success"); ("connection_string", VStr s);
                ("hash_length", VInt (Z.of_nat (List.length token)))] 200.
Proof.
  intros Hsecret Hprint (d & -> & Hget & Hne) Hs.
  destruct (simple_encrypt_token (HASH_SECRET environ_secret) s Hsecret Hs)
    as (signed & raw & _ & _ & _ & _ & Etok).
  destruct (encrypted_token_is_text _ _ _ Etok) as [Hnonempty Hascii].
  pose proof (simple_decrypt_of_encrypt _ _ _ Etok) as Hdec.
  set (token := b64encode (sha256 signed ++ b64encode raw)) in *.
  exists token. split.
  - unfold encrypt_connection.
    assert (Hd : value_truthy (VDict d) = true).
    { destruct d; [|reflexivity]. unfold get in Hget. discriminate Hget. }
    rewrite Hd, Hget. cbn [negb value_truthy encrypt_connection_string verify_hash].
    destruct s as [|c s]; [congruence|]. cbn [negb].
    rewrite Etok. destruct token as [|t ts] eqn:Eb; [congruence|].
    rewrite Hdec. reflexivity.
  - unfold verify_connection_hash. cbn [value_truthy negb].
    assert (Hh : get [(text_of_string "hash", VStr token)] "hash" = VStr token).
    { unfold get. cbn [dict_lookup]. unfold text_eqb.
      rewrite bool_decide_eq_true_2 by reflexivity. reflexivity. }
    rewrite Hh.
    assert (Htruthy : value_truthy (VStr token) = true)
      by (destruct token; [congruence | reflexivity]).
    rewrite Htruthy. cbn [negb hash_prefix verify_hash].
    rewrite Hprint.
    2:{ rewrite <- (firstn_skipn 30 token) in Hascii.
        apply Forall_app in Hascii. apply Hascii. }
    rewrite Hdec. destruct s as [|c s]; [congruence|]. reflexivity.
Qed.

(** X26. POST /api/hash/verify answers 200 only when the posted [hash] is a
    string that [simple_decrypt] turns into a non-empty connection string,
    which is the one it returns; a hash that decodes to the empty string is
    answered as invalid. *)
Theorem verify_route_outcome (request_json : text + value) :
  (status_code (verify_connection_hash environ_secret request_json) = 200 ->
   exists h connection_string,
     names_text request_json "hash" h /\
     simple_decrypt (HASH_SECRET environ_secret) h = Some connection_string /\
     connection_string <> [] /\
     body (verify_connection_hash environ_secret request_json)
     = [("status", lit "success"); ("connection_string", VStr connection_string);
        ("hash_length", VInt (Z.of_nat (List.length h)))]) /\
  (forall h, names_text request_json "hash" h ->
     simple_decrypt (HASH_SECRET environ_secret) h = Some [] ->
     status_code (verify_connection_hash environ_secret request_json) <> 200).
Proof.
  split.
  - unfold verify_connection_hash.
    destruct request_json as [msg|request_data]; [discriminate|].
    destruct (value_truthy request_data) eqn:Ht; [|discriminate]. cbn [negb].
    destruct request_data as [| | | | |l|d]; try discriminate.
    destruct (value_truthy (get d "hash")) eqn:Hc; [|discriminate]. cbn [negb].
    destruct (get d "hash") as [| | | |h|l|d'] eqn:Hget; cbn [hash_prefix];
      try discriminate.
    + destruct (print_error (VStr (firstn 30 h))); [discriminate|].
      cbn [verify_hash].
      destruct (simple_decrypt (HASH_SECRET environ_secret) h) as [[|c cs]|] eqn:Ed;
        try discriminate.
      intros _. exists h, (c :: cs). repeat split; auto; try discriminate.
      exists d. repeat split; auto. intros ->. discriminate Hc.
    + destruct (print_error (VList (firstn 30 l))); discriminate.
  - intros h (d & -> & Hget & Hne) Hdec. unfold verify_connection_hash.
    destruct (value_truthy (VDict d)); cbn [negb]; [|discriminate].
    rewrite Hget. destruct (value_truthy (VStr h)); cbn [negb]; [|discriminate].
    cbn [hash_prefix verify_hash].
    destruct (print_error (VStr (firstn 30 h))); [discriminate|].
    rewrite Hdec. discriminate.
Qed.

(** X27. GET /api/hash/test reports success under every secret that can be
    encoded: the test string comes back from the round trip and [match] is
    true.  [hash_system] always reads "AES Cryptography", and
    [secret_key_length] is the length of the environment variable, 0 when it
    is not set and the default secret is in use. *)
Theorem self_test_reports_success :
  encodable (HASH_SECRET environ_secret) ->
  exists token,
    simple_encrypt (HASH_SECRET environ_secret) test_string = Some token /\
    test_hash_functionality environ_secret
    = Response
        [("status", lit "success");
         ("hash_system", lit "AES Cryptography");
         ("original", VStr test_string);
         ("encrypted_hash", VStr token);
         ("decrypted", VStr test_string);
         ("match", VBool true);
         ("secret_key_length",
          VInt (Z.of_nat (List.length (match environ_secret with
                                       | Some s => s
                                       | None => []
                                       end))))]
        200.
Proof.
  intros Hsecret.
  assert (Hs : encodable test_string)
    by (apply (bool_decide_unpack _); vm_compute; exact I).
  destruct (simple_encrypt_token (HASH_SECRET environ_secret) test_string Hsecret Hs)
    as (signed & raw & _ & _ & _ & _ & Etok).
  destruct (encrypted_token_is_text _ _ _ Etok) as [Hnonempty _].
  pose proof (simple_decrypt_of_encrypt _ _ _ Etok) as Hdec.
  eexists. split; [exact Etok|].
  unfold test_hash_functionality. rewrite Etok.
  destruct (b64encode (sha256 signed ++ b64encode raw)) as [|t ts] eqn:Eb;
    [congruence|].
  rewrite Hdec. unfold same_text, text_eqb.
  rewrite bool_decide_eq_true_2 by reflexivity. reflexivity.
Qed.

End Views.

Lemma encrypt_route_outcome_witness :
  (forall s, names_text sample_request "connection_string" s -> encodable s ->
     exists token,
       simple_encrypt (HASH_SECRET None) s = Some token /\
       encrypt_connection None sample_request
       = Response [("status", lit "success"); ("hash", VStr token);
                   ("test_verification", VBool true);
                   ("hash_length", VInt (Z.of_nat (List.length token)))] 200) /\
  (status_code (encrypt_connection None sample_request) = 200 ->
   exists s, names_text sample_request "connection_string" s /\ encodable s).
Proof.
  apply (encrypt_route_outcome None sample_request).
  apply (bool_decide_unpack _). vm_compute. exact I.
Defined.

Lemma hash_routes_round_trip_witness :
  exists token,
    body (encrypt_connection None sample_request)
    = [("status", lit "success"); ("hash", VStr token);
       ("test_verification", VBool true);
       ("hash_length", VInt (Z.of_nat (List.length token)))] /\
    @verify_connection_hash quiet_interpreter None
      (inr (VDict [(text_of_string "hash", VStr token)]))
    = Response [("status", lit "success");
                ("connection_string", VStr sample_descriptor);
                ("hash_length", VInt (Z.of_nat (List.length token)))] 200.
Proof.
  apply (@hash_routes_round_trip quiet_interpreter None sample_request
           sample_descriptor).
  - apply (bool_decide_unpack _). vm_compute. exact I.
  - intros s Hs. reflexivity.
  - eexists. split; [reflexivity|]. split; [reflexivity | discriminate].
  - apply (bool_decide_unpack _). vm_compute. exact I.
Defined.

Lemma self_test_reports_success_witness :
  exists token,
    simple_encrypt (HASH_SECRET None) test_string = Some token /\
    test_hash_functionality None
    = Response
        [("status", lit "success");
         ("hash_system", lit "AES Cryptography");
         ("original", VStr test_string);
         ("encrypted_hash", VStr token);
         ("decrypted", VStr test_string);
         ("match", VBool true);
         ("secret_key_length", VInt (Z.of_nat (List.length (@nil Z))))]
        200.
Proof.
  apply (self_test_reports_success None).
  apply (bool_decide_unpack _). vm_compute. exact I.
Defined.

End HashApiExtras.
